(** * Daily nearest-station assignment: a shallow embedding

    This development models the core of
    [code/python/assign_nearest_station_dynamic_200706_201108.py]:

    - [prepare_meta]            (segment resolver),
    - [attach_segment_to_sun]   (segment attacher),
    - [nearest_station_for_day] (daily nearest-neighbour assigner),
    - [make_intervals]          (interval compressor),
    - the daily loop, the schema checks and the monthly sums of [main].

    Conventions.  A pandas frame is a list of rows (a record per row, one
    field per column the code reads).  A timestamp of a daily record is a day
    number in [Z], so [pd.Timedelta(days=1)] is [1] and [.dt.normalize()] is
    the identity.  A float64 column is a column of real numbers; a cell that
    pandas holds as NaN / NaT / <NA> is [None].  Python exceptions are the
    left summand of a sum type. *)

From Stdlib Require Import List ZArith Bool Lia Arith.
From Stdlib Require Import Reals Lra.
From Stdlib Require Import Strings.String.
From Stdlib Require Import Sorting.Sorted Sorting.Permutation.
From Stdlib Require Import Structures.OrderedTypeEx.
Import ListNotations.

Set Implicit Arguments.

(** The Python exceptions the script can end with: a [ValueError] with its
    message and the names it lists, or the [KeyError] of a missing
    column. *)
Inductive Exception :=
| ValueError (msg : string) (cols : list string)
| KeyError (col : string).

(* ================================================================== *)
(** * Frame operations shared by the functions of the script *)
(* ================================================================== *)

Module Frame.

Section Ops.
Variable A : Type.

(** [DataFrame.sort_values(by)]: pandas sorts on several keys with a
    stable sort; [leb] is the lexicographic comparison of the [by]
    columns.  Rows with equal keys keep their relative order. *)
Variable leb : A -> A -> bool.

Fixpoint insert (x : A) (l : list A) : list A :=
  match l with
  | [] => [x]
  | y :: l' => if leb x y then x :: y :: l' else y :: insert x l'
  end.

Definition sort_values (l : list A) : list A := fold_right insert [] l.

Definition le (a b : A) : Prop := leb a b = true.

(** [DataFrame.drop_duplicates(subset, keep="first")]: [same] compares the
    [subset] columns of two rows. *)
Variable same : A -> A -> bool.

Fixpoint drop_duplicates_from (seen : list A) (l : list A) : list A :=
  match l with
  | [] => []
  | x :: l' =>
      if existsb (same x) seen then drop_duplicates_from seen l'
      else x :: drop_duplicates_from (x :: seen) l'
  end.

Definition drop_duplicates (l : list A) : list A := drop_duplicates_from [] l.
End Ops.

(** [Series.unique()] on a sorted key column, as [groupby] enumerates its
    group keys: each key once, in order of first appearance. *)
Definition unique_keys (K : Type) (eqb : K -> K -> bool) (l : list K) : list K :=
  drop_duplicates eqb l.

End Frame.

(* ================================================================== *)
(** * Segment resolver: [prepare_meta] *)
(* ================================================================== *)

Module Meta.

Local Open Scope Z_scope.

(** A row of the station metadata file after the [pd.to_numeric] /
    [pd.to_datetime] coercions with [errors="coerce"]: a cell that does not
    parse is [None].  Station ids are whole numbers (the cast to [Int64] of
    line 71 accepts nothing else). *)
Record RawMeta := mkRawMeta {
  raw_station : option Z;      (* 지점 *)
  raw_name    : string;        (* 지점명 *)
  raw_start   : option Z;      (* 시작일 *)
  raw_end     : option Z;      (* 종료일 *)
  raw_lat     : option R;      (* 위도 *)
  raw_lon     : option R       (* 경도 *)
}.

(** A row of the frame [prepare_meta] returns. *)
Record Segment := mkSegment {
  station   : Z;
  name      : string;
  seg_start : Z;
  seg_end   : Z;
  lat       : R;
  lon       : R
}.

Definition set_seg_end (s : Segment) (e : Z) : Segment :=
  mkSegment (station s) (name s) (seg_start s) e (lat s) (lon s).

(** [fillna] *)
Definition fillna (x : option Z) (d : Z) : Z :=
  match x with Some v => v | None => d end.

(** Lines 71-88: drop rows without a station id, default the missing dates
    to the window, keep the rows that meet the window, clip them, and drop
    rows without coordinates. *)
Definition clip_row (window_start window_end : Z) (r : RawMeta) : option Segment :=
  match raw_station r with
  | None => None
  | Some st =>
      let s := fillna (raw_start r) window_start in
      let e := fillna (raw_end r) window_end in
      if (e >=? window_start) && (s <=? window_end) then
        match raw_lat r, raw_lon r with
        | Some la, Some lo =>
            Some (mkSegment st (raw_name r)
                            (Z.max s window_start) (Z.min e window_end) la lo)
        | _, _ => None
        end
      else None
  end.

Fixpoint clip_rows (window_start window_end : Z) (meta : list RawMeta) : list Segment :=
  match meta with
  | [] => []
  | r :: rest =>
      match clip_row window_start window_end r with
      | Some s => s :: clip_rows window_start window_end rest
      | None => clip_rows window_start window_end rest
      end
  end.

(** Line 91: the sort key [["지점", "seg_start", "seg_end"]]. *)
Definition key_leb (a b : Segment) : bool :=
  (station a <? station b)
  || ((station a =? station b)
      && ((seg_start a <? seg_start b)
          || ((seg_start a =? seg_start b) && (seg_end a <=? seg_end b)))).

Definition sorted_segments (window_start window_end : Z) (meta : list RawMeta)
  : list Segment :=
  Frame.sort_values key_leb (clip_rows window_start window_end meta).

(** Line 92: [groupby("지점")["seg_start"].shift(-1)]: the [seg_start] of the
    next row of the frame that has the same station id, NaT when there is
    none. *)
Definition next_start (r : Segment) (later : list Segment) : option Z :=
  match find (fun m => station m =? station r) later with
  | Some m => Some (seg_start m)
  | None => None
  end.

(** Lines 93-95: where [next_start] is present and [seg_end >= next_start],
    [seg_end] becomes [next_start - 1 day].  The comparison reads the column
    as it was before the assignment, and [seg_start] is never written. *)
Definition truncate (r : Segment) (later : list Segment) : Segment :=
  match next_start r later with
  | Some ns => if seg_end r >=? ns then set_seg_end r (ns - 1) else r
  | None => r
  end.

Fixpoint resolve_overlaps (l : list Segment) : list Segment :=
  match l with
  | [] => []
  | r :: later => truncate r later :: resolve_overlaps later
  end.

Definition prepare_meta (meta : list RawMeta) (window_start window_end : Z)
  : list Segment :=
  resolve_overlaps (sorted_segments window_start window_end meta).

(** The days a segment covers. *)
Definition covers (s : Segment) (d : Z) : Prop := seg_start s <= d <= seg_end s.

(** A segment inside the window. *)
Definition within_window (window_start window_end : Z) (s : Segment) : Prop :=
  window_start <= seg_start s /\ seg_end s <= window_end.

(** Of two segments of one station, the first ends before the second
    starts. *)
Definition before (a b : Segment) : Prop :=
  station a = station b -> seg_end a < seg_start b.

End Meta.

(* ================================================================== *)
(** * Segment attacher: [attach_segment_to_sun] *)
(* ================================================================== *)

Module Attach.

Import Meta.
Local Open Scope Z_scope.

(** A station-day row of the sunshine frame as [main] passes it on:
    station id and date are present (line 196 drops the others), the
    measurement may be NaN. *)
Record Obs := mkObs {
  obs_station : Z;             (* 지점 *)
  obs_name    : string;        (* 지점명 *)
  obs_date    : Z;             (* 일시 *)
  obs_sun     : option R       (* 합계 일조시간(hr) *)
}.

(** A row of [sun.merge(meta, on="지점", how="left")]: the segment columns
    are NaN / NaT ([None]) when no metadata row has the station id. *)
Definition Merged : Type := Obs * option Segment.

(** A row of the frame the function returns: every segment column present. *)
Record Candidate := mkCandidate {
  cand_obs : Obs;
  cand_seg : Segment
}.

Definition merge_row (meta : list Segment) (o : Obs) : list Merged :=
  match filter (fun s => station s =? obs_station o) meta with
  | [] => [(o, None)]
  | matches => map (fun s => (o, Some s)) matches
  end.

(** Lines 103-108: a left merge keeps the order of the left rows and, for
    one left row, the order of the right rows. *)
Definition merge_left (sun : list Obs) (meta : list Segment) : list Merged :=
  flat_map (merge_row meta) sun.

(** Line 110: a comparison with NaT is False. *)
Definition in_seg (m : Merged) : bool :=
  match snd m with
  | Some s => (obs_date (fst m) >=? seg_start s) && (obs_date (fst m) <=? seg_end s)
  | None => false
  end.

(** Line 111, [m.loc[in_seg]]: the rows kept all carry a segment. *)
Fixpoint loc_in_seg (m : list Merged) : list Candidate :=
  match m with
  | [] => []
  | (o, sg) :: rest =>
      if in_seg (o, sg) then
        match sg with
        | Some s => mkCandidate o s :: loc_in_seg rest
        | None => loc_in_seg rest
        end
      else loc_in_seg rest
  end.

(** Line 114: sort by [["지점", "일시", "seg_start"]],
    [ascending=[True, True, False]]. *)
Definition sort_leb (a b : Candidate) : bool :=
  let sa := obs_station (cand_obs a) in
  let sb := obs_station (cand_obs b) in
  let da := obs_date (cand_obs a) in
  let db := obs_date (cand_obs b) in
  (sa <? sb)
  || ((sa =? sb)
      && ((da <? db)
          || ((da =? db) && (seg_start (cand_seg a) >=? seg_start (cand_seg b))))).

(** Line 115: the [subset] of [drop_duplicates]. *)
Definition same_station_day (a b : Candidate) : bool :=
  (obs_station (cand_obs a) =? obs_station (cand_obs b))
  && (obs_date (cand_obs a) =? obs_date (cand_obs b)).

Definition attach_segment_to_sun (sun : list Obs) (meta : list Segment)
  : list Candidate :=
  Frame.drop_duplicates same_station_day
    (Frame.sort_values sort_leb (loc_in_seg (merge_left sun meta))).

(** The key of a candidate row: station id and date. *)
Definition station_day (c : Candidate) : Z * Z :=
  (obs_station (cand_obs c), obs_date (cand_obs c)).

(** A segment matches an observation: same station id and
    [seg_start <= date <= seg_end]. *)
Definition matches (o : Obs) (s : Segment) : Prop :=
  station s = obs_station o /\ seg_start s <= obs_date o <= seg_end s.

End Attach.

(* ================================================================== *)
(** * Daily nearest-neighbour assigner: [nearest_station_for_day] *)
(* ================================================================== *)

Module Nearest.

Local Open Scope R_scope.

(** [np.hypot]: the length of the hypotenuse. *)
Definition hypot (dx dy : R) : R := sqrt (dx * dx + dy * dy).

Definition Rltb (x y : R) : bool := if Rlt_dec x y then true else false.

(** [ndarray.argmin] along one row: a left-to-right scan that replaces the
    running minimum only by a strictly smaller entry, so the first of
    several equal minima is returned. *)
Fixpoint argmin_from (best_i : nat) (best : R) (i : nat) (row : list R) : nat :=
  match row with
  | [] => best_i
  | x :: rest =>
      if Rltb x best then argmin_from i x (S i) rest
      else argmin_from best_i best (S i) rest
  end.

(** numpy raises [ValueError] for an empty row. *)
Definition argmin (row : list R) : option nat :=
  match row with
  | [] => None
  | x :: rest => Some (argmin_from 0 x 1 rest)
  end.

(** Lines 124-126: [dist[i, j]] is the distance from region [i] to
    candidate [j]. *)
Definition dist_matrix (rx ry stx sty : list R) : list (list R) :=
  map (fun r => map (fun s => hypot (fst r - fst s) (snd r - snd s))
                    (combine stx sty))
      (combine rx ry).

Fixpoint argmin_rows (dist : list (list R)) : option (list nat) :=
  match dist with
  | [] => Some []
  | row :: rest =>
      match argmin row, argmin_rows rest with
      | Some i, Some idx => Some (i :: idx)
      | _, _ => None
      end
  end.

(** Line 128: [dist[np.arange(dist.shape[0]), idx]]. *)
Definition take_along (dist : list (list R)) (idx : list nat) : list R :=
  map (fun p => nth (snd p) (fst p) 0) (combine dist idx).

(** [main] passes columns of one frame, so [rx], [ry] and [stx], [sty] have
    equal lengths; the model raises for a mismatch (numpy would also
    broadcast an array of length 1).  With no candidate the reduction axis
    is empty and [argmin] raises, whatever the number of regions. *)
Definition nearest_station_for_day (rx ry stx sty : list R)
  : Exception + (list nat * list R) :=
  if negb ((List.length rx =? List.length ry)%nat
          && (List.length stx =? List.length sty)%nat) then
    inl (ValueError "operands could not be broadcast together"%string [])
  else
    match stx with
    | [] => inl (ValueError "attempt to get argmin of an empty sequence"%string [])
    | _ =>
        let dist := dist_matrix rx ry stx sty in
        match argmin_rows dist with
        | Some idx => inr (idx, take_along dist idx)
        | None => inl (ValueError "attempt to get argmin of an empty sequence"%string [])
        end
    end.

End Nearest.

(* ================================================================== *)
(** * Interval compressor: [make_intervals] *)
(* ================================================================== *)

Module Intervals.

Local Open Scope Z_scope.

(** A row of [region_day[gcols]].  The [date] column holds ISO dates
    (YYYY-MM-DD), whose string order is the calendar order; the model keeps
    the day number.  The station column may be a float column with NaN, the
    distance column may hold NaN. *)
Record Row := mkRow {
  SIGUNGU_CD : string;
  resid_area : string;
  date       : Z;
  st         : option Z;       (* station_col *)
  d          : option R        (* dist_col *)
}.

Record Interval := mkInterval {
  iv_SIGUNGU_CD   : string;
  iv_resid_area   : string;
  station_id      : Z;
  start_date      : Z;
  end_date        : Z;
  mean_distance_m : option R;
  n_days          : Z
}.

(** Line 136: the sort key [["resid_area", "date"]]. *)
Definition area_date_leb (a b : Row) : bool :=
  String.ltb (resid_area a) (resid_area b)
  || (String.eqb (resid_area a) (resid_area b) && (date a <=? date b)).

(** [!=] on a numpy column: NaN differs from everything, itself included. *)
Definition st_neq (a b : option Z) : bool :=
  match a, b with
  | Some x, Some y => negb (x =? y)
  | _, _ => true
  end.

(** Lines 142-143: [change[0]] is True, [change[i]] is [st[i] != st[i-1]]. *)
Definition change (st : list (option Z)) : list bool :=
  match st with
  | [] => []
  | _ :: tl => true :: map (fun p => st_neq (fst p) (snd p)) (combine tl st)
  end.

(** Line 145: [np.where(change)[0]], the positions that hold True. *)
Fixpoint where_from (i : nat) (flags : list bool) : list nat :=
  match flags with
  | [] => []
  | b :: rest => if b then i :: where_from (S i) rest else where_from (S i) rest
  end.

Definition np_where (flags : list bool) : list nat := where_from 0 flags.

(** Line 146: [np.r_[starts[1:] - 1, len(g) - 1]]. *)
Definition run_ends (starts : list nat) (len : nat) : list nat :=
  map Nat.pred (tl starts) ++ [Nat.pred len].

(** [d[s:e+1]] *)
Definition slice (A : Type) (l : list A) (s e1 : nat) : list A :=
  firstn (e1 - s) (skipn s l).

Fixpoint present (A : Type) (l : list (option A)) : list A :=
  match l with
  | [] => []
  | Some x :: rest => x :: present rest
  | None :: rest => present rest
  end.

Definition Rsum (l : list R) : R := fold_right Rplus 0%R l.

(** [np.nanmean]: the mean of the entries that are not NaN, NaN when there
    is none. *)
Definition nanmean (l : list (option R)) : option R :=
  match present l with
  | [] => None
  | vs => Some (Rsum vs / INR (List.length vs))%R
  end.

(** Lines 148-160, one turn of the loop over [zip(starts, ends)]. *)
Definition emit (code area : string) (g : list Row) (se : nat * nat)
  : list Interval :=
  let (s, e) := se in
  match nth s (map st g) None with
  | None => []
  | Some st_id =>
      [ mkInterval code area st_id
          (nth s (map date g) 0)
          (nth e (map date g) 0)
          (nanmean (slice (map d g) s (e + 1)))
          (Z.of_nat e - Z.of_nat s + 1) ]
  end.

(** Lines 137-160, the body of the loop over the groups. *)
Definition group_intervals (area : string) (g : list Row) : list Interval :=
  let code := match g with r :: _ => SIGUNGU_CD r | [] => EmptyString end in
  let starts := np_where (change (map st g)) in
  let ends := run_ends starts (List.length g) in
  flat_map (emit code area g) (combine starts ends).

(** The frame the loop of line 136 iterates over. *)
Definition sorted_rows (region_day : list Row) : list Row :=
  Frame.sort_values area_date_leb region_day.

(** The group of one region: its rows, in the order of the sorted frame. *)
Definition group (area : string) (region_day : list Row) : list Row :=
  filter (fun r => String.eqb (resid_area r) area) (sorted_rows region_day).

Definition group_keys (region_day : list Row) : list string :=
  Frame.unique_keys String.eqb (map resid_area (sorted_rows region_day)).

Definition make_intervals (region_day : list Row) : list Interval :=
  flat_map (fun area => group_intervals area (group area region_day))
           (group_keys region_day).

(** The bounds of the runs as one scan over the flags: [s] is where the
    current run started and [i] the position of the next flag.  The arrays
    [starts] and [ends] of the code hold the same pairs (lemma
    [starts_ends_run_bounds]). *)
Fixpoint run_bounds (s i : nat) (flags : list bool) : list (nat * nat) :=
  match flags with
  | [] => [(s, Nat.pred i)]
  | true :: rest => (s, Nat.pred i) :: run_bounds i (S i) rest
  | false :: rest => run_bounds s (S i) rest
  end.

(** The flags of the positions after one that holds [prev]. *)
Definition neq_flags (prev : option Z) (rest : list (option Z)) : list bool :=
  map (fun p => st_neq (fst p) (snd p)) (combine rest (prev :: rest)).

(** Positions [s..e] of the station column are a maximal run of unchanged
    station id: the entries agree, the entry before [s] (if any) differs
    from that at [s], and the entry after [e] (if any) from that at [e]. *)
Definition is_run (sts : list (option Z)) (s e : nat) : Prop :=
  (s <= e < List.length sts)%nat
  /\ (forall j, (s <= j <= e)%nat -> nth j sts None = nth s sts None)
  /\ (s = 0%nat \/ st_neq (nth s sts None) (nth (s - 1) sts None) = true)
  /\ (S e = List.length sts
      \/ st_neq (nth (S e) sts None) (nth e sts None) = true).

(** An interval replayed as the assigned station of each of its days. *)
Definition expand (iv : Interval) : list Z :=
  repeat (station_id iv) (Z.to_nat (n_days iv)).

Definition of_area (area : string) (ivs : list Interval) : list Interval :=
  filter (fun iv => String.eqb (iv_resid_area iv) area) ivs.

End Intervals.

(* ================================================================== *)
(** * The script's [main]: loading, daily loop, intervals, monthly sums *)
(* ================================================================== *)

Module Pipeline.

Import Meta Attach Nearest.
Local Open Scope string_scope.

(** Exceptions propagate: the first one raised ends the run. *)
Definition bind (A B : Type) (c : Exception + A) (k : A -> Exception + B)
  : Exception + B :=
  match c with
  | inl e => inl e
  | inr a => k a
  end.

Notation "x <- c ;; k" := (bind c (fun x => k))
  (at level 61, c at next level, right associativity).

(** A frame as read from a file: the columns it has, and its rows. *)
Record Table (Row : Type) := mkTable {
  columns : list string;
  rows    : list Row
}.

(** A row of the region centers file (after lines 182-188). *)
Record Region := mkRegion {
  SIGUNGU_CD      : string;
  resid_area      : string;
  centroid_x_utmK : R;
  centroid_y_utmK : R;
  rep_x_utmK      : R;
  rep_y_utmK      : R
}.

(** A row of the sunshine file after the coercions of lines 194, 195, 206. *)
Record RawObs := mkRawObs {
  raw_obs_station : option Z;
  raw_obs_name    : string;
  raw_obs_date    : option Z;
  raw_obs_sun     : option R
}.

Definition mem (c : string) (cols : list string) : bool :=
  existsb (String.eqb c) cols.

(** Line 177 *)
Definition need : list string :=
  ["SIGUNGU_CD"; "resid_area"; "centroid_x_utmK"; "centroid_y_utmK";
   "rep_x_utmK"; "rep_y_utmK"].

(** Line 178: [need - set(centers.columns)] *)
Definition missing (cols : list string) : list string :=
  filter (fun c => negb (mem c cols)) need.

(** [sorted] on strings *)
Definition sorted (l : list string) : list string :=
  Frame.sort_values String.leb l.

(** Lines 177-180 *)
Definition check_centers (cols : list string) : Exception + unit :=
  match missing cols with
  | [] => inr tt
  | m => inl (ValueError "Centers file missing columns" (sorted m))
  end.

(** [frame[col]] raises [KeyError] when the frame has no such column. *)
Definition getitem (cols : list string) (col : string) : Exception + unit :=
  if mem col cols then inr tt else inl (KeyError col).

Definition sun_col : string := "합계 일조시간(hr)".

(** Line 196: [dropna(subset=["지점", "일시"])] *)
Fixpoint dropna (sun : list RawObs) : list Obs :=
  match sun with
  | [] => []
  | r :: rest =>
      match raw_obs_station r, raw_obs_date r with
      | Some s, Some t => mkObs s (raw_obs_name r) t (raw_obs_sun r) :: dropna rest
      | _, _ => dropna rest
      end
  end.

(** Line 199 *)
Definition in_window (w_start w_end : Z) (sun : list Obs) : list Obs :=
  filter (fun o => (obs_date o >=? w_start)%Z && (obs_date o <=? w_end)%Z) sun.

Definition date_min (o : Obs) (rest : list Obs) : Z :=
  fold_right (fun x acc => Z.min (obs_date x) acc) (obs_date o) rest.

Definition date_max (o : Obs) (rest : list Obs) : Z :=
  fold_right (fun x acc => Z.max (obs_date x) acc) (obs_date o) rest.

(** Lines 176-222: everything [main] does before the daily loop.  The
    window is [WINDOW_START], [WINDOW_END]. *)
Definition load (w_start w_end : Z)
    (centers : Table Region) (sun : Table RawObs) (meta : Table RawMeta)
  : Exception + (list Region * list Candidate) :=
  _ <- check_centers (columns centers) ;;
  _ <- getitem (columns sun) "지점" ;;
  _ <- getitem (columns sun) "일시" ;;
  match in_window w_start w_end (dropna (rows sun)) with
  | [] => inl (ValueError "Sunlight data is empty after window filtering" [])
  | o :: rest =>
      if negb (mem sun_col (columns sun)) then
        inl (ValueError "Sunlight file missing" (sun_col :: columns sun))
      else
        (* prepare_meta, lines 71-87 *)
        _ <- getitem (columns meta) "지점" ;;
        _ <- getitem (columns meta) "시작일" ;;
        _ <- getitem (columns meta) "종료일" ;;
        _ <- getitem (columns meta) "위도" ;;
        _ <- getitem (columns meta) "경도" ;;
        let segments := prepare_meta (rows meta) (date_min o rest) (date_max o rest) in
        (* line 220 *)
        _ <- getitem (columns sun) "지점명" ;;
        (* attach_segment_to_sun, line 104 *)
        _ <- getitem (columns meta) "지점명" ;;
        inr (rows centers, attach_segment_to_sun (o :: rest) segments)
  end.

(** The columns each input table must have for [load] to succeed. *)
Definition required_sun : list string := ["지점"; "일시"; sun_col; "지점명"].
Definition required_meta : list string :=
  ["지점"; "시작일"; "종료일"; "위도"; "경도"; "지점명"].

(** A row of [sun_seg] with the planar coordinates of lines 225-228. *)
Record SunSeg := mkSunSeg {
  cand      : Candidate;
  st_x_utmK : R;
  st_y_utmK : R
}.

Definition sun_station (s : SunSeg) : Z := obs_station (cand_obs (cand s)).
Definition sun_date (s : SunSeg) : Z := obs_date (cand_obs (cand s)).
Definition sun_value (s : SunSeg) : option R := obs_sun (cand_obs (cand s)).

(** [to_utmK.transform(lon, lat)] is the reprojection, a black box. *)
Definition add_utmK (to_utmK : R -> R -> R * R) (sun_seg : list Candidate)
  : list SunSeg :=
  map (fun c =>
         let xy := to_utmK (lon (cand_seg c)) (lat (cand_seg c)) in
         mkSunSeg c (fst xy) (snd xy))
      sun_seg.

(** A row of [region_day]. *)
Record RegionDay := mkRegionDay {
  rd_SIGUNGU_CD       : string;
  rd_resid_area       : string;
  rd_date             : Z;
  station_id_centroid : Z;
  dist_m_centroid     : R;
  sun_hr_centroid     : option R;
  station_id_rep      : Z;
  dist_m_rep          : R;
  sun_hr_rep          : option R
}.

(** Line 234: [groupby] enumerates the days in increasing order, each with
    the rows of that day in frame order. *)
Definition days (sun_seg : list SunSeg) : list Z :=
  Frame.unique_keys Z.eqb (Frame.sort_values Z.leb (map sun_date sun_seg)).

Definition day_group (day : Z) (sun_seg : list SunSeg) : list SunSeg :=
  filter (fun s => (sun_date s =? day)%Z) sun_seg.

(** Lines 235-256: the frame of one day, a row per region. *)
Definition day_frame (centers : list Region) (day : Z) (g : list SunSeg)
  : Exception + list RegionDay :=
  let st_ids := map sun_station g in
  let stx := map st_x_utmK g in
  let sty := map st_y_utmK g in
  let sun_hr := map sun_value g in
  c <- nearest_station_for_day (map centroid_x_utmK centers)
         (map centroid_y_utmK centers) stx sty ;;
  r <- nearest_station_for_day (map rep_x_utmK centers)
         (map rep_y_utmK centers) stx sty ;;
  inr (map (fun row =>
              let reg := fst row in
              let ic := fst (fst (snd row)) in
              let dc := snd (fst (snd row)) in
              let ir := fst (snd (snd row)) in
              let dr := snd (snd (snd row)) in
              mkRegionDay (SIGUNGU_CD reg) (resid_area reg) day
                (nth ic st_ids 0%Z) dc (nth ic sun_hr None)
                (nth ir st_ids 0%Z) dr (nth ir sun_hr None))
           (combine centers
              (combine (combine (fst c) (snd c)) (combine (fst r) (snd r))))).

Fixpoint day_loop (centers : list Region) (sun_seg : list SunSeg) (ds : list Z)
  : Exception + list (list RegionDay) :=
  match ds with
  | [] => inr []
  | day :: rest =>
      f <- day_frame centers day (day_group day sun_seg) ;;
      fs <- day_loop centers sun_seg rest ;;
      inr (f :: fs)
  end.

(** Line 258: [pd.concat] raises on an empty list of frames. *)
Definition pd_concat (A : Type) (frames : list (list A)) : Exception + list A :=
  match frames with
  | [] => inl (ValueError "No objects to concatenate" [])
  | _ => inr (List.concat frames)
  end.

(** Lines 233-258 *)
Definition compute_region_day (centers : list Region) (sun_seg : list SunSeg)
  : Exception + list RegionDay :=
  out_rows <- day_loop centers sun_seg (days sun_seg) ;;
  pd_concat out_rows.

(** The records of one day, and what identifies a record's region. *)
Definition records_of_day (day : Z) (region_day : list RegionDay)
  : list RegionDay :=
  filter (fun r => (rd_date r =? day)%Z) region_day.

Definition record_region (r : RegionDay) : string * string :=
  (rd_SIGUNGU_CD r, rd_resid_area r).

Definition region_id (reg : Region) : string * string :=
  (SIGUNGU_CD reg, resid_area reg).

(** [sun_seg] has a row dated [day], whatever its measurement: the days
    the [groupby] of line 234 visits. *)
Definition has_row (day : Z) (sun_seg : list SunSeg) : bool :=
  existsb (fun s => (sun_date s =? day)%Z) sun_seg.

(** The two reference-point policies. *)
Inductive Method := centroid | rep.

Definition station_of (m : Method) (r : RegionDay) : Z :=
  match m with centroid => station_id_centroid r | rep => station_id_rep r end.

Definition dist_of (m : Method) (r : RegionDay) : R :=
  match m with centroid => dist_m_centroid r | rep => dist_m_rep r end.

Definition sun_of (m : Method) (r : RegionDay) : option R :=
  match m with centroid => sun_hr_centroid r | rep => sun_hr_rep r end.

(** [region_day[gcols]] for the columns of one policy (lines 279, 281):
    both are columns without NaN. *)
Definition gcols (m : Method) (r : RegionDay) : Intervals.Row :=
  Intervals.mkRow (rd_SIGUNGU_CD r) (rd_resid_area r) (rd_date r)
                  (Some (station_of m r)) (Some (dist_of m r)).

Definition intervals_of (m : Method) (region_day : list RegionDay)
  : list Intervals.Interval :=
  Intervals.make_intervals (map (gcols m) region_day).

(** A row of the monthly frame (lines 292-299). *)
Record Monthly := mkMonthly {
  mo_SIGUNGU_CD       : string;
  mo_resid_area       : string;
  mo_ym               : string;
  sun_hr_centroid_sum : R;
  sun_hr_rep_sum      : R;
  mo_n_days           : Z
}.

Section MonthlySums.
(** [pd.to_datetime(date).dt.to_period("M").astype(str)], the year-month
    label of a day: calendar arithmetic of pandas. *)
Variable ym : Z -> string.

Definition month_key (r : RegionDay) : string * string * string :=
  (rd_SIGUNGU_CD r, rd_resid_area r, ym (rd_date r)).

Definition key_eqb (a b : string * string * string) : bool :=
  String.eqb (fst (fst a)) (fst (fst b))
  && String.eqb (snd (fst a)) (snd (fst b))
  && String.eqb (snd a) (snd b).

Definition key_leb (a b : string * string * string) : bool :=
  String.ltb (fst (fst a)) (fst (fst b))
  || (String.eqb (fst (fst a)) (fst (fst b))
      && (String.ltb (snd (fst a)) (snd (fst b))
          || (String.eqb (snd (fst a)) (snd (fst b))
              && String.leb (snd a) (snd b)))).

Definition month_keys (region_day : list RegionDay)
  : list (string * string * string) :=
  Frame.unique_keys key_eqb
    (Frame.sort_values key_leb (map month_key region_day)).

Definition month_group (k : string * string * string)
    (region_day : list RegionDay) : list RegionDay :=
  filter (fun r => key_eqb (month_key r) k) region_day.

(** [sum] skips NaN (and is 0 when nothing is left); [count] counts the
    non-null cells of [date], which has none. *)
Definition aggregate (k : string * string * string) (g : list RegionDay)
  : Monthly :=
  mkMonthly (fst (fst k)) (snd (fst k)) (snd k)
    (Intervals.Rsum (Intervals.present (map sun_hr_centroid g)))
    (Intervals.Rsum (Intervals.present (map sun_hr_rep g)))
    (Z.of_nat (List.length g)).

Definition monthly (region_day : list RegionDay) : list Monthly :=
  map (fun k => aggregate k (month_group k region_day))
      (month_keys region_day).

Definition mo_key (row : Monthly) : string * string * string :=
  (mo_SIGUNGU_CD row, mo_resid_area row, mo_ym row).

Definition monthly_sum (m : Method) (row : Monthly) : R :=
  match m with
  | centroid => sun_hr_centroid_sum row
  | rep => sun_hr_rep_sum row
  end.
End MonthlySums.

(** A frame with a gap: one region, records on days 1 and 3 only, the same
    station on both. *)
Definition gap_region_day : list RegionDay :=
  [ mkRegionDay "11010" "A" 1 7 3 (Some 2%R) 7 3 (Some 2%R);
    mkRegionDay "11010" "A" 3 7 5 (Some 4%R) 7 5 (Some 4%R) ].

Definition gap_interval : Intervals.Interval :=
  Intervals.mkInterval "11010" "A" 7 1 3
    (Some (Intervals.Rsum [3%R; 5%R] / INR 2)%R) 2.

(** One region at the origin and one day with two stations: station 1 at
    the region's point, its sunshine cell empty; station 2 five metres
    away with 4 hours of sunshine.  The reprojection is taken to be the
    identity on these coordinates. *)
Definition absent_nearest_centers : list Region :=
  [ mkRegion "11010" "A" 0 0 0 0 ].

Definition absent_nearest_sun : list Obs :=
  [ mkObs 1 "near" 10 None; mkObs 2 "far" 10 (Some 4%R) ].

Definition absent_nearest_meta : list Segment :=
  [ mkSegment 1 "near" 0 20 0 0; mkSegment 2 "far" 0 20 4 3 ].

Definition absent_nearest_sun_seg : list SunSeg :=
  add_utmK (fun lon lat => (lon, lat))
           (attach_segment_to_sun absent_nearest_sun absent_nearest_meta).

(** One region at the origin and one station at the same point, with
    4 hours of sunshine on day 10 and an empty sunshine cell on day 11
    (two days of June 2007).  The reprojection is taken to be the identity
    on these coordinates. *)
Definition partly_absent_sun : list Obs :=
  [ mkObs 1 "near" 10 (Some 4%R); mkObs 1 "near" 11 None ].

Definition partly_absent_meta : list Segment :=
  [ mkSegment 1 "near" 0 20 0 0 ].

Definition partly_absent_sun_seg : list SunSeg :=
  add_utmK (fun lon lat => (lon, lat))
           (attach_segment_to_sun partly_absent_sun partly_absent_meta).

Definition partly_absent_region_day : list RegionDay :=
  [ mkRegionDay "11010" "A" 10 1 0 (Some 4%R) 1 0 (Some 4%R);
    mkRegionDay "11010" "A" 11 1 0 None 1 0 None ].

(** A month of one region with a record whose measurement under the
    centroid policy is absent. *)
Definition absent_month_region_day : list RegionDay :=
  [ mkRegionDay "11010" "A" 1 7 3 (Some 2%R) 7 3 (Some 2%R);
    mkRegionDay "11010" "A" 2 8 1 None 7 3 (Some 4%R) ].

(** A centers file without two of its columns. *)
Definition short_centers : Table Region :=
  mkTable ["SIGUNGU_CD"; "resid_area"; "centroid_x_utmK"; "rep_y_utmK"] [].

Record Output := mkOutput {
  out_region_day : list RegionDay;
  out_intervals  : list (Intervals.Interval * Method);
  out_monthly    : list Monthly
}.

Definition main (to_utmK : R -> R -> R * R) (ym : Z -> string)
    (w_start w_end : Z)
    (centers : Table Region) (sun : Table RawObs) (meta : Table RawMeta)
  : Exception + Output :=
  loaded <- load w_start w_end centers sun meta ;;
  region_day <- compute_region_day (fst loaded) (add_utmK to_utmK (snd loaded)) ;;
  inr (mkOutput region_day
         (map (fun iv => (iv, centroid)) (intervals_of centroid region_day)
          ++ map (fun iv => (iv, rep)) (intervals_of rep region_day))
         (monthly ym region_day)).

End Pipeline.

(* ================================================================== *)
(** * Further notions used to state properties of the functions *)
(* ================================================================== *)

Module Props.

Import Meta Attach.
Local Open Scope Z_scope.

(** A metadata row [prepare_meta] can use: station id and coordinates
    parse, and its interval (missing dates defaulted to the window) meets
    the window. *)
Definition usable (window_start window_end : Z) (r : RawMeta) : bool :=
  match raw_station r, raw_lat r, raw_lon r with
  | Some _, Some _, Some _ =>
      (fillna (raw_end r) window_end >=? window_start)
      && (fillna (raw_start r) window_start <=? window_end)
  | _, _, _ => false
  end.

(** The key of a segment row: station id and start. *)
Definition station_start (s : Segment) : Z * Z := (station s, seg_start s).

(** Lexicographic order on (station id, date) keys. *)
Definition key_lt (a b : Z * Z) : Prop :=
  fst a < fst b \/ (fst a = fst b /\ snd a < snd b).

(** The reference point of a region under a policy, and the straight-line
    distance from it to a candidate. *)
Definition ref_x (m : Pipeline.Method) (reg : Pipeline.Region) : R :=
  match m with
  | Pipeline.centroid => Pipeline.centroid_x_utmK reg
  | Pipeline.rep => Pipeline.rep_x_utmK reg
  end.

Definition ref_y (m : Pipeline.Method) (reg : Pipeline.Region) : R :=
  match m with
  | Pipeline.centroid => Pipeline.centroid_y_utmK reg
  | Pipeline.rep => Pipeline.rep_y_utmK reg
  end.

Definition distance (m : Pipeline.Method) (reg : Pipeline.Region)
    (c : Pipeline.SunSeg) : R :=
  Nearest.hypot (ref_x m reg - Pipeline.st_x_utmK c)
                (ref_y m reg - Pipeline.st_y_utmK c).

(** Under policy [m], record [r] of region [reg] holds candidate [c], which
    is row [k] of the day's group [g]: its station id, its measurement, its
    distance; no candidate of the group is nearer and every candidate
    listed before [c] is strictly farther. *)
Definition assigned (m : Pipeline.Method) (reg : Pipeline.Region)
    (g : list Pipeline.SunSeg) (r : Pipeline.RegionDay)
    (k : nat) (c : Pipeline.SunSeg) : Prop :=
  nth_error g k = Some c
  /\ Pipeline.station_of m r = Pipeline.sun_station c
  /\ Pipeline.sun_of m r = Pipeline.sun_value c
  /\ Pipeline.dist_of m r = distance m reg c
  /\ (forall j c', nth_error g j = Some c' ->
        (distance m reg c <= distance m reg c')%R)
  /\ (forall j c', (j < k)%nat -> nth_error g j = Some c' ->
        (distance m reg c < distance m reg c')%R).

(** Two regions and two days.  Region A has its centroid at the origin
    and its representative point one metre east; region B has both at
    (10, 0).  The sunshine file lists, in this order, station 9 and
    station 4 on day 10 and station 12 (with an empty sunshine cell) and
    station 9 on day 11.  Station 4 stands at (3, 4), station 9 at (4, 3),
    station 12 at (10, 1), so that stations 4 and 9 are both five metres
    from the centroid of A.  The reprojection is taken to be the identity
    on these coordinates. *)
Definition two_day_A : Pipeline.Region :=
  Pipeline.mkRegion "11010" "A" 0 0 1 0.

Definition two_day_B : Pipeline.Region :=
  Pipeline.mkRegion "11020" "B" 10 0 10 0.

Definition two_day_centers : list Pipeline.Region := [two_day_A; two_day_B].

Definition two_day_sun : list Obs :=
  [ mkObs 9 "nine" 10 (Some 5%R); mkObs 4 "four" 10 (Some 6%R);
    mkObs 12 "twelve" 11 None;    mkObs 9 "nine" 11 (Some 2%R) ].

Definition two_day_meta : list Segment :=
  [ mkSegment 4 "four" 0 20 4 3; mkSegment 9 "nine" 0 20 3 4;
    mkSegment 12 "twelve" 0 20 1 10 ].

Definition two_day_sun_seg : list Pipeline.SunSeg :=
  Pipeline.add_utmK (fun lon lat => (lon, lat))
                    (attach_segment_to_sun two_day_sun two_day_meta).

(** The rows of [two_day_sun_seg] by station and day. *)
Definition two_day_4_10 : Pipeline.SunSeg :=
  Pipeline.mkSunSeg
    (mkCandidate (mkObs 4 "four" 10 (Some 6%R)) (mkSegment 4 "four" 0 20 4 3))
    3 4.

Definition two_day_9_10 : Pipeline.SunSeg :=
  Pipeline.mkSunSeg
    (mkCandidate (mkObs 9 "nine" 10 (Some 5%R)) (mkSegment 9 "nine" 0 20 3 4))
    4 3.

Definition two_day_9_11 : Pipeline.SunSeg :=
  Pipeline.mkSunSeg
    (mkCandidate (mkObs 9 "nine" 11 (Some 2%R)) (mkSegment 9 "nine" 0 20 3 4))
    4 3.

Definition two_day_12_11 : Pipeline.SunSeg :=
  Pipeline.mkSunSeg
    (mkCandidate (mkObs 12 "twelve" 11 None) (mkSegment 12 "twelve" 0 20 1 10))
    10 1.

(** The records of the two regions on the two days. *)
Definition two_day_A_10 : Pipeline.RegionDay :=
  Pipeline.mkRegionDay "11010" "A" 10
    4 (Nearest.hypot (0 - 3) (0 - 4)) (Some 6%R)
    9 (Nearest.hypot (1 - 4) (0 - 3)) (Some 5%R).

Definition two_day_B_10 : Pipeline.RegionDay :=
  Pipeline.mkRegionDay "11020" "B" 10
    9 (Nearest.hypot (10 - 4) (0 - 3)) (Some 5%R)
    9 (Nearest.hypot (10 - 4) (0 - 3)) (Some 5%R).

Definition two_day_A_11 : Pipeline.RegionDay :=
  Pipeline.mkRegionDay "11010" "A" 11
    9 (Nearest.hypot (0 - 4) (0 - 3)) (Some 2%R)
    9 (Nearest.hypot (1 - 4) (0 - 3)) (Some 2%R).

Definition two_day_B_11 : Pipeline.RegionDay :=
  Pipeline.mkRegionDay "11020" "B" 11
    12 (Nearest.hypot (10 - 10) (0 - 1)) None
    12 (Nearest.hypot (10 - 10) (0 - 1)) None.

Definition two_day_region_day : list Pipeline.RegionDay :=
  [two_day_A_10; two_day_B_10; two_day_A_11; two_day_B_11].

(** A region whose station changes from day 1 to day 2. *)
Definition switch_region_day : list Pipeline.RegionDay :=
  [ Pipeline.mkRegionDay "11010" "A" 1 7 3 (Some 2%R) 7 3 (Some 2%R);
    Pipeline.mkRegionDay "11010" "A" 2 8 5 (Some 4%R) 8 5 (Some 4%R) ].

Definition switch_first : Intervals.Interval :=
  Intervals.mkInterval "11010" "A" 7 1 1
    (Some (Intervals.Rsum [3%R] / INR 1)%R) 1.

Definition switch_second : Intervals.Interval :=
  Intervals.mkInterval "11010" "A" 8 2 2
    (Some (Intervals.Rsum [5%R] / INR 1)%R) 1.

(** Three well-formed input tables: one region, one station with one
    observation on day 10. *)
Definition ok_centers : Pipeline.Table Pipeline.Region :=
  Pipeline.mkTable Pipeline.need [ Pipeline.mkRegion "11010" "A" 0 0 0 0 ].

Definition ok_sun : Pipeline.Table Pipeline.RawObs :=
  Pipeline.mkTable Pipeline.required_sun
    [ Pipeline.mkRawObs (Some 2) "far" (Some 10) (Some 4%R) ].

Definition ok_meta : Pipeline.Table RawMeta :=
  Pipeline.mkTable Pipeline.required_meta
    [ mkRawMeta (Some 2) "far" None None (Some 4%R) (Some 3%R) ].

Definition ok_candidate : Candidate :=
  mkCandidate (mkObs 2 "far" 10 (Some 4%R)) (mkSegment 2 "far" 10 10 4 3).

End Props.

From Stdlib Require Import Strings.Ascii.

(* ================================================================== *)
(** * Reading a file: [read_csv_smart] *)
(* ================================================================== *)

Module Csv.

(** What one call of [pd.read_csv] with a given encoding ([None] for the
    default) ends in: a frame, a [UnicodeDecodeError], or another
    exception. *)
Inductive Attempt (A : Type) :=
| Parsed (frame : A)
| UnicodeDecodeError
| Raised (e : Exception).

Arguments Parsed {A} frame.
Arguments UnicodeDecodeError {A}.
Arguments Raised {A} e.

(** Line 59 *)
Definition encodings : list string :=
  ["utf-8-sig"; "utf-8"; "cp949"; "euc-kr"]%string.

(** Lines 59-64: the loop returns the first attempt that does not raise
    [UnicodeDecodeError]; any other exception leaves the function at once;
    after the loop comes a last attempt with the default encoding. *)
Fixpoint try_encodings (A : Type) (read_csv : option string -> Attempt A)
    (encs : list string) : Attempt A :=
  match encs with
  | [] => read_csv None
  | enc :: rest =>
      match read_csv (Some enc) with
      | UnicodeDecodeError => try_encodings read_csv rest
      | outcome => outcome
      end
  end.

Definition read_csv_smart (A : Type) (read_csv : option string -> Attempt A)
  : Attempt A :=
  try_encodings read_csv encodings.

End Csv.

(* ================================================================== *)
(** * The merge key of [sigungu_center.py] *)
(* ================================================================== *)

(** A Python [str] is modelled by its UTF-8 bytes.  UTF-8 is
    self-synchronising, so the bytes of one character are found in a string
    only where that character stands, and the byte 10 only where a newline
    stands. *)
Module Sigungu.

Local Open Scope string_scope.

Definition si : string := "시".
Definition gu : string := "구".
Definition newline : ascii := "010"%char.

Fixpoint has_newline (s : string) : bool :=
  match s with
  | EmptyString => false
  | String c s' => Ascii.eqb c newline || has_newline s'
  end.

Fixpoint ends_with (suffix s : string) : bool :=
  String.eqb s suffix
  || match s with
     | EmptyString => false
     | String _ s' => ends_with suffix s'
     end.

(** [s] without the newline that ends it, if one does. *)
Fixpoint strip_nl (s : string) : string :=
  match s with
  | EmptyString => EmptyString
  | String c s' =>
      match s' with
      | EmptyString => if Ascii.eqb c newline then EmptyString else s
      | _ => String c (strip_nl s')
      end
  end.

Fixpoint drop (n : nat) (s : string) : string :=
  match n, s with
  | O, _ => s
  | S n', String _ s' => drop n' s'
  | S _, EmptyString => EmptyString
  end.

(** The rest of the name against [(.*구)$]: [.] matches no newline and [$]
    matches at the end or before a newline that ends the string, so the
    group is the whole rest up to such a newline. *)
Definition group2 (rest : string) : option string :=
  let b := strip_nl rest in
  if negb (has_newline b) && ends_with gu b then Some b else None.

(** Line 135, [re.match(r"^(.*?시)(.*구)$", name)]: the lazy first group
    grows a character at a time and stops at the first 시 after which the
    rest matches the second group; it cannot grow over a newline. *)
Fixpoint pat_city_gu (name : string) : option (string * string) :=
  match name with
  | EmptyString => None
  | String c name' =>
      match (if String.prefix si name
             then group2 (drop (String.length si) name) else None) with
      | Some g2 => Some (si, g2)
      | None =>
          if Ascii.eqb c newline then None
          else match pat_city_gu name' with
               | Some (g1, g2) => Some (String c g1, g2)
               | None => None
               end
      end
  end.

(** Lines 137-141 *)
Definition make_resid_area_2010 (sido_nm sigungu_nm : string) : string :=
  match pat_city_gu sigungu_nm with
  | Some (g1, g2) => sido_nm ++ "/" ++ g1 ++ "/" ++ g2
  | None => sido_nm ++ "/" ++ sigungu_nm
  end.

(** Lines 108-125 *)
Definition sido_map : list (string * string) :=
  [ ("11", "서울특별시"); ("21", "부산광역시"); ("22", "대구광역시");
    ("23", "인천광역시"); ("24", "광주광역시"); ("25", "대전광역시");
    ("26", "울산광역시"); ("31", "경기도"); ("32", "강원도");
    ("33", "충청북도"); ("34", "충청남도"); ("35", "전라북도");
    ("36", "전라남도"); ("37", "경상북도"); ("38", "경상남도");
    ("39", "제주특별자치도") ].

(** Lines 149-152 *)
Definition rename_map : list (string * string) :=
  [ ("충청남도/당진군", "충청남도/당진시");
    ("경기도/여주군", "경기도/여주시") ].

(** A dict lookup. *)
Fixpoint get (d : list (string * string)) (k : string) : option string :=
  match d with
  | [] => None
  | (k', v) :: rest => if String.eqb k k' then Some v else get rest k
  end.

(** [Series.replace(rename_map)]: a value that is a key of the dict becomes
    the dict's value for it. *)
Definition replace (d : list (string * string)) (v : string) : string :=
  match get d v with
  | Some v' => v'
  | None => v
  end.

(** A row of [df] after line 104, and with the columns of step 5. *)
Record Row := mkRow {
  SIGUNGU_CD : string;
  SIGUNGU_NM : string
}.

Record Keyed := mkKeyed {
  k_row           : Row;
  SIDO_CD         : string;
  SIDO_NM         : string;
  resid_area_2010 : string;
  resid_area      : string
}.

(** Line 127: [str[:2]] *)
Definition sido_cd (r : Row) : string := String.substring 0 2 (SIGUNGU_CD r).

Definition unmapped (r : Row) : bool :=
  match get sido_map (sido_cd r) with
  | Some _ => false
  | None => true
  end.

Definition key_row (r : Row) : Keyed :=
  let sido_nm := match get sido_map (sido_cd r) with
                 | Some v => v
                 | None => EmptyString
                 end in
  let area_2010 := make_resid_area_2010 sido_nm (SIGUNGU_NM r) in
  mkKeyed r (sido_cd r) sido_nm area_2010 (replace rename_map area_2010).

(** [Series.is_unique] *)
Fixpoint is_unique (l : list string) : bool :=
  match l with
  | [] => true
  | x :: rest => negb (existsb (String.eqb x) rest) && is_unique rest
  end.

(** [duplicated(keep=False)]: the values that occur more than once. *)
Definition duplicated (l : list string) : list string :=
  filter (fun x => Nat.ltb 1 (List.length (filter (String.eqb x) l))) l.

(** Lines 127-159: the keys of all rows, or the [ValueError] of line 132
    (with the codes of the first 20 rows whose province is unknown) or of
    line 159 (with the keys that are not unique, sorted). *)
Definition build_keys (df : list Row) : Exception + list Keyed :=
  match filter unmapped df with
  | bad :: more =>
      inl (ValueError "Unmapped SIDO_CD found"
                      (map SIGUNGU_CD (firstn 20 (bad :: more))))
  | [] =>
      let keyed := map key_row df in
      if is_unique (map resid_area keyed) then inr keyed
      else inl (ValueError "resid_area key is not unique"
                  (Frame.sort_values String.leb
                     (duplicated (map resid_area keyed))))
  end.

(** [name] reads [p], then 시, then a rest [r] that ends in 구: the places
    where the first group of the pattern can end. *)
Definition splits_at (name p r : string) : Prop :=
  name = p ++ si ++ r /\ ends_with gu r = true.

End Sigungu.

(* ================================================================== *)
(** * Facts about the frame operations *)
(* ================================================================== *)

Lemma StronglySorted_nth (A : Type) (R : A -> A -> Prop) (l : list A) :
  StronglySorted R l ->
  forall i j a b, (i < j)%nat ->
    nth_error l i = Some a -> nth_error l j = Some b -> R a b.
Proof.
  induction 1 as [|x l Hs IH Hx]; intros i j a b Hij Hi Hj.
  - destruct i; discriminate.
  - destruct j as [|j]; [lia|]. simpl in Hj.
    destruct i as [|i]; simpl in Hi.
    + injection Hi as <-. rewrite Forall_forall in Hx.
      apply Hx. eapply nth_error_In; eassumption.
    + apply (IH i j); auto. lia.
Qed.

Lemma StronglySorted_weaken (A : Type) (R S : A -> A -> Prop) (l : list A) :
  (forall a b, R a b -> S a b) -> StronglySorted R l -> StronglySorted S l.
Proof.
  intros HRS. induction 1 as [|x l Hs IH Hx]; constructor; [exact IH|].
  eapply Forall_impl; [|exact Hx]. intros b. apply HRS.
Qed.

Section FrameFacts.
Variable A : Type.
Variable leb : A -> A -> bool.

Lemma insert_perm (x : A) (l : list A) :
  Permutation (Frame.insert leb x l) (x :: l).
Proof.
  induction l as [|y l IH]; simpl; [reflexivity|].
  destruct (leb x y); [reflexivity|].
  rewrite IH. apply perm_swap.
Qed.

Lemma sort_values_perm (l : list A) :
  Permutation (Frame.sort_values leb l) l.
Proof.
  induction l as [|x l IH]; simpl; [constructor|].
  rewrite insert_perm. now constructor.
Qed.

Lemma sort_values_In (l : list A) (x : A) :
  In x (Frame.sort_values leb l) <-> In x l.
Proof.
  split; apply Permutation_in;
    [apply sort_values_perm | symmetry; apply sort_values_perm].
Qed.

Lemma sort_values_length (l : list A) :
  List.length (Frame.sort_values leb l) = List.length l.
Proof. apply Permutation_length, sort_values_perm. Qed.

Lemma sort_values_Forall (P : A -> Prop) (l : list A) :
  Forall P l -> Forall P (Frame.sort_values leb l).
Proof.
  intro H. eapply Permutation_Forall; [symmetry; apply sort_values_perm|exact H].
Qed.

Hypothesis leb_total : forall a b, leb a b = true \/ leb b a = true.
Hypothesis leb_trans :
  forall a b c, leb a b = true -> leb b c = true -> leb a c = true.

Lemma insert_sorted (x : A) (l : list A) :
  StronglySorted (Frame.le leb) l ->
  StronglySorted (Frame.le leb) (Frame.insert leb x l).
Proof.
  induction 1 as [|y l Hs IH Hy]; simpl.
  - constructor; constructor.
  - destruct (leb x y) eqn:E.
    + constructor; [constructor; assumption|].
      constructor; [exact E|].
      eapply Forall_impl; [|exact Hy].
      intros z Hz. eapply leb_trans; eassumption.
    + constructor; [exact IH|].
      eapply Permutation_Forall; [symmetry; apply insert_perm|].
      constructor; [|exact Hy].
      destruct (leb_total x y) as [H|H]; [congruence|exact H].
Qed.

Lemma sort_values_sorted (l : list A) :
  StronglySorted (Frame.le leb) (Frame.sort_values leb l).
Proof.
  induction l as [|x l IH]; simpl; [constructor|].
  now apply insert_sorted.
Qed.
End FrameFacts.

Section DropDuplicatesFacts.
Variable A : Type.
Variable same : A -> A -> bool.

Lemma drop_duplicates_from_In (l seen : list A) (x : A) :
  In x (Frame.drop_duplicates_from same seen l) -> In x l.
Proof.
  revert seen; induction l as [|y l IH]; simpl; intros seen H; [exact H|].
  destruct (existsb (same y) seen).
  - right; eauto.
  - destruct H as [H|H]; [now left | right; eauto].
Qed.

Lemma drop_duplicates_In (l : list A) (x : A) :
  In x (Frame.drop_duplicates same l) -> In x l.
Proof. apply drop_duplicates_from_In. Qed.

(** No kept row repeats the key of a row already seen. *)
Lemma drop_duplicates_from_fresh (l seen : list A) (x s : A) :
  In x (Frame.drop_duplicates_from same seen l) -> In s seen ->
  same x s = false.
Proof.
  revert seen; induction l as [|y l IH]; simpl; intros seen H Hs; [contradiction|].
  destruct (existsb (same y) seen) eqn:E.
  - eauto.
  - destruct H as [<-|H].
    + destruct (same y s) eqn:Es; [|reflexivity].
      assert (existsb (same y) seen = true) by (apply existsb_exists; eauto).
      congruence.
    + apply (IH (y :: seen)); [exact H | now right].
Qed.

(** Two kept rows never have the same key: [same] fails from the later to
    the earlier one. *)
Lemma drop_duplicates_from_distinct (l seen : list A) :
  StronglySorted (fun a b => same b a = false)
                 (Frame.drop_duplicates_from same seen l).
Proof.
  revert seen; induction l as [|y l IH]; simpl; intro seen; [constructor|].
  destruct (existsb (same y) seen); [apply IH|].
  constructor; [apply IH|].
  apply Forall_forall. intros z Hz.
  apply (drop_duplicates_from_fresh _ _ z y Hz). now left.
Qed.

Hypothesis same_refl : forall a, same a a = true.
Hypothesis same_trans :
  forall a b c, same a b = true -> same b c = true -> same a c = true.

(** The row kept for a key is the first row of the frame with that key. *)
Lemma drop_duplicates_from_first (l seen : list A) (x : A) :
  In x l -> existsb (same x) seen = false ->
  exists pre y post,
    l = pre ++ y :: post /\ same x y = true /\
    Forall (fun z => same x z = false) pre /\
    In y (Frame.drop_duplicates_from same seen l).
Proof.
  revert seen; induction l as [|y l IH]; simpl; intros seen Hin Hseen;
    [contradiction|].
  destruct (same x y) eqn:Exy.
  - exists [], y, l. split; [reflexivity|]. split; [exact Exy|].
    split; [constructor|].
    assert (Hy : existsb (same y) seen = false).
    { destruct (existsb (same y) seen) eqn:E; [|reflexivity].
      apply existsb_exists in E. destruct E as [s [Hs Hys]].
      assert (existsb (same x) seen = true).
      { apply existsb_exists. exists s. split; [exact Hs|].
        eapply same_trans; eassumption. }
      congruence. }
    rewrite Hy. now left.
  - destruct Hin as [->|Hin]; [rewrite same_refl in Exy; discriminate|].
    destruct (existsb (same y) seen) eqn:E.
    + destruct (IH seen Hin Hseen) as (pre & z & post & -> & Hz & Hpre & Hk).
      exists (y :: pre), z, post.
      split; [reflexivity|]. split; [exact Hz|].
      split; [now constructor | now rewrite ?E; try right].
    + assert (Hseen' : existsb (same x) (y :: seen) = false).
      { simpl. now rewrite Exy, Hseen. }
      destruct (IH (y :: seen) Hin Hseen') as (pre & z & post & -> & Hz & Hpre & Hk).
      exists (y :: pre), z, post.
      split; [reflexivity|]. split; [exact Hz|].
      split; [now constructor | now rewrite ?E; try right].
Qed.

Hypothesis same_sym : forall a b, same a b = same b a.

(** Two kept rows with the same key are one row. *)
Lemma drop_duplicates_unique (l : list A) (a b : A) :
  In a (Frame.drop_duplicates same l) -> In b (Frame.drop_duplicates same l) ->
  same a b = true -> a = b.
Proof.
  intros Ha Hb E.
  apply In_nth_error in Ha, Hb. destruct Ha as [i Hi], Hb as [j Hj].
  pose proof (drop_duplicates_from_distinct l []) as Hd.
  destruct (Nat.lt_trichotomy i j) as [Hlt|[->|Hlt]].
  - pose proof (StronglySorted_nth Hd Hlt Hi Hj) as F. simpl in F.
    rewrite same_sym in F. congruence.
  - unfold Frame.drop_duplicates in Hi, Hj. congruence.
  - pose proof (StronglySorted_nth Hd Hlt Hj Hi) as F. simpl in F. congruence.
Qed.

(** A kept row comes before every other row of the frame with its key. *)
Lemma drop_duplicates_kept_first (l : list A) (x y : A) :
  In x l -> In y (Frame.drop_duplicates same l) -> same x y = true ->
  exists pre post,
    l = pre ++ y :: post /\ Forall (fun z => same x z = false) pre.
Proof.
  intros Hx Hy E.
  destruct (@drop_duplicates_from_first l [] x Hx eq_refl)
    as (pre & z & post & -> & Hz & Hpre & Hk).
  assert (z = y).
  { apply (@drop_duplicates_unique (pre ++ z :: post)); auto.
    apply same_trans with x; [rewrite same_sym|]; assumption. }
  subst z. eauto.
Qed.

Lemma drop_duplicates_first (l : list A) (x : A) :
  In x l ->
  exists pre y post,
    l = pre ++ y :: post /\ same x y = true /\
    Forall (fun z => same x z = false) pre /\
    In y (Frame.drop_duplicates same l).
Proof. intro H. now apply drop_duplicates_from_first. Qed.
End DropDuplicatesFacts.

(** [unique] on a column whose [eqb] decides equality. *)
Section UniqueKeys.
Variable K : Type.
Variable eqb : K -> K -> bool.
Hypothesis eqb_eq : forall a b, eqb a b = true <-> a = b.

Lemma unique_keys_In (l : list K) (a : K) :
  In a (Frame.unique_keys eqb l) <-> In a l.
Proof.
  unfold Frame.unique_keys. split; [apply drop_duplicates_In|].
  intro H.
  assert (Hrefl : forall x, eqb x x = true) by (intro x; now apply eqb_eq).
  assert (Htrans : forall x y z, eqb x y = true -> eqb y z = true ->
                                 eqb x z = true).
  { intros x y z. rewrite !eqb_eq. congruence. }
  destruct (@drop_duplicates_first K eqb Hrefl Htrans l a H)
    as (_ & y & _ & _ & E & _ & Hy).
  apply eqb_eq in E. now subst.
Qed.

Lemma unique_keys_NoDup (l : list K) : NoDup (Frame.unique_keys eqb l).
Proof.
  unfold Frame.unique_keys, Frame.drop_duplicates.
  pose proof (drop_duplicates_from_distinct eqb l []) as H.
  induction H as [|x xs _ IH Hx]; constructor; [|exact IH].
  intro Hin. rewrite Forall_forall in Hx. specialize (Hx x Hin). simpl in Hx.
  assert (eqb x x = true) by now apply eqb_eq. congruence.
Qed.
End UniqueKeys.

(* ================================================================== *)
(** * Segment resolver *)
(* ================================================================== *)

Section MetaFacts.
Import Meta.
Local Open Scope Z_scope.

Lemma key_leb_total (a b : Segment) :
  key_leb a b = true \/ key_leb b a = true.
Proof.
  unfold key_leb.
  destruct (Z.ltb_spec (station a) (station b)),
           (Z.ltb_spec (station b) (station a)),
           (Z.eqb_spec (station a) (station b)),
           (Z.eqb_spec (station b) (station a)),
           (Z.ltb_spec (seg_start a) (seg_start b)),
           (Z.ltb_spec (seg_start b) (seg_start a)),
           (Z.eqb_spec (seg_start a) (seg_start b)),
           (Z.eqb_spec (seg_start b) (seg_start a)),
           (Z.leb_spec (seg_end a) (seg_end b)),
           (Z.leb_spec (seg_end b) (seg_end a)); simpl; auto; lia.
Qed.

Lemma key_leb_spec (a b : Segment) :
  key_leb a b = true <->
  station a < station b \/
  (station a = station b /\
   (seg_start a < seg_start b \/
    (seg_start a = seg_start b /\ seg_end a <= seg_end b))).
Proof.
  unfold key_leb.
  rewrite orb_true_iff, andb_true_iff, orb_true_iff, andb_true_iff.
  rewrite !Z.ltb_lt, !Z.eqb_eq, Z.leb_le. tauto.
Qed.

Lemma key_leb_trans (a b c : Segment) :
  key_leb a b = true -> key_leb b c = true -> key_leb a c = true.
Proof. rewrite !key_leb_spec. lia. Qed.

Lemma sorted_segments_sorted (ws we : Z) (meta : list RawMeta) :
  StronglySorted (fun a b => key_leb a b = true) (sorted_segments ws we meta).
Proof.
  apply (sort_values_sorted key_leb key_leb_total key_leb_trans).
Qed.

Lemma clip_row_within_window (ws we : Z) (r : RawMeta) (s : Segment) :
  clip_row ws we r = Some s -> within_window ws we s.
Proof.
  unfold clip_row, within_window.
  destruct (raw_station r); [|discriminate].
  destruct (_ && _); [|discriminate].
  destruct (raw_lat r); [|discriminate].
  destruct (raw_lon r); [|discriminate].
  intros [= <-]; simpl. lia.
Qed.

Lemma clip_rows_within_window (ws we : Z) (meta : list RawMeta) :
  Forall (within_window ws we) (clip_rows ws we meta).
Proof.
  induction meta as [|r meta IH]; simpl; [constructor|].
  destruct (clip_row ws we r) eqn:E; [|exact IH].
  constructor; [eapply clip_row_within_window; eassumption | exact IH].
Qed.

Lemma truncate_fields (r : Segment) (later : list Segment) :
  station (truncate r later) = station r /\
  seg_start (truncate r later) = seg_start r /\
  seg_end (truncate r later) <= seg_end r.
Proof.
  unfold truncate. destruct (next_start r later) as [ns|]; [|simpl; lia].
  destruct (Z.geb_spec (seg_end r) ns); simpl; lia.
Qed.

Lemma resolve_overlaps_nth (l : list Segment) (i : nat) :
  nth_error (resolve_overlaps l) i =
  option_map (fun r => truncate r (skipn (S i) l)) (nth_error l i).
Proof.
  revert i; induction l as [|r l IH]; intros [|i]; simpl; try reflexivity.
  rewrite IH. destruct l; reflexivity.
Qed.

Lemma resolve_overlaps_length (l : list Segment) :
  List.length (resolve_overlaps l) = List.length l.
Proof. induction l; simpl; congruence. Qed.

Lemma resolve_overlaps_within_window (ws we : Z) (l : list Segment) :
  Forall (within_window ws we) l -> Forall (within_window ws we) (resolve_overlaps l).
Proof.
  induction 1 as [|r l [H1 H2] _ IH]; simpl; constructor; [|exact IH].
  destruct (truncate_fields r l) as (_ & Hs & He).
  unfold within_window. lia.
Qed.

(** In a sorted frame, the first later row of the same station starts no
    later than any other later row of that station. *)
Lemma next_start_least (r : Segment) (later : list Segment) :
  StronglySorted (fun a b => key_leb a b = true) later ->
  forall m, In m later -> station m = station r ->
  exists ns, next_start r later = Some ns /\ ns <= seg_start m.
Proof.
  unfold next_start.
  induction 1 as [|x l Hs IH Hx]; intros m Hm Est; [contradiction|].
  simpl. destruct (Z.eqb_spec (station x) (station r)) as [E|E].
  - exists (seg_start x). split; [reflexivity|].
    destruct Hm as [->|Hm]; [lia|].
    rewrite Forall_forall in Hx. specialize (Hx m Hm).
    apply key_leb_spec in Hx. lia.
  - destruct Hm as [->|Hm]; [contradiction|]. eauto.
Qed.

Lemma truncate_before (r : Segment) (later : list Segment) :
  StronglySorted (fun a b => key_leb a b = true) later ->
  forall m, In m later -> station m = station r ->
  seg_end (truncate r later) < seg_start m.
Proof.
  intros Hs m Hm Est.
  destruct (next_start_least r Hs m Hm Est) as (ns & Hns & Hle).
  unfold truncate. rewrite Hns.
  destruct (Z.geb_spec (seg_end r) ns); simpl; lia.
Qed.

Lemma resolve_overlaps_In (l : list Segment) (m' : Segment) :
  In m' (resolve_overlaps l) ->
  exists m, In m l /\ station m' = station m /\ seg_start m' = seg_start m.
Proof.
  induction l as [|r l IH]; simpl; [contradiction|].
  intros [<-|H].
  - exists r. destruct (truncate_fields r l) as (H1 & H2 & _). auto.
  - destruct (IH H) as (m & Hm & E). exists m. auto.
Qed.

Lemma resolve_overlaps_before (l : list Segment) :
  StronglySorted (fun a b => key_leb a b = true) l ->
  StronglySorted before (resolve_overlaps l).
Proof.
  induction 1 as [|r l Hs IH Hr]; simpl; constructor; [exact IH|].
  apply Forall_forall. intros m' Hm' Est.
  destruct (resolve_overlaps_In _ _ Hm') as (m & Hm & E1 & E2).
  destruct (truncate_fields r l) as (F1 & _ & _).
  rewrite E2. apply truncate_before; auto. congruence.
Qed.

(** In a sorted frame a row whose successor belongs to another station is
    the last row of its station. *)
Lemma next_start_none (r x : Segment) (later : list Segment) :
  StronglySorted (fun a b => key_leb a b = true) (r :: x :: later) ->
  station r <> station x ->
  next_start r (x :: later) = None.
Proof.
  intros Hs Hne. unfold next_start.
  destruct (find _ _) as [m|] eqn:F; [|reflexivity].
  apply find_some in F. destruct F as [Hm E]. apply Z.eqb_eq in E.
  inversion Hs as [|? ? Hs' Hr]; subst.
  inversion Hs' as [|? ? _ Hx]; subst.
  rewrite Forall_forall in Hr, Hx.
  assert (Hrx : key_leb r x = true) by (apply Hr; now left).
  apply key_leb_spec in Hrx.
  destruct Hm as [->|Hm]; [congruence|].
  specialize (Hx m Hm). apply key_leb_spec in Hx. lia.
Qed.

Lemma StronglySorted_skipn (R : Segment -> Segment -> Prop)
      (l : list Segment) (n : nat) :
  StronglySorted R l -> StronglySorted R (skipn n l).
Proof.
  intro H. revert n. induction H as [|x l Hs IH Hx]; intros [|n]; simpl;
    try constructor; auto.
Qed.

Lemma skipn_nth_cons (l : list Segment) (i : nat) (a : Segment) :
  nth_error l i = Some a -> skipn i l = a :: skipn (S i) l.
Proof.
  revert i; induction l as [|x l IH]; intros [|i] H; simpl in *;
    try discriminate.
  - now injection H as ->.
  - rewrite (IH i H). destruct l; reflexivity.
Qed.
End MetaFacts.

(** C3.  After [prepare_meta], for whatever metadata and window: every
    segment lies within the window; of two segments of one station the
    earlier-sorted one ends before the later one starts, so no day is
    covered by both; and the output is the sorted frame, row by row, where
    a row followed by a row of the same station with
    [seg_end >= next seg_start] has its [seg_end] set to exactly
    [next seg_start - 1], every other row is unchanged, and no [seg_start]
    (so never the later segment) is touched. *)
Theorem prepare_meta_disjoint_truncated :
  forall (meta : list Meta.RawMeta) (window_start window_end : Z),
    let sorted := Meta.sorted_segments window_start window_end meta in
    let out := Meta.prepare_meta meta window_start window_end in
    Forall (Meta.within_window window_start window_end) out
    /\ (forall i j a b,
          (i < j)%nat -> nth_error out i = Some a -> nth_error out j = Some b ->
          Meta.station a = Meta.station b ->
          (Meta.seg_end a < Meta.seg_start b)%Z
          /\ forall day, ~ (Meta.covers a day /\ Meta.covers b day))
    /\ List.length out = List.length sorted
    /\ (forall i a b,
          nth_error sorted i = Some a -> nth_error sorted (S i) = Some b ->
          Meta.station a = Meta.station b ->
          nth_error out i =
          Some (if (Meta.seg_end a >=? Meta.seg_start b)%Z
                then Meta.set_seg_end a (Meta.seg_start b - 1)
                else a))
    /\ (forall i a,
          nth_error sorted i = Some a ->
          (forall b, nth_error sorted (S i) = Some b ->
                     Meta.station a <> Meta.station b) ->
          nth_error out i = Some a)
    /\ (forall i a,
          nth_error sorted i = Some a ->
          exists a', nth_error out i = Some a'
                     /\ Meta.station a' = Meta.station a
                     /\ Meta.seg_start a' = Meta.seg_start a
                     /\ (Meta.seg_end a' <= Meta.seg_end a)%Z).
Proof.
  intros meta ws we sorted out.
  assert (Hs : StronglySorted (fun a b => Meta.key_leb a b = true) sorted)
    by apply sorted_segments_sorted.
  unfold out, Meta.prepare_meta. fold sorted.
  split.
  { apply resolve_overlaps_within_window.
    apply sort_values_Forall, clip_rows_within_window. }
  split.
  { intros i j a b Hij Hi Hj Est.
    assert (Hb : Meta.before a b).
    { eapply StronglySorted_nth;
        [apply resolve_overlaps_before; exact Hs | exact Hij | exact Hi | exact Hj]. }
    specialize (Hb Est). split; [exact Hb|].
    unfold Meta.covers. intros day. lia. }
  split; [apply resolve_overlaps_length|].
  split.
  { intros i a b Hi Hj Est.
    rewrite resolve_overlaps_nth, Hi. cbn [option_map].
    rewrite (skipn_nth_cons _ _ Hj).
    unfold Meta.truncate, Meta.next_start. cbn [find].
    rewrite Est, Z.eqb_refl. reflexivity. }
  split.
  { intros i a Hi Hnext.
    rewrite resolve_overlaps_nth, Hi. cbn [option_map]. f_equal.
    destruct (nth_error sorted (S i)) as [b|] eqn:Hj.
    - rewrite (skipn_nth_cons _ _ Hj).
      unfold Meta.truncate.
      rewrite (@next_start_none a b (skipn (S (S i)) sorted)); [reflexivity| |auto].
      rewrite <- (skipn_nth_cons _ _ Hj), <- (skipn_nth_cons _ _ Hi).
      now apply StronglySorted_skipn.
    - apply nth_error_None in Hj.
      rewrite skipn_all2 by exact Hj. reflexivity. }
  intros i a Hi.
  rewrite resolve_overlaps_nth, Hi. cbn [option_map].
  eexists. split; [reflexivity|]. apply truncate_fields.
Qed.

(** Two segments of one station that both start at the window start: after
    resolution the earlier-sorted one ends the day before the window
    starts; it covers no day. *)
Example prepare_meta_same_start :
  Meta.prepare_meta
    [Meta.mkRawMeta (Some 7%Z) "A" (Some 50%Z) (Some 120%Z) (Some 0%R) (Some 0%R);
     Meta.mkRawMeta (Some 7%Z) "B" (Some 80%Z) (Some 150%Z) (Some 0%R) (Some 0%R)]
    100 200
  = [Meta.mkSegment 7 "A" 100 99 0%R 0%R; Meta.mkSegment 7 "B" 100 150 0%R 0%R].
Proof. reflexivity. Qed.

(* ================================================================== *)
(** * Segment attacher *)
(* ================================================================== *)

Section AttachFacts.
Import Meta Attach.
Local Open Scope Z_scope.

Lemma merge_row_In (meta : list Segment) (o o' : Obs) (s : Segment) :
  In (o', Some s) (merge_row meta o) <->
  o' = o /\ In s meta /\ station s = obs_station o.
Proof.
  unfold merge_row.
  destruct (filter _ meta) as [|m ms] eqn:F.
  - split.
    + intros [H|[]]; discriminate.
    + intros (_ & Hs & E).
      assert (In s []) as [].
      rewrite <- F. apply filter_In. split; [exact Hs | now apply Z.eqb_eq].
  - rewrite in_map_iff. rewrite <- F. split.
    + intros (x & [= <- <-] & Hx). apply filter_In in Hx.
      destruct Hx as [Hx E]. apply Z.eqb_eq in E. auto.
    + intros (-> & Hs & E). exists s. split; [reflexivity|].
      apply filter_In. split; [exact Hs | now apply Z.eqb_eq].
Qed.

Lemma merge_left_In (sun : list Obs) (meta : list Segment)
      (o : Obs) (s : Segment) :
  In (o, Some s) (merge_left sun meta) <->
  In o sun /\ In s meta /\ station s = obs_station o.
Proof.
  unfold merge_left. rewrite in_flat_map. split.
  - intros (x & Hx & H). apply merge_row_In in H.
    destruct H as (-> & Hs & E). auto.
  - intros (Ho & Hs & E). exists o. split; [exact Ho|].
    apply merge_row_In. auto.
Qed.

Lemma loc_in_seg_In (m : list Merged) (c : Candidate) :
  In c (loc_in_seg m) <->
  In (cand_obs c, Some (cand_seg c)) m /\
  seg_start (cand_seg c) <= obs_date (cand_obs c) <= seg_end (cand_seg c).
Proof.
  induction m as [|[o sg] m IH]; simpl; [tauto|].
  destruct sg as [s|]; unfold in_seg; simpl.
  - destruct (Z.geb_spec (obs_date o) (seg_start s)),
             (Z.leb_spec (obs_date o) (seg_end s)); simpl; rewrite IH.
    + split.
      * intros [<-|[H1 H2]]; simpl; [|tauto]. split; [now left | lia].
      * intros [[[= -> ->]|H1] H2]; [left; now destruct c | tauto].
    + split; [tauto|]. intros [[[= -> ->]|H1] H2]; [lia|tauto].
    + split; [tauto|]. intros [[[= -> ->]|H1] H2]; [lia|tauto].
    + split; [tauto|]. intros [[[= -> ->]|H1] H2]; [lia|tauto].
  - rewrite IH. split; [tauto|]. intros [[H|H] H2]; [discriminate|tauto].
Qed.

(** The rows that survive the merge and the interval filter. *)
Lemma candidates_In (sun : list Obs) (meta : list Segment) (c : Candidate) :
  In c (loc_in_seg (merge_left sun meta)) <->
  In (cand_obs c) sun /\ In (cand_seg c) meta /\
  matches (cand_obs c) (cand_seg c).
Proof.
  rewrite loc_in_seg_In, merge_left_In. unfold matches. tauto.
Qed.

Lemma sort_leb_spec (a b : Candidate) :
  sort_leb a b = true <->
  obs_station (cand_obs a) < obs_station (cand_obs b) \/
  (obs_station (cand_obs a) = obs_station (cand_obs b) /\
   (obs_date (cand_obs a) < obs_date (cand_obs b) \/
    (obs_date (cand_obs a) = obs_date (cand_obs b) /\
     seg_start (cand_seg a) >= seg_start (cand_seg b)))).
Proof.
  unfold sort_leb. cbv zeta.
  rewrite orb_true_iff, andb_true_iff, orb_true_iff, andb_true_iff.
  rewrite !Z.ltb_lt, !Z.eqb_eq, Z.geb_le. split; intros; lia.
Qed.

Lemma sort_leb_total (a b : Candidate) :
  sort_leb a b = true \/ sort_leb b a = true.
Proof. rewrite !sort_leb_spec. lia. Qed.

Lemma sort_leb_trans (a b c : Candidate) :
  sort_leb a b = true -> sort_leb b c = true -> sort_leb a c = true.
Proof. rewrite !sort_leb_spec. lia. Qed.

Lemma same_station_day_spec (a b : Candidate) :
  same_station_day a b = true <-> station_day a = station_day b.
Proof.
  unfold same_station_day, station_day.
  rewrite andb_true_iff, !Z.eqb_eq. split; [intros [-> ->]; reflexivity|].
  intros [= -> ->]. auto.
Qed.

Lemma same_station_day_refl (a : Candidate) : same_station_day a a = true.
Proof. now apply same_station_day_spec. Qed.

Lemma same_station_day_sym (a b : Candidate) :
  same_station_day a b = same_station_day b a.
Proof.
  unfold same_station_day.
  now rewrite (Z.eqb_sym (obs_station _)), (Z.eqb_sym (obs_date _)).
Qed.

Lemma same_station_day_trans (a b c : Candidate) :
  same_station_day a b = true -> same_station_day b c = true ->
  same_station_day a c = true.
Proof. rewrite !same_station_day_spec. congruence. Qed.

Lemma attach_In (sun : list Obs) (meta : list Segment) (c : Candidate) :
  In c (attach_segment_to_sun sun meta) ->
  In (cand_obs c) sun /\ In (cand_seg c) meta /\
  matches (cand_obs c) (cand_seg c).
Proof.
  intro H. apply drop_duplicates_In, sort_values_In in H.
  now apply candidates_In.
Qed.

(** Every station-day with a matching segment keeps one row. *)
Lemma attach_keeps (sun : list Obs) (meta : list Segment)
      (o : Obs) (s : Segment) :
  In o sun -> In s meta -> matches o s ->
  exists c, In c (attach_segment_to_sun sun meta) /\
            station_day c = (obs_station o, obs_date o).
Proof.
  intros Ho Hs Hm.
  assert (Hc : In (mkCandidate o s)
                  (Frame.sort_values sort_leb (loc_in_seg (merge_left sun meta)))).
  { apply sort_values_In, candidates_In. simpl. auto. }
  destruct (drop_duplicates_first same_station_day same_station_day_refl
              same_station_day_trans _ _ Hc) as (pre & y & post & _ & E & _ & Hy).
  exists y. split; [exact Hy|].
  apply same_station_day_spec in E. now rewrite <- E.
Qed.

(** The row kept for a station-day carries the matching segment with the
    latest [seg_start]. *)
Lemma attach_latest (sun : list Obs) (meta : list Segment)
      (c : Candidate) (s : Segment) :
  In c (attach_segment_to_sun sun meta) ->
  In s meta -> matches (cand_obs c) s ->
  seg_start s <= seg_start (cand_seg c).
Proof.
  intros Hc Hs Hm.
  set (l := Frame.sort_values sort_leb (loc_in_seg (merge_left sun meta))).
  set (c' := mkCandidate (cand_obs c) s).
  assert (Hc' : In c' l).
  { apply sort_values_In, candidates_In. simpl.
    split; [|auto]. now apply attach_In in Hc. }
  assert (E : same_station_day c' c = true) by now apply same_station_day_spec.
  destruct (drop_duplicates_kept_first same_station_day same_station_day_refl
              same_station_day_trans same_station_day_sym l c' c Hc' Hc E)
    as (pre & post & Hl & Hpre).
  assert (Hsorted : StronglySorted (Frame.le sort_leb) l)
    by apply (sort_values_sorted sort_leb sort_leb_total sort_leb_trans).
  rewrite Hl in Hc', Hsorted.
  apply in_app_or in Hc'. destruct Hc' as [Hin|[Heq|Hin]].
  - rewrite Forall_forall in Hpre. specialize (Hpre c' Hin).
    rewrite same_station_day_refl in Hpre. discriminate.
  - rewrite Heq. simpl. lia.
  - clear Hl. induction pre as [|p pre IH].
    + simpl in Hsorted. inversion Hsorted as [|? ? _ Hall]; subst.
      rewrite Forall_forall in Hall. specialize (Hall c' Hin).
      apply sort_leb_spec in Hall. simpl in Hall. lia.
    + apply IH.
      * now inversion Hpre.
      * now inversion Hsorted.
Qed.
End AttachFacts.

(** C5.  [attach_segment_to_sun] joins by station id and keeps only pairs
    with [seg_start <= date <= seg_end]: every row returned pairs an
    observation of the input with a segment of the metadata that matches
    it; the segment kept is the matching one with the latest [seg_start];
    an observation with no matching segment is in no row returned; and a
    station-day that has a matching segment keeps a row (the observation
    itself when it is the only one of its station-day). *)
Theorem attach_segment_to_sun_joins_latest :
  forall (sun : list Attach.Obs) (meta : list Meta.Segment),
    let out := Attach.attach_segment_to_sun sun meta in
    (forall c, In c out ->
       In (Attach.cand_obs c) sun /\ In (Attach.cand_seg c) meta
       /\ Attach.matches (Attach.cand_obs c) (Attach.cand_seg c))
    /\ (forall c s, In c out -> In s meta ->
          Attach.matches (Attach.cand_obs c) s ->
          (Meta.seg_start s <= Meta.seg_start (Attach.cand_seg c))%Z)
    /\ (forall o, In o sun ->
          (forall s, In s meta -> ~ Attach.matches o s) ->
          forall c, In c out -> Attach.cand_obs c <> o)
    /\ (forall o s, In o sun -> In s meta -> Attach.matches o s ->
          exists c, In c out
            /\ Attach.station_day c = (Attach.obs_station o, Attach.obs_date o)
            /\ ((forall o', In o' sun ->
                   Attach.obs_station o' = Attach.obs_station o ->
                   Attach.obs_date o' = Attach.obs_date o -> o' = o) ->
                Attach.cand_obs c = o)).
Proof.
  intros sun meta out. unfold out.
  split; [intros c; apply attach_In|].
  split; [intros c s; apply attach_latest|].
  split.
  - intros o Ho Hnone c Hc E. apply attach_In in Hc.
    destruct Hc as (_ & Hs & Hm). rewrite E in Hm. exact (Hnone _ Hs Hm).
  - intros o s Ho Hs Hm.
    destruct (@attach_keeps sun meta o s Ho Hs Hm) as (c & Hc & E).
    exists c. split; [exact Hc|]. split; [exact E|].
    intros Huniq. injection E as E1 E2.
    apply Huniq; [now apply attach_In in Hc | exact E1 | exact E2].
Qed.

Lemma StronglySorted_NoDup_map (A K : Type) (key : A -> K) (l : list A) :
  StronglySorted (fun a b => key a <> key b) l -> NoDup (map key l).
Proof.
  induction 1 as [|x l Hs IH Hx]; simpl; constructor; [|exact IH].
  rewrite in_map_iff. intros (y & E & Hy).
  rewrite Forall_forall in Hx. exact (Hx y Hy (eq_sym E)).
Qed.

Lemma attach_distinct_keys (sun : list Attach.Obs) (meta : list Meta.Segment) :
  StronglySorted (fun a b => Attach.station_day a <> Attach.station_day b)
                 (Attach.attach_segment_to_sun sun meta).
Proof.
  unfold Attach.attach_segment_to_sun, Frame.drop_duplicates.
  eapply StronglySorted_weaken;
    [|apply drop_duplicates_from_distinct].
  intros a b F E. simpl in F.
  assert (Attach.same_station_day b a = true)
    by now apply same_station_day_spec.
  congruence.
Qed.

Lemma StronglySorted_map (A B : Type) (f : A -> B) (R : B -> B -> Prop)
      (l : list A) :
  StronglySorted (fun a b => R (f a) (f b)) l -> StronglySorted R (map f l).
Proof.
  induction 1 as [|x l Hs IH Hx]; simpl; constructor; [exact IH|].
  apply Forall_map. exact Hx.
Qed.

Lemma StronglySorted_filter (A : Type) (f : A -> bool) (R : A -> A -> Prop)
      (l : list A) :
  StronglySorted R l ->
  StronglySorted (fun a b => R a b /\ f a = true /\ f b = true) (filter f l).
Proof.
  induction 1 as [|x l Hs IH Hx]; simpl; [constructor|].
  destruct (f x) eqn:E; [|exact IH].
  constructor; [exact IH|].
  apply Forall_forall. intros y Hy. apply filter_In in Hy.
  rewrite Forall_forall in Hx. destruct Hy as [Hy Fy]. auto.
Qed.

(** C10.  After [attach_segment_to_sun] no two rows have the same
    (station id, date), whatever duplicates the observations or the
    metadata hold; so in the group of any day handed to the nearest
    computation every station id occurs at most once. *)
Theorem attach_segment_to_sun_station_day_once :
  forall (sun : list Attach.Obs) (meta : list Meta.Segment),
    NoDup (map Attach.station_day (Attach.attach_segment_to_sun sun meta))
    /\ forall (to_utmK : R -> R -> R * R) (day : Z),
         NoDup (map Pipeline.sun_station
                  (Pipeline.day_group day
                     (Pipeline.add_utmK to_utmK
                        (Attach.attach_segment_to_sun sun meta)))).
Proof.
  intros sun meta. split.
  - apply StronglySorted_NoDup_map, attach_distinct_keys.
  - intros to_utmK day. apply StronglySorted_NoDup_map.
    unfold Pipeline.day_group, Pipeline.add_utmK.
    eapply StronglySorted_weaken;
      [|apply StronglySorted_filter,
          (StronglySorted_map _
             (fun a b => Attach.station_day (Pipeline.cand a)
                         <> Attach.station_day (Pipeline.cand b)));
        apply (attach_distinct_keys sun meta)].
    intros a b (Hne & Ha & Hb) E. apply Hne.
    apply Z.eqb_eq in Ha, Hb.
    unfold Pipeline.sun_station, Pipeline.sun_date in *.
    unfold Attach.station_day. simpl. congruence.
Qed.

(** Two rows of one station-day with different measurements and two
    overlapping segments: one row is kept, with the later segment. *)
Example attach_duplicates :
  Attach.attach_segment_to_sun
    [Attach.mkObs 7 "A" 10 (Some 1%R); Attach.mkObs 7 "A" 10 (Some 2%R)]
    [Meta.mkSegment 7 "A" 0 20 0%R 0%R; Meta.mkSegment 7 "A" 5 30 1%R 1%R]
  = [Attach.mkCandidate (Attach.mkObs 7 "A" 10 (Some 1%R))
                        (Meta.mkSegment 7 "A" 5 30 1%R 1%R)].
Proof. reflexivity. Qed.

(* ================================================================== *)
(** * Daily nearest-neighbour assigner *)
(* ================================================================== *)

Section NearestFacts.
Import Nearest.
Local Open Scope R_scope.

Lemma Rltb_spec (x y : R) : Rltb x y = true <-> x < y.
Proof.
  unfold Rltb. destruct (Rlt_dec x y); split; intro; auto; discriminate.
Qed.

Lemma Rltb_false (x y : R) : Rltb x y = false <-> y <= x.
Proof.
  unfold Rltb. destruct (Rlt_dec x y); split; intro; auto; try discriminate; lra.
Qed.

(** The scan keeps the running minimum, or moves to the first entry of
    the rest that is strictly below it and is a minimum of the rest. *)
Lemma argmin_from_spec (rest : list R) :
  forall (best_i : nat) (best : R) (i : nat),
    let k := argmin_from best_i best i rest in
    (k = best_i /\ Forall (fun x => best <= x) rest)
    \/ ((i <= k < i + List.length rest)%nat
        /\ nth (k - i) rest 0 < best
        /\ (forall j, (j < List.length rest)%nat ->
                      nth (k - i) rest 0 <= nth j rest 0)
        /\ (forall j, (j < k - i)%nat ->
                      nth (k - i) rest 0 < nth j rest 0)).
Proof.
  induction rest as [|x rest IH]; intros best_i best i; simpl.
  - left. split; [reflexivity | constructor].
  - destruct (Rltb x best) eqn:E.
    + apply Rltb_spec in E. right.
      destruct (IH i x (S i)) as [[Hk Hall] | (Hk & Hlt & Hmin & Hfirst)].
      * rewrite Hk. replace (i - i)%nat with 0%nat by lia.
        split; [lia|]. split; [exact E|]. split.
        -- intros [|j] Hj; [lra|]. rewrite Forall_forall in Hall.
           apply Hall, nth_In. lia.
        -- intros j Hj. lia.
      * set (k := argmin_from i x (S i) rest) in *.
        replace (k - i)%nat with (S (k - S i)) by lia.
        split; [lia|]. split; [simpl; lra|]. split.
        -- intros [|j] Hj; simpl; [lra|]. apply Hmin. lia.
        -- intros [|j] Hj; simpl; [lra|]. apply Hfirst. lia.
    + apply Rltb_false in E.
      destruct (IH best_i best (S i)) as [[Hk Hall] | (Hk & Hlt & Hmin & Hfirst)].
      * left. split; [exact Hk|]. constructor; assumption.
      * right. set (k := argmin_from best_i best (S i) rest) in *.
        replace (k - i)%nat with (S (k - S i)) by lia.
        split; [lia|]. split; [simpl; lra|]. split.
        -- intros [|j] Hj; simpl; [lra|]. apply Hmin. lia.
        -- intros [|j] Hj; simpl; [lra|]. apply Hfirst. lia.
Qed.

(** [argmin] of a non-empty row: the first position of a least entry. *)
Lemma argmin_spec (row : list R) :
  row <> [] ->
  exists k, argmin row = Some k
    /\ (k < List.length row)%nat
    /\ (forall j, (j < List.length row)%nat -> nth k row 0 <= nth j row 0)
    /\ (forall j, (j < k)%nat -> nth k row 0 < nth j row 0).
Proof.
  destruct row as [|x rest]; [congruence|]. intros _.
  simpl argmin. eexists. split; [reflexivity|].
  destruct (argmin_from_spec rest 0 x 1) as [[Hk Hall] | (Hk & Hlt & Hmin & Hfirst)].
  - rewrite Hk. simpl. split; [lia|]. split.
    + intros [|j] Hj; [lra|]. rewrite Forall_forall in Hall.
      apply Hall, nth_In. lia.
    + intros j Hj. lia.
  - set (k := argmin_from 0 x 1 rest) in *.
    destruct k as [|k]; [lia|].
    replace (S k - 1)%nat with k in * by lia.
    simpl. split; [lia|]. split.
    + intros [|j] Hj; [lra|]. apply Hmin. lia.
    + intros [|j] Hj; [lra|]. apply Hfirst. lia.
Qed.

Lemma argmin_rows_spec (dist : list (list R)) :
  Forall (fun row => row <> []) dist ->
  exists idx, argmin_rows dist = Some idx
    /\ List.length idx = List.length dist
    /\ forall i row, nth_error dist i = Some row ->
         exists k, nth_error idx i = Some k /\ argmin row = Some k.
Proof.
  induction 1 as [|row dist Hrow _ IH]; simpl.
  - exists []. split; [reflexivity|]. split; [reflexivity|].
    intros [|i] row H; discriminate.
  - destruct (argmin_spec Hrow) as (k & Hk & _).
    destruct IH as (idx & -> & Hlen & Hnth). rewrite Hk.
    exists (k :: idx). split; [reflexivity|]. split; [simpl; congruence|].
    intros [|i] row' H; simpl in *.
    + injection H as <-. eauto.
    + eauto.
Qed.

Lemma take_along_nth (dist : list (list R)) (idx : list nat) (i k : nat)
      (row : list R) :
  nth_error dist i = Some row -> nth_error idx i = Some k ->
  nth_error (take_along dist idx) i = Some (nth k row 0).
Proof.
  unfold take_along. revert idx i.
  induction dist as [|r dist IH]; intros [|x idx] [|i] Hd Hi; simpl in *;
    try discriminate.
  - injection Hd as <-. injection Hi as <-. reflexivity.
  - now apply IH.
Qed.

Lemma take_along_length (dist : list (list R)) (idx : list nat) :
  List.length idx = List.length dist ->
  List.length (take_along dist idx) = List.length dist.
Proof.
  intro H. unfold take_along.
  rewrite length_map, length_combine. lia.
Qed.

(** The entries of the distance matrix. *)
Lemma dist_matrix_nth (rx ry stx sty : list R) (i : nat) (x y : R) :
  nth_error rx i = Some x -> nth_error ry i = Some y ->
  nth_error (dist_matrix rx ry stx sty) i =
  Some (map (fun s => hypot (x - fst s) (y - snd s)) (combine stx sty)).
Proof.
  intros Hx Hy. unfold dist_matrix.
  rewrite nth_error_map.
  assert (H : nth_error (combine rx ry) i = Some (x, y)).
  { revert ry i Hx Hy. induction rx as [|a rx IH]; intros [|b ry] [|i] Hx Hy;
      simpl in *; try discriminate.
    - now injection Hx as <-; injection Hy as <-.
    - now apply IH. }
  now rewrite H.
Qed.

Lemma dist_row_nth (stx sty : list R) (x y : R) (j : nat) :
  List.length stx = List.length sty -> (j < List.length stx)%nat ->
  nth j (map (fun s => hypot (x - fst s) (y - snd s)) (combine stx sty)) 0
  = hypot (x - nth j stx 0) (y - nth j sty 0).
Proof.
  intros Hlen Hj.
  rewrite (nth_indep _ 0 (hypot (x - fst (0, 0)) (y - snd (0, 0))))
    by (rewrite length_map, length_combine; lia).
  rewrite (map_nth (fun s => hypot (x - fst s) (y - snd s))).
  rewrite combine_nth by exact Hlen. reflexivity.
Qed.
End NearestFacts.

(** With a candidate, [nearest_station_for_day] returns the row-wise
    [argmin] of the distance matrix and the entries it points at. *)
Lemma nearest_station_for_day_rows (rx ry stx sty : list R) :
  List.length rx = List.length ry ->
  List.length stx = List.length sty ->
  stx <> [] ->
  let dist := Nearest.dist_matrix rx ry stx sty in
  exists idx,
    Nearest.nearest_station_for_day rx ry stx sty
    = inr (idx, Nearest.take_along dist idx)
    /\ List.length idx = List.length rx
    /\ List.length dist = List.length rx
    /\ Forall (fun row => row <> []) dist
    /\ forall i row, nth_error dist i = Some row ->
         exists k, nth_error idx i = Some k /\ Nearest.argmin row = Some k.
Proof.
  intros Hr Hs Hne dist.
  unfold Nearest.nearest_station_for_day.
  rewrite Hr, Hs, !Nat.eqb_refl. simpl negb. cbv iota.
  destruct stx as [|sx stx']; [congruence|].
  fold dist.
  assert (Hrows : Forall (fun row => row <> []) dist).
  { unfold dist, Nearest.dist_matrix. apply Forall_map, Forall_forall.
    intros r _. destruct sty as [|sy sty']; [discriminate|].
    simpl. discriminate. }
  destruct (argmin_rows_spec Hrows) as (idx & Hidx & Hlen & Hnth).
  rewrite Hidx.
  assert (Hdl : List.length dist = List.length rx).
  { unfold dist, Nearest.dist_matrix. rewrite length_map, length_combine. lia. }
  exists idx. split; [reflexivity|]. split; [congruence|].
  split; [congruence|]. split; [exact Hrows | exact Hnth].
Qed.

(** C4.  For one day's candidates at planar points [(stx, sty)] (at least
    one) and regions at [(rx, ry)], [nearest_station_for_day] returns for
    every region [i] an index [k] of a candidate whose straight-line
    distance [hypot] to the region's point is least among all candidates,
    the distance returned is that least distance, and every candidate
    listed before [k] is strictly farther: of several candidates at the
    least distance the first is chosen. *)
Theorem nearest_station_for_day_minimum :
  forall (rx ry stx sty : list R),
    List.length rx = List.length ry ->
    List.length stx = List.length sty ->
    stx <> [] ->
    exists idx dist_m,
      Nearest.nearest_station_for_day rx ry stx sty = inr (idx, dist_m)
      /\ List.length idx = List.length rx
      /\ List.length dist_m = List.length rx
      /\ forall i x y,
           nth_error rx i = Some x -> nth_error ry i = Some y ->
           let dist j :=
             Nearest.hypot (x - nth j stx 0%R) (y - nth j sty 0%R) in
           exists k,
             nth_error idx i = Some k
             /\ (k < List.length stx)%nat
             /\ nth_error dist_m i = Some (dist k)
             /\ (forall j, (j < List.length stx)%nat -> (dist k <= dist j)%R)
             /\ (forall j, (j < k)%nat -> (dist k < dist j)%R).
Proof.
  intros rx ry stx sty Hr Hs Hne.
  destruct (@nearest_station_for_day_rows rx ry stx sty Hr Hs Hne)
    as (idx & Hres & Hlen & Hdl & Hrows & Hnth).
  set (dist := Nearest.dist_matrix rx ry stx sty) in *.
  exists idx, (Nearest.take_along dist idx).
  split; [exact Hres|]. split; [exact Hlen|].
  split; [rewrite take_along_length; congruence|].
  intros i x y Hx Hy. cbv zeta.
  pose proof (dist_matrix_nth rx ry stx sty i Hx Hy) as Hrow. fold dist in Hrow.
  destruct (Hnth _ _ Hrow) as (k & Hk & Hmin).
  set (row := map (fun s => Nearest.hypot (x - fst s) (y - snd s))
                  (combine stx sty)) in *.
  assert (Hrow_ne : row <> []).
  { rewrite Forall_forall in Hrows. apply Hrows.
    eapply nth_error_In; eassumption. }
  destruct (argmin_spec Hrow_ne) as (k' & Hk' & Hlt & Hle & Hfirst).
  assert (k' = k) by congruence. subst k'.
  assert (Hrl : List.length row = List.length stx).
  { unfold row. rewrite length_map, length_combine. lia. }
  assert (Hval : forall j, (j < List.length stx)%nat ->
            nth j row 0%R
            = Nearest.hypot (x - nth j stx 0%R) (y - nth j sty 0%R)).
  { intros j Hj. unfold row. now apply dist_row_nth. }
  exists k. split; [exact Hk|]. split; [lia|].
  split.
  { rewrite (@take_along_nth dist idx i k row Hrow Hk). f_equal. apply Hval. lia. }
  split.
  - intros j Hj. rewrite <- !Hval by lia. apply Hle. lia.
  - intros j Hj. rewrite <- !Hval by lia. now apply Hfirst.
Qed.

Lemma nearest_station_for_day_minimum_witness :
  exists idx dist_m,
    Nearest.nearest_station_for_day [0%R; 10%R] [0%R; 0%R]
                                    [3%R; 0%R; 0%R] [4%R; 5%R; (-5)%R]
    = inr (idx, dist_m)
    /\ List.length idx = 2%nat
    /\ List.length dist_m = 2%nat
    /\ forall i x y,
         nth_error [0%R; 10%R] i = Some x -> nth_error [0%R; 0%R] i = Some y ->
         let dist j :=
           Nearest.hypot (x - nth j [3%R; 0%R; 0%R] 0%R)
                         (y - nth j [4%R; 5%R; (-5)%R] 0%R) in
         exists k,
           nth_error idx i = Some k
           /\ (k < 3)%nat
           /\ nth_error dist_m i = Some (dist k)
           /\ (forall j, (j < 3)%nat -> (dist k <= dist j)%R)
           /\ (forall j, (j < k)%nat -> (dist k < dist j)%R).
Proof.
  apply (@nearest_station_for_day_minimum
           [0%R; 10%R] [0%R; 0%R] [3%R; 0%R; 0%R] [4%R; 5%R; (-5)%R]).
  - reflexivity.
  - reflexivity.
  - discriminate.
Defined.

(* ================================================================== *)
(** * Interval compressor *)
(* ================================================================== *)

Section StringOrder.
Local Open Scope string_scope.

Lemma string_ltb_lt (a b : string) :
  String.ltb a b = true <-> String_as_OT.lt a b.
Proof.
  unfold String.ltb. rewrite <- String_as_OT.cmp_lt.
  unfold String_as_OT.cmp. destruct (String.compare a b); split; congruence.
Qed.

Lemma string_lt_irrefl (a : string) : ~ String_as_OT.lt a a.
Proof. intro H. exact (@String_as_OT.lt_not_eq a a H eq_refl). Qed.

Lemma string_trichotomy (a b : string) :
  String_as_OT.lt a b \/ a = b \/ String_as_OT.lt b a.
Proof.
  destruct (String.compare a b) eqn:E.
  - right; left. now apply String.compare_eq_iff.
  - left. now apply String_as_OT.cmp_lt.
  - right; right. apply String_as_OT.cmp_lt. unfold String_as_OT.cmp.
    rewrite String.compare_antisym, E. reflexivity.
Qed.

Lemma string_leb_le (a b : string) :
  String.leb a b = true <-> String_as_OT.lt a b \/ a = b.
Proof.
  unfold String.leb. destruct (String.compare a b) eqn:E.
  - apply String.compare_eq_iff in E. tauto.
  - apply String_as_OT.cmp_lt in E. tauto.
  - split; [discriminate|]. intros [H|H].
    + apply String_as_OT.cmp_lt in H. unfold String_as_OT.cmp in H. congruence.
    + subst. assert (String.compare b b = Eq) by now apply String_as_OT.cmp_eq.
      congruence.
Qed.
End StringOrder.

Section IntervalFacts.
Import Intervals.
Local Open Scope Z_scope.

Lemma area_date_leb_spec (a b : Row) :
  area_date_leb a b = true <->
  String_as_OT.lt (resid_area a) (resid_area b)
  \/ (resid_area a = resid_area b /\ date a <= date b).
Proof.
  unfold area_date_leb.
  rewrite orb_true_iff, andb_true_iff, string_ltb_lt, String.eqb_eq, Z.leb_le.
  tauto.
Qed.

Lemma area_date_leb_total (a b : Row) :
  area_date_leb a b = true \/ area_date_leb b a = true.
Proof.
  rewrite !area_date_leb_spec.
  destruct (string_trichotomy (resid_area a) (resid_area b)) as [H|[H|H]];
    [tauto| |tauto].
  destruct (Z.le_ge_cases (date a) (date b)); [left|right]; right; auto.
Qed.

Lemma area_date_leb_trans (a b c : Row) :
  area_date_leb a b = true -> area_date_leb b c = true ->
  area_date_leb a c = true.
Proof.
  rewrite !area_date_leb_spec.
  intros [H1|[E1 H1]] [H2|[E2 H2]].
  - left. eapply String_as_OT.lt_trans; eassumption.
  - left. now rewrite <- E2.
  - left. now rewrite E1.
  - right. split; [congruence | lia].
Qed.

(** The rows of one region, as the loop sees them, are in date order. *)
Lemma group_chronological (area : string) (region_day : list Row) :
  StronglySorted (fun a b => date a <= date b) (group area region_day).
Proof.
  unfold group, sorted_rows.
  eapply StronglySorted_weaken;
    [|apply StronglySorted_filter,
        (sort_values_sorted area_date_leb area_date_leb_total area_date_leb_trans)].
  intros a b (Hle & Ha & Hb). apply String.eqb_eq in Ha, Hb.
  apply area_date_leb_spec in Hle. destruct Hle as [H|[_ H]]; [|exact H].
  rewrite Ha, Hb in H. now apply string_lt_irrefl in H.
Qed.

(** ... and they are the rows of that region, each as often as in the
    frame. *)
Lemma group_perm (area : string) (region_day : list Row) :
  Permutation (group area region_day)
              (filter (fun r => String.eqb (resid_area r) area) region_day).
Proof.
  unfold group, sorted_rows.
  assert (H : forall (f : Row -> bool) l l', Permutation l l' ->
                Permutation (filter f l) (filter f l')).
  { intros f l l'. induction 1; simpl.
    - constructor.
    - destruct (f x); [constructor|]; assumption.
    - destruct (f x), (f y); try constructor; reflexivity.
    - etransitivity; eassumption. }
  apply H, sort_values_perm.
Qed.

(** [starts] and [ends] hold the bounds of the scan. *)
Lemma where_run_bounds (flags : list bool) (s i : nat) :
  combine (s :: where_from i flags)
          (run_ends (s :: where_from i flags) (i + List.length flags))
  = run_bounds s i flags.
Proof.
  revert s i. induction flags as [|b flags IH]; intros s i.
  - simpl. unfold run_ends. simpl. now rewrite Nat.add_0_r.
  - destruct b; simpl where_from; simpl run_bounds.
    + rewrite <- IH. unfold run_ends. simpl.
      now rewrite Nat.add_succ_r.
    + rewrite <- IH. unfold run_ends. simpl.
      now rewrite Nat.add_succ_r.
Qed.

Lemma neq_flags_cons (prev x : option Z) (rest : list (option Z)) :
  neq_flags prev (x :: rest) = st_neq x prev :: neq_flags x rest.
Proof. reflexivity. Qed.

Lemma neq_flags_length (prev : option Z) (rest : list (option Z)) :
  List.length (neq_flags prev rest) = List.length rest.
Proof.
  unfold neq_flags. rewrite length_map, length_combine. simpl. lia.
Qed.

Lemma starts_ends_run_bounds (x : option Z) (sts : list (option Z)) :
  let starts := np_where (change (x :: sts)) in
  combine starts (run_ends starts (List.length (x :: sts)))
  = run_bounds 0 1 (neq_flags x sts).
Proof.
  cbv zeta. unfold np_where. simpl change. simpl where_from.
  change (map (fun p => st_neq (fst p) (snd p)) (combine sts (x :: sts)))
    with (neq_flags x sts).
  rewrite <- where_run_bounds. rewrite neq_flags_length. reflexivity.
Qed.

Lemma st_neq_false (a b : option Z) :
  st_neq a b = false -> exists v, a = Some v /\ b = Some v.
Proof.
  destruct a as [x|], b as [y|]; simpl; try discriminate.
  intro H. apply negb_false_iff, Z.eqb_eq in H. subst. eauto.
Qed.
End IntervalFacts.

Section RunFacts.
Import Intervals.
Local Open Scope nat_scope.

Lemma skipn_cons_inv (A : Type) (l : list A) (i : nat) (x d : A)
      (rest : list A) :
  skipn i l = x :: rest -> nth i l d = x /\ skipn (S i) l = rest.
Proof.
  revert i. induction l as [|y l IH]; intros [|i] H; simpl in *;
    try discriminate.
  - injection H as -> ->. split; [reflexivity | now destruct rest].
  - destruct (IH i H) as [H1 H2]. split; [exact H1|].
    destruct l; [destruct i; discriminate | exact H2].
Qed.

(** Every pair of the scan bounds a maximal run. *)
Lemma run_bounds_ok (sts : list (option Z)) :
  forall (rest : list (option Z)) (prev : option Z) (s i : nat),
    skipn i sts = rest ->
    i + List.length rest = List.length sts ->
    s < i ->
    nth (i - 1) sts None = prev ->
    (forall j, s <= j < i -> nth j sts None = nth s sts None) ->
    (s = 0 \/ st_neq (nth s sts None) (nth (s - 1) sts None) = true) ->
    Forall (fun se => is_run sts (fst se) (snd se))
           (run_bounds s i (neq_flags prev rest)).
Proof.
  induction rest as [|x rest IH]; intros prev s i Hskip Hlen Hsi Hprev Hrun Hstart.
  - simpl in *. constructor; [|constructor]. simpl.
    unfold is_run. split; [lia|].
    split; [intros j Hj; apply Hrun; lia|].
    split; [exact Hstart|]. left. lia.
  - rewrite neq_flags_cons.
    destruct (skipn_cons_inv _ _ None Hskip) as [Hx Hskip'].
    simpl in Hlen.
    destruct (st_neq x prev) eqn:E; simpl run_bounds.
    + constructor.
      * simpl. unfold is_run. split; [lia|].
        split; [intros j Hj; apply Hrun; lia|].
        split; [exact Hstart|].
        right. replace (S (Nat.pred i)) with i by lia.
        replace (Nat.pred i) with (i - 1) by lia.
        now rewrite Hx, Hprev.
      * apply IH; auto; try lia.
        -- now replace (S i - 1) with i by lia.
        -- intros j Hj. f_equal. lia.
        -- right. now rewrite Hx, Hprev.
    + apply IH; auto; try lia.
      * now replace (S i - 1) with i by lia.
      * intros j Hj. destruct (Nat.eq_dec j i) as [->|Hne].
        -- rewrite Hx. apply st_neq_false in E.
           destruct E as (v & -> & Ev). rewrite <- Ev, <- Hprev.
           apply Hrun. lia.
        -- apply Hrun. lia.
Qed.

Lemma present_app (A : Type) (l1 l2 : list (option A)) :
  present (l1 ++ l2) = present l1 ++ present l2.
Proof.
  induction l1 as [|[x|] l1 IH]; simpl; [reflexivity| |exact IH].
  now rewrite IH.
Qed.

Lemma present_map_Some (A : Type) (l : list A) : present (map Some l) = l.
Proof. induction l as [|x l IH]; simpl; [reflexivity | now rewrite IH]. Qed.

Lemma present_length (A : Type) (l : list (option A)) :
  List.length (present l) <= List.length l.
Proof. induction l as [|[x|] l IH]; simpl; lia. Qed.

(** [n] leading entries that all hold [x]. *)
Lemma present_const (A : Type) (x : option A) (l : list (option A)) (n : nat) :
  n <= List.length l ->
  (forall j, j < n -> nth j l None = x) ->
  present (firstn n l)
  = match x with Some v => repeat v n | None => [] end.
Proof.
  revert l. induction n as [|n IH]; intros l Hn Hall.
  - simpl. now destruct x.
  - destruct l as [|y l]; [simpl in Hn; lia|].
    assert (Hy : y = x) by (apply (Hall 0); lia). subst y.
    simpl firstn. simpl in Hn.
    assert (IH' := IH l ltac:(lia) (fun j Hj => Hall (S j) ltac:(lia))).
    destruct x as [v|]; simpl; now rewrite IH'.
Qed.

Lemma slice_skipn (A : Type) (l : list A) (s i : nat) :
  s <= i -> skipn s l = slice l s i ++ skipn i l.
Proof.
  intro H. unfold slice.
  rewrite <- (firstn_skipn (i - s) (skipn s l)) at 1.
  rewrite skipn_skipn. now replace (i - s + s) with i by lia.
Qed.

Lemma slice_length (A : Type) (l : list A) (s i : nat) :
  s <= i <= List.length l -> List.length (slice l s i) = i - s.
Proof.
  intro H. unfold slice. rewrite length_firstn, length_skipn. lia.
Qed.

Lemma slice_nth (A : Type) (l : list A) (s i j : nat) (d : A) :
  j < i - s -> nth j (slice l s i) d = nth (s + j) l d.
Proof.
  intro H. unfold slice. rewrite nth_firstn.
  destruct (Nat.ltb_spec j (i - s)); [|lia]. apply nth_skipn.
Qed.

Lemma slice_In (A : Type) (l : list A) (s i : nat) (x : A) :
  In x (slice l s i) -> In x l.
Proof.
  unfold slice. intro H.
  assert (H1 : In x (skipn s l)).
  { rewrite <- (firstn_skipn (i - s) (skipn s l)). apply in_or_app. now left. }
  rewrite <- (firstn_skipn s l). apply in_or_app. now right.
Qed.

Lemma slice_map (A B : Type) (f : A -> B) (l : list A) (s i : nat) :
  slice (map f l) s i = map f (slice l s i).
Proof. unfold slice. now rewrite skipn_map, firstn_map. Qed.

Variables (code area : string) (g : list Row).

(** One turn of the loop emits the present station ids of its run. *)
Lemma emit_expand (s e : nat) :
  is_run (map st g) s e ->
  flat_map expand (emit code area g (s, e))
  = present (slice (map st g) s (S e)).
Proof.
  intros (Hse & Heq & _ & _). unfold emit, slice.
  rewrite (@present_const Z (nth s (map st g) None)).
  - destruct (nth s (map st g) None) as [v|]; [|reflexivity].
    cbn [flat_map]. rewrite app_nil_r.
    unfold expand. cbn [n_days station_id]. f_equal. lia.
  - rewrite length_skipn. lia.
  - intros j Hj. rewrite nth_skipn. apply Heq. lia.
Qed.

Lemma run_bounds_expand :
  forall (rest : list (option Z)) (prev : option Z) (s i : nat),
    skipn i (map st g) = rest ->
    i + List.length rest = List.length (map st g) ->
    s < i ->
    nth (i - 1) (map st g) None = prev ->
    (forall j, s <= j < i -> nth j (map st g) None = nth s (map st g) None) ->
    (s = 0 \/ st_neq (nth s (map st g) None) (nth (s - 1) (map st g) None) = true) ->
    flat_map expand
      (flat_map (emit code area g) (run_bounds s i (neq_flags prev rest)))
    = present (skipn s (map st g)).
Proof.
  induction rest as [|x rest IH]; intros prev s i Hskip Hlen Hsi Hprev Hrun Hstart;
    pose proof (run_bounds_ok _ Hskip Hlen Hsi Hprev Hrun Hstart) as Hok.
  - change (neq_flags prev []) with (@nil bool) in *.
    cbn [run_bounds flat_map] in *. simpl in Hlen.
    pose proof (Forall_inv Hok) as H1. simpl in H1.
    rewrite !app_nil_r, (emit_expand H1).
    replace (S (Nat.pred i)) with i by lia.
    rewrite (slice_skipn (map st g) (s:=s) (i:=i)) by lia.
    rewrite Hskip, app_nil_r. reflexivity.
  - rewrite neq_flags_cons in *.
    destruct (skipn_cons_inv _ _ None Hskip) as [Hx Hskip'].
    simpl in Hlen.
    destruct (st_neq x prev) eqn:E; simpl run_bounds in *.
    + pose proof (Forall_inv Hok) as H1. simpl in H1.
      cbn [flat_map]. rewrite flat_map_app, (emit_expand H1).
      replace (S (Nat.pred i)) with i by lia.
      rewrite (IH x i (S i)); auto; try lia.
      * rewrite <- present_app. f_equal. symmetry. apply slice_skipn. lia.
      * rewrite <- Hx. f_equal. lia.
      * intros j Hj. f_equal. lia.
      * right. now rewrite Hx, Hprev.
    + apply IH; auto; try lia.
      * rewrite <- Hx. f_equal. lia.
      * intros j Hj. destruct (Nat.eq_dec j i) as [->|Hne].
        -- rewrite Hx. apply st_neq_false in E.
           destruct E as (v & -> & Ev). rewrite <- Ev, <- Hprev.
           apply Hrun. lia.
        -- apply Hrun. lia.
Qed.

(** The loop body of one group, as runs of the scan. *)
Lemma group_intervals_runs (r : Row) (g' : list Row) :
  group_intervals area (r :: g')
  = flat_map (emit (SIGUNGU_CD r) area (r :: g'))
             (run_bounds 0 1 (neq_flags (st r) (map st g'))).
Proof.
  unfold group_intervals. cbv zeta.
  replace (List.length (r :: g')) with (List.length (st r :: map st g'))
    by (simpl; now rewrite length_map).
  change (map st (r :: g')) with (st r :: map st g').
  now rewrite (starts_ends_run_bounds (st r) (map st g')).
Qed.
End RunFacts.

Section GroupFacts.
Import Intervals.
Local Open Scope nat_scope.

Lemma first_run_hyps (r : Row) (g' : list Row) :
  skipn 1 (map st (r :: g')) = map st g'
  /\ 1 + List.length (map st g') = List.length (map st (r :: g'))
  /\ nth (1 - 1) (map st (r :: g')) None = st r
  /\ (forall j, 0 <= j < 1 ->
        nth j (map st (r :: g')) None = nth 0 (map st (r :: g')) None).
Proof.
  repeat split; simpl; auto.
  intros j Hj. now replace j with 0 by lia.
Qed.

(** Replaying the intervals of one group gives the station ids the group
    holds, in order. *)
Lemma group_intervals_expand (area : string) (g : list Row) :
  flat_map expand (group_intervals area g) = present (map st g).
Proof.
  destruct g as [|r g']; [reflexivity|].
  rewrite group_intervals_runs.
  destruct (first_run_hyps r g') as (H1 & H2 & H3 & H4).
  rewrite (@run_bounds_expand (SIGUNGU_CD r) area (r :: g') (map st g') (st r) 0 1);
    auto.
Qed.

(** Every interval of a group is the summary of a maximal run. *)
Lemma group_intervals_In (area : string) (g : list Row) (iv : Interval) :
  In iv (group_intervals area g) ->
  exists r g' s e,
    g = r :: g'
    /\ is_run (map st g) s e
    /\ nth s (map st g) None = Some (station_id iv)
    /\ iv = mkInterval (SIGUNGU_CD r) area (station_id iv)
              (nth s (map date g) 0%Z) (nth e (map date g) 0%Z)
              (nanmean (slice (map d g) s (e + 1)))
              (Z.of_nat e - Z.of_nat s + 1).
Proof.
  destruct g as [|r g']; [intros []|].
  rewrite group_intervals_runs. intro H.
  apply in_flat_map in H. destruct H as ([s e] & Hse & Hiv).
  destruct (first_run_hyps r g') as (H1 & H2 & H3 & H4).
  pose proof (@run_bounds_ok (map st (r :: g')) (map st g') (st r) 0 1
                H1 H2 ltac:(lia) H3 H4 (or_introl eq_refl)) as Hok.
  rewrite Forall_forall in Hok. specialize (Hok _ Hse). simpl in Hok.
  exists r, g', s, e. split; [reflexivity|]. split; [exact Hok|].
  unfold emit in Hiv.
  destruct (nth s (map st (r :: g')) None) as [v|] eqn:Ev; [|destruct Hiv].
  destruct Hiv as [<-|[]]. simpl. auto.
Qed.

Lemma group_intervals_area (area : string) (g : list Row) (iv : Interval) :
  In iv (group_intervals area g) -> iv_resid_area iv = area.
Proof.
  intro H. destruct (group_intervals_In _ _ _ H) as (r & g' & s & e & _ & _ & _ & ->).
  reflexivity.
Qed.
End GroupFacts.

Section MakeIntervalsFacts.
Import Intervals.

Lemma of_area_keep (area : string) (ivs : list Interval) :
  Forall (fun iv => iv_resid_area iv = area) ivs -> of_area area ivs = ivs.
Proof.
  unfold of_area. induction 1 as [|iv ivs H _ IH]; simpl; [reflexivity|].
  rewrite H, String.eqb_refl. now rewrite IH.
Qed.

Lemma of_area_drop (area : string) (ivs : list Interval) :
  Forall (fun iv => iv_resid_area iv <> area) ivs -> of_area area ivs = [].
Proof.
  unfold of_area. induction 1 as [|iv ivs H _ IH]; simpl; [reflexivity|].
  apply String.eqb_neq in H. now rewrite H.
Qed.

Lemma of_area_app (area : string) (l1 l2 : list Interval) :
  of_area area (l1 ++ l2) = of_area area l1 ++ of_area area l2.
Proof. apply filter_app. Qed.

Lemma of_area_groups (rows : list Row) (area : string) (keys : list string) :
  NoDup keys ->
  of_area area
    (flat_map (fun k => group_intervals k (group k rows)) keys)
  = if in_dec string_dec area keys
    then group_intervals area (group area rows) else [].
Proof.
  induction 1 as [|k keys Hk Hnd IH]; [reflexivity|].
  cbn [flat_map]. rewrite of_area_app, IH.
  destruct (string_dec k area) as [->|Hne].
  - rewrite of_area_keep
      by (apply Forall_forall; intros iv; apply group_intervals_area).
    destruct (in_dec string_dec area keys) as [Hin|_]; [contradiction|].
    destruct (in_dec string_dec area (area :: keys)) as [_|Hn];
      [apply app_nil_r | exfalso; apply Hn; now left].
  - rewrite of_area_drop.
    + cbn [app]. destruct (in_dec string_dec area keys) as [Hin|Hn];
        destruct (in_dec string_dec area (k :: keys)) as [Hin'|Hn'];
        try reflexivity.
      * exfalso. apply Hn'. now right.
      * destruct Hin' as [E|Hin']; [contradiction | contradiction].
    + apply Forall_forall. intros iv Hiv.
      rewrite (group_intervals_area _ _ _ Hiv). exact Hne.
Qed.

(** The intervals emitted for one region are those of its group. *)
Lemma of_area_make_intervals (rows : list Row) (area : string) :
  of_area area (make_intervals rows) = group_intervals area (group area rows).
Proof.
  unfold make_intervals. rewrite of_area_groups by apply (unique_keys_NoDup String.eqb String.eqb_eq).
  destruct (in_dec string_dec area (group_keys rows)) as [_|Hn]; [reflexivity|].
  assert (Hg : group area rows = []).
  { unfold group. destruct (filter _ _) as [|r l] eqn:F; [reflexivity|].
    exfalso. apply Hn. unfold group_keys.
    apply (unique_keys_In String.eqb String.eqb_eq).
    assert (Hr : In r (r :: l)) by now left.
    rewrite <- F in Hr. apply filter_In in Hr. destruct Hr as [Hr E].
    apply String.eqb_eq in E. subst area. now apply in_map. }
  now rewrite Hg.
Qed.

Lemma make_intervals_In (rows : list Row) (iv : Interval) :
  In iv (make_intervals rows) ->
  In iv (group_intervals (iv_resid_area iv) (group (iv_resid_area iv) rows)).
Proof.
  intro H. rewrite <- of_area_make_intervals.
  unfold of_area. apply filter_In. split; [exact H | apply String.eqb_refl].
Qed.

Lemma group_In (area : string) (rows : list Row) (r : Row) :
  In r (group area rows) -> In r rows.
Proof.
  unfold group, sorted_rows. intro H. apply filter_In in H.
  destruct H as [H _]. now apply sort_values_In in H.
Qed.

Lemma StronglySorted_nth_le (l : list Row) (i j : nat) :
  StronglySorted (fun a b => (date a <= date b)%Z) l ->
  (i <= j < List.length l)%nat ->
  (nth i (map date l) 0 <= nth j (map date l) 0)%Z.
Proof.
  intros Hs Hij.
  destruct (nth_error l i) as [a|] eqn:Ea;
    [|apply nth_error_None in Ea; lia].
  destruct (nth_error l j) as [b|] eqn:Eb;
    [|apply nth_error_None in Eb; lia].
  rewrite (nth_error_nth (map date l) i 0%Z (x := date a))
    by (rewrite nth_error_map, Ea; reflexivity).
  rewrite (nth_error_nth (map date l) j 0%Z (x := date b))
    by (rewrite nth_error_map, Eb; reflexivity).
  destruct (Nat.eq_dec i j) as [->|Hne].
  - assert (a = b) by congruence. subst. lia.
  - apply (StronglySorted_nth Hs (i:=i) (j:=j)); auto. lia.
Qed.

Lemma nanmean_present (ds : list R) :
  ds <> [] ->
  nanmean (map Some ds) = Some (Rsum ds / INR (List.length ds))%R.
Proof.
  intro H. unfold nanmean. rewrite present_map_Some.
  destruct ds; [congruence | reflexivity].
Qed.

Lemma map_Some_column_gen (X A : Type) (f : X -> option A) (l : list X) :
  Forall (fun r => f r <> None) l -> exists vs, map f l = map Some vs.
Proof.
  induction 1 as [|r l Hr _ (vs & IH)]; [now exists []|].
  destruct (f r) as [v|] eqn:E; [|congruence].
  exists (v :: vs). simpl. now rewrite E, IH.
Qed.

Lemma map_Some_column (A : Type) (f : Row -> option A) (l : list Row) :
  Forall (fun r => f r <> None) l -> exists vs, map f l = map Some vs.
Proof. apply map_Some_column_gen. Qed.
Lemma run_bounds_fst_ge (flags : list bool) :
  forall s i, (s <= i)%nat ->
    Forall (fun r => (s <= fst r)%nat) (run_bounds s i flags).
Proof.
  induction flags as [|[|] flags IH]; intros s i Hsi; simpl.
  - constructor; [simpl; lia | constructor].
  - constructor; [simpl; lia|].
    eapply Forall_impl; [|apply (IH i (S i)); lia].
    intros r Hr. simpl in Hr. lia.
  - apply IH. lia.
Qed.

(** The runs of the scan follow one another. *)
Lemma run_bounds_sorted (flags : list bool) :
  forall s i, (s < i)%nat ->
    StronglySorted (fun r1 r2 => (snd r1 < fst r2)%nat) (run_bounds s i flags).
Proof.
  induction flags as [|[|] flags IH]; intros s i Hsi; simpl.
  - constructor; constructor.
  - constructor; [apply IH; lia|].
    eapply Forall_impl; [|apply (@run_bounds_fst_ge flags i (S i)); lia].
    intros r Hr. simpl in *. lia.
  - apply IH. lia.
Qed.

Lemma flat_map_sorted (A B : Type) (R : A -> A -> Prop) (S : B -> B -> Prop)
      (f : A -> list B) (l : list A) :
  StronglySorted R l ->
  (forall x, In x l -> StronglySorted S (f x)) ->
  (forall x y a b, In x l -> In y l -> R x y ->
                   In a (f x) -> In b (f y) -> S a b) ->
  StronglySorted S (flat_map f l).
Proof.
  induction 1 as [|x l Hs IH Hx]; intros Hin Hcross; simpl; [constructor|].
  assert (IH' : StronglySorted S (flat_map f l)).
  { apply IH.
    - intros y Hy. apply Hin. now right.
    - intros y z a b Hy Hz. apply Hcross; now right. }
  assert (Hfx : StronglySorted S (f x)) by (apply Hin; now left).
  assert (Hall : forall a, In a (f x) -> Forall (S a) (flat_map f l)).
  { intros a Ha. apply Forall_forall. intros b Hb.
    apply in_flat_map in Hb. destruct Hb as (y & Hy & Hb).
    rewrite Forall_forall in Hx.
    apply (Hcross x y a b); auto; [now left | now right]. }
  clear Hin Hcross IH. induction Hfx as [|a fx Hfx IHfx Ha]; simpl; [exact IH'|].
  constructor.
  - apply IHfx. intros b Hb. apply Hall. now right.
  - apply Forall_app. split; [exact Ha | apply Hall; now left].
Qed.

(** The intervals of a group come out in date order: each ends no later
    than the next starts. *)
Lemma group_intervals_sorted (area : string) (g : list Row) :
  StronglySorted (fun a b => (date a <= date b)%Z) g ->
  StronglySorted (fun a b => (end_date a <= start_date b)%Z)
                 (group_intervals area g).
Proof.
  intro Hg. destruct g as [|r g']; [constructor|].
  rewrite group_intervals_runs.
  destruct (first_run_hyps r g') as (H1 & H2 & H3 & H4).
  pose proof (@run_bounds_ok (map st (r :: g')) (map st g') (st r) 0 1
                H1 H2 ltac:(lia) H3 H4 (or_introl eq_refl)) as Hok.
  rewrite Forall_forall in Hok.
  apply flat_map_sorted with (R := fun r1 r2 => (snd r1 < fst r2)%nat).
  - apply run_bounds_sorted. lia.
  - intros [s e] _. unfold emit.
    destruct (nth s (map st (r :: g')) None); repeat constructor.
  - intros [s1 e1] [s2 e2] a b Hx Hy Hlt Ha Hb.
    pose proof (Hok _ Hy) as (Hse & _). simpl in Hse, Hlt.
    rewrite length_map in Hse.
    unfold emit in Ha, Hb.
    destruct (nth s1 (map st (r :: g')) None); [|destruct Ha].
    destruct (nth s2 (map st (r :: g')) None); [|destruct Hb].
    destruct Ha as [<-|[]], Hb as [<-|[]].
    cbn [end_date start_date]. apply StronglySorted_nth_le; auto.
    cbn [List.length]. lia.
Qed.
End MakeIntervalsFacts.

Example gap_intervals :
  Pipeline.intervals_of Pipeline.centroid Pipeline.gap_region_day
  = [Pipeline.gap_interval].
Proof. reflexivity. Qed.

Lemma gcols_group_rows (m : Pipeline.Method) (area : string)
      (region_day : list Pipeline.RegionDay) :
  Forall (fun r => Intervals.st r <> None /\ Intervals.d r <> None)
         (Intervals.group area (map (Pipeline.gcols m) region_day)).
Proof.
  apply Forall_forall. intros r Hr. apply group_In in Hr.
  apply in_map_iff in Hr. destruct Hr as (x & <- & _).
  split; discriminate.
Qed.

(** The function on any frame: replaying the intervals of a region gives
    the station ids its rows hold, in date order (a NaN station id is
    skipped). *)
Lemma make_intervals_expand (rows : list Intervals.Row) (area : string) :
  flat_map Intervals.expand (Intervals.of_area area (Intervals.make_intervals rows))
  = Intervals.present (map Intervals.st (Intervals.group area rows)).
Proof. now rewrite of_area_make_intervals, group_intervals_expand. Qed.

(** C2.  For every frame of region-day assignments, policy and region:
    the rows [g] of the region which the compressor walks through are the
    region's rows in date order; the intervals emitted for the region come
    out in date order (each ends no later than the next starts); and
    these intervals, each replayed as its station id once per day it
    counts, give exactly the station-id column of [g]. *)
Theorem make_intervals_lossless :
  forall (region_day : list Pipeline.RegionDay) (m : Pipeline.Method)
         (area : string),
    let rows := map (Pipeline.gcols m) region_day in
    let g := Intervals.group area rows in
    Permutation g
      (filter (fun r => String.eqb (Intervals.resid_area r) area) rows)
    /\ StronglySorted (fun a b => (Intervals.date a <= Intervals.date b)%Z) g
    /\ StronglySorted
         (fun a b => (Intervals.end_date a <= Intervals.start_date b)%Z)
         (Intervals.of_area area (Pipeline.intervals_of m region_day))
    /\ map Some
         (flat_map Intervals.expand
            (Intervals.of_area area (Pipeline.intervals_of m region_day)))
       = map Intervals.st g.
Proof.
  intros region_day m area rows g.
  split; [apply group_perm|]. split; [apply group_chronological|].
  unfold Pipeline.intervals_of. fold rows.
  split.
  { rewrite of_area_make_intervals.
    apply group_intervals_sorted, group_chronological. }
  rewrite make_intervals_expand. fold g.
  destruct (@map_Some_column Z Intervals.st g) as (vs & Hvs).
  { eapply Forall_impl; [|apply gcols_group_rows]. intros r H. apply H. }
  now rewrite Hvs, present_map_Some.
Qed.

(** C6.  Every interval emitted for a policy summarises a maximal run
    [s..e] of the rows [g] of its region in date order: all rows of the run
    hold the interval's station id, its start and end date are the dates of
    the first and the last row of the run (no row of the run is dated
    outside them), its mean distance is the sum of the distances of the
    rows of the run divided by their number, and its day count is the
    number of rows of the run.  The count can be less than
    [end - start + 1]: a frame with records on days 1 and 3 only yields an
    interval from day 1 to day 3 that counts 2 days. *)
Theorem make_intervals_run_summary :
  (forall (region_day : list Pipeline.RegionDay) (m : Pipeline.Method)
          (iv : Intervals.Interval),
      In iv (Pipeline.intervals_of m region_day) ->
      let g := Intervals.group (Intervals.iv_resid_area iv)
                               (map (Pipeline.gcols m) region_day) in
      exists s e,
        Intervals.is_run (map Intervals.st g) s e
        /\ (forall j, (s <= j <= e)%nat ->
              nth j (map Intervals.st g) None = Some (Intervals.station_id iv))
        /\ Intervals.start_date iv = nth s (map Intervals.date g) 0%Z
        /\ Intervals.end_date iv = nth e (map Intervals.date g) 0%Z
        /\ (forall j, (s <= j <= e)%nat ->
              (Intervals.start_date iv <= nth j (map Intervals.date g) 0
               <= Intervals.end_date iv)%Z)
        /\ Intervals.n_days iv
           = Z.of_nat (List.length (Intervals.slice g s (e + 1)))
        /\ exists ds,
             map Intervals.d (Intervals.slice g s (e + 1)) = map Some ds
             /\ Intervals.mean_distance_m iv
                = Some (Intervals.Rsum ds / INR (List.length ds))%R)
  /\ (exists (region_day : list Pipeline.RegionDay) (m : Pipeline.Method)
             (iv : Intervals.Interval),
         In iv (Pipeline.intervals_of m region_day)
         /\ (Intervals.n_days iv
             < Intervals.end_date iv - Intervals.start_date iv + 1)%Z).
Proof.
  split.
  - intros region_day m iv Hin g.
    apply make_intervals_In in Hin. fold g in Hin.
    destruct (group_intervals_In _ _ _ Hin)
      as (r & g' & s & e & Hg & Hrun & Hst & Hiv).
    exists s, e.
    pose proof Hrun as (Hse & Heq & _ & _).
    rewrite length_map in Hse.
    assert (Hsorted : StronglySorted
                        (fun a b => (Intervals.date a <= Intervals.date b)%Z) g)
      by apply group_chronological.
    assert (Hlen : List.length (Intervals.slice g s (e + 1)) = (e + 1 - s)%nat)
      by (apply slice_length; lia).
    split; [exact Hrun|].
    split; [intros j Hj; rewrite Heq by exact Hj; exact Hst|].
    rewrite Hiv. cbn [Intervals.start_date Intervals.end_date Intervals.n_days
                      Intervals.mean_distance_m].
    split; [reflexivity|]. split; [reflexivity|].
    split; [intros j Hj; split; apply StronglySorted_nth_le; auto; lia|].
    split; [rewrite Hlen; lia|].
    destruct (@map_Some_column R Intervals.d (Intervals.slice g s (e + 1)))
      as (ds & Hds).
    { apply Forall_forall. intros x Hx. apply slice_In in Hx.
      pose proof (gcols_group_rows m (Intervals.iv_resid_area iv) region_day) as F.
      rewrite Forall_forall in F. apply (F x Hx). }
    exists ds. split; [exact Hds|].
    rewrite slice_map, Hds. apply nanmean_present.
    intro E. subst ds. apply (f_equal (@List.length _)) in Hds.
    rewrite length_map, Hlen in Hds. simpl in Hds. lia.
  - exists Pipeline.gap_region_day, Pipeline.centroid, Pipeline.gap_interval.
    split; [rewrite gap_intervals; now left | reflexivity].
Qed.

Lemma make_intervals_run_summary_witness :
  let g := Intervals.group "A"
             (map (Pipeline.gcols Pipeline.centroid) Pipeline.gap_region_day) in
  exists s e,
    Intervals.is_run (map Intervals.st g) s e
    /\ (forall j, (s <= j <= e)%nat -> nth j (map Intervals.st g) None = Some 7%Z)
    /\ 1%Z = nth s (map Intervals.date g) 0%Z
    /\ 3%Z = nth e (map Intervals.date g) 0%Z
    /\ (forall j, (s <= j <= e)%nat ->
          (1 <= nth j (map Intervals.date g) 0 <= 3)%Z)
    /\ 2%Z = Z.of_nat (List.length (Intervals.slice g s (e + 1)))
    /\ exists ds,
         map Intervals.d (Intervals.slice g s (e + 1)) = map Some ds
         /\ Some (Intervals.Rsum [3%R; 5%R] / INR 2)%R
            = Some (Intervals.Rsum ds / INR (List.length ds))%R.
Proof.
  apply (proj1 make_intervals_run_summary
           Pipeline.gap_region_day Pipeline.centroid Pipeline.gap_interval).
  rewrite gap_intervals. now left.
Defined.

(* ================================================================== *)
(** * The daily loop of [main] *)
(* ================================================================== *)

Section DailyFacts.
Import Pipeline.

Lemma map_fst_combine (A B : Type) (l : list A) (l' : list B) :
  (List.length l <= List.length l')%nat -> map fst (combine l l') = l.
Proof.
  revert l'. induction l as [|x l IH]; intros [|y l'] H; simpl in *;
    try reflexivity; try lia.
  f_equal. apply IH. lia.
Qed.

Lemma days_In (sun_seg : list SunSeg) (day : Z) :
  In day (days sun_seg) <-> has_row day sun_seg = true.
Proof.
  unfold days, has_row.
  rewrite (unique_keys_In Z.eqb Z.eqb_eq), sort_values_In, in_map_iff,
    existsb_exists.
  split; intros (s & H1 & H2); exists s.
  - split; [exact H2 | now apply Z.eqb_eq].
  - split; [now apply Z.eqb_eq | exact H1].
Qed.

Lemma day_group_nonempty (sun_seg : list SunSeg) (day : Z) :
  has_row day sun_seg = true -> day_group day sun_seg <> [].
Proof.
  unfold has_row, day_group. intros H E.
  apply existsb_exists in H. destruct H as (s & Hs & Hd).
  assert (In s []) as []. rewrite <- E. apply filter_In. auto.
Qed.

(** The frame of a day with a row: a row per region, in the order of
    the centers file, dated that day. *)
Lemma day_frame_rows (centers : list Region) (day : Z) (g : list SunSeg) :
  g <> [] ->
  exists f,
    day_frame centers day g = inr f
    /\ map record_region f = map region_id centers
    /\ Forall (fun r => rd_date r = day) f.
Proof.
  intro Hg. unfold day_frame.
  assert (Hst : map st_x_utmK g <> []) by (destruct g; [congruence | discriminate]).
  assert (Hlen : List.length (map st_x_utmK g) = List.length (map st_y_utmK g))
    by now rewrite !length_map.
  destruct (@nearest_station_for_day_rows
              (map centroid_x_utmK centers) (map centroid_y_utmK centers)
              (map st_x_utmK g) (map st_y_utmK g))
    as (ic & -> & Hic & Hdc & _); auto; [now rewrite !length_map|].
  destruct (@nearest_station_for_day_rows
              (map rep_x_utmK centers) (map rep_y_utmK centers)
              (map st_x_utmK g) (map st_y_utmK g))
    as (ir & -> & Hir & Hdr & _); auto; [now rewrite !length_map|].
  cbn [bind fst snd]. eexists. split; [reflexivity|].
  rewrite length_map in Hic, Hir, Hdc, Hdr.
  split.
  - rewrite map_map.
    erewrite map_ext; [|intros row; unfold record_region;
                        cbn [rd_SIGUNGU_CD rd_resid_area];
                        change (SIGUNGU_CD (fst row), resid_area (fst row))
                          with (region_id (fst row)); reflexivity].
    rewrite <- (map_map fst region_id). f_equal.
    apply map_fst_combine.
    rewrite !length_combine, !take_along_length; lia.
  - apply Forall_map, Forall_forall. intros row _. reflexivity.
Qed.

Lemma day_loop_frames (centers : list Region) (sun_seg : list SunSeg)
      (ds : list Z) :
  Forall (fun day => has_row day sun_seg = true) ds ->
  exists fs,
    day_loop centers sun_seg ds = inr fs
    /\ Forall2 (fun day f => map record_region f = map region_id centers
                             /\ Forall (fun r => rd_date r = day) f) ds fs.
Proof.
  induction 1 as [|day ds Hday _ (fs & IH & Hfs)]; simpl.
  - exists []. split; [reflexivity | constructor].
  - destruct (@day_frame_rows centers day (day_group day sun_seg))
      as (f & -> & Hf); [now apply day_group_nonempty|].
    rewrite IH. cbn [bind]. exists (f :: fs). split; [reflexivity|].
    now constructor.
Qed.

Lemma records_of_day_frame (day d : Z) (f : list RegionDay) :
  Forall (fun r => rd_date r = d) f ->
  records_of_day day f = if Z.eq_dec d day then f else [].
Proof.
  unfold records_of_day. induction 1 as [|r f Hr _ IH]; simpl.
  - now destruct (Z.eq_dec d day).
  - rewrite IH, Hr. destruct (Z.eq_dec d day) as [->|Hne].
    + now rewrite Z.eqb_refl.
    + apply Z.eqb_neq in Hne. now rewrite Hne.
Qed.

Lemma records_of_day_concat (centers : list Region) (day : Z)
      (ds : list Z) (fs : list (list RegionDay)) :
  NoDup ds ->
  Forall2 (fun d f => map record_region f = map region_id centers
                      /\ Forall (fun r => rd_date r = d) f) ds fs ->
  map record_region (records_of_day day (List.concat fs))
  = if in_dec Z.eq_dec day ds then map region_id centers else [].
Proof.
  intros Hnd H. induction H as [|d f ds fs [Hreg Hdate] _ IH]; [reflexivity|].
  inversion Hnd as [|? ? Hd Hnd']; subst.
  cbn [List.concat]. unfold records_of_day in *. rewrite filter_app, map_app.
  fold (records_of_day day f). rewrite (records_of_day_frame day Hdate).
  rewrite (IH Hnd').
  destruct (Z.eq_dec d day) as [->|Hne].
  - destruct (in_dec Z.eq_dec day ds) as [Hin|_]; [contradiction|].
    destruct (in_dec Z.eq_dec day (day :: ds)) as [_|Hn];
      [rewrite app_nil_r; exact Hreg | exfalso; apply Hn; now left].
  - cbn [map app].
    destruct (in_dec Z.eq_dec day ds) as [Hin|Hn];
      destruct (in_dec Z.eq_dec day (d :: ds)) as [Hin'|Hn'];
      try reflexivity.
    + exfalso. apply Hn'. now right.
    + destruct Hin' as [E|Hin']; contradiction.
Qed.
End DailyFacts.

(** X23.  The daily loop visits exactly the days that have a row in the
    attached frame, whatever the measurements of those rows.  With no row
    at all the run ends in an error and produces no record.  Otherwise a
    day without a row has no record, for any region or policy (no row is
    filled in), and a day with a row has exactly one record per row of the
    centers file, in that order; a record carries the assignment of both
    policies. *)
Theorem compute_region_day_one_record_per_region :
  forall (centers : list Pipeline.Region) (sun_seg : list Pipeline.SunSeg),
    match Pipeline.compute_region_day centers sun_seg with
    | inl _ => sun_seg = []
    | inr region_day =>
        sun_seg <> []
        /\ forall day,
             map Pipeline.record_region
                 (Pipeline.records_of_day day region_day)
             = if Pipeline.has_row day sun_seg
               then map Pipeline.region_id centers
               else []
    end.
Proof.
  intros centers sun_seg. unfold Pipeline.compute_region_day.
  destruct (@day_loop_frames centers sun_seg (Pipeline.days sun_seg))
    as (fs & -> & Hfs).
  { apply Forall_forall. intros day. apply days_In. }
  cbn [Pipeline.bind]. unfold Pipeline.pd_concat.
  destruct sun_seg as [|s0 rest].
  - inversion Hfs; subst. reflexivity.
  - assert (Hin : In (Pipeline.sun_date s0) (Pipeline.days (s0 :: rest))).
    { apply days_In. simpl. now rewrite Z.eqb_refl. }
    destruct fs as [|f fs'].
    + inversion Hfs as [E1 E2|]. rewrite <- E1 in Hin. destruct Hin.
    + split; [discriminate|]. intro day.
      rewrite (@records_of_day_concat centers day _ _
                 (unique_keys_NoDup Z.eqb Z.eqb_eq _) Hfs).
      fold (Pipeline.days (s0 :: rest)).
      destruct (in_dec Z.eq_dec day (Pipeline.days (s0 :: rest))) as [H|H].
      * apply days_In in H. now rewrite H.
      * destruct (Pipeline.has_row day (s0 :: rest)) eqn:E;
          [|reflexivity].
        exfalso. apply H. now apply days_In.
Qed.

(* ================================================================== *)
(** * Candidates with an absent measurement *)
(* ================================================================== *)

Section AbsentFacts.
Import Nearest.
Local Open Scope R_scope.

Lemma hypot_0 : hypot (0 - 0) (0 - 0) = 0.
Proof.
  unfold hypot. replace ((0 - 0) * (0 - 0) + (0 - 0) * (0 - 0)) with 0 by ring.
  apply sqrt_0.
Qed.

Lemma hypot_3_4 : hypot (0 - 3) (0 - 4) = 5.
Proof.
  unfold hypot. replace ((0 - 3) * (0 - 3) + (0 - 4) * (0 - 4)) with (5 * 5) by ring.
  apply sqrt_square. lra.
Qed.
Lemma nearest_absent_example :
  nearest_station_for_day [0] [0] [0; 3] [0; 4] = inr ([0%nat], [0]).
Proof.
  unfold nearest_station_for_day, dist_matrix.
  cbn [List.length Nat.eqb andb negb combine map fst snd
       argmin_rows argmin argmin_from].
  assert (H : Rltb (hypot (0 - 3) (0 - 4)) (hypot (0 - 0) (0 - 0)) = false).
  { apply Rltb_false. rewrite hypot_0, hypot_3_4. lra. }
  rewrite H. unfold take_along. cbn [combine map fst snd nth].
  now rewrite hypot_0.
Qed.
End AbsentFacts.

Example absent_nearest_pool :
  Pipeline.absent_nearest_sun_seg
  = [ Pipeline.mkSunSeg
        (Attach.mkCandidate (Attach.mkObs 1 "near" 10 None)
                            (Meta.mkSegment 1 "near" 0 20 0 0)) 0 0;
      Pipeline.mkSunSeg
        (Attach.mkCandidate (Attach.mkObs 2 "far" 10 (Some 4%R))
                            (Meta.mkSegment 2 "far" 0 20 4 3)) 3 4 ].
Proof. reflexivity. Qed.

Example absent_nearest_days :
  Pipeline.days Pipeline.absent_nearest_sun_seg = [10%Z]
  /\ Pipeline.day_group 10 Pipeline.absent_nearest_sun_seg
     = Pipeline.absent_nearest_sun_seg.
Proof. split; reflexivity. Qed.

(** C1.  On a day where the station nearest to a region has an absent
    measurement and a farther station has a present one, the code keeps
    both as candidates and assigns the nearest one: the region's record
    names station 1, at distance 0, with an absent measurement, although
    station 2 (at distance 5) has a measurement that day. *)
Theorem compute_region_day_assigns_absent_nearest :
  Pipeline.compute_region_day Pipeline.absent_nearest_centers
                              Pipeline.absent_nearest_sun_seg
  = inr [ Pipeline.mkRegionDay "11010" "A" 10 1 0 None 1 0 None ].
Proof.
  unfold Pipeline.compute_region_day.
  destruct absent_nearest_days as [-> Hg].
  cbn [Pipeline.day_loop]. rewrite Hg, absent_nearest_pool.
  unfold Pipeline.day_frame, Pipeline.absent_nearest_centers.
  cbn [map Pipeline.st_x_utmK Pipeline.st_y_utmK Pipeline.centroid_x_utmK
       Pipeline.centroid_y_utmK Pipeline.rep_x_utmK Pipeline.rep_y_utmK].
  rewrite nearest_absent_example.
  reflexivity.
Qed.

Section PartlyAbsent.
Import Nearest.
Local Open Scope R_scope.

Lemma nearest_single_origin :
  nearest_station_for_day [0] [0] [0] [0] = inr ([0%nat], [0]).
Proof.
  unfold nearest_station_for_day, dist_matrix.
  cbn [List.length Nat.eqb andb negb combine map fst snd
       argmin_rows argmin argmin_from].
  unfold take_along. cbn [combine map fst snd nth].
  now rewrite hypot_0.
Qed.

(** The frame of a day whose only row is a station at the region's point:
    the record takes the row's measurement as it is. *)
Lemma single_station_day_frame (day : Z) (o : Attach.Obs) (s : Meta.Segment) :
  Pipeline.day_frame Pipeline.absent_nearest_centers day
    [Pipeline.mkSunSeg (Attach.mkCandidate o s) 0 0]
  = inr [ Pipeline.mkRegionDay "11010" "A" day
            (Attach.obs_station o) 0 (Attach.obs_sun o)
            (Attach.obs_station o) 0 (Attach.obs_sun o) ].
Proof.
  unfold Pipeline.day_frame, Pipeline.absent_nearest_centers.
  cbn [map Pipeline.st_x_utmK Pipeline.st_y_utmK Pipeline.centroid_x_utmK
       Pipeline.centroid_y_utmK Pipeline.rep_x_utmK Pipeline.rep_y_utmK].
  rewrite nearest_single_origin.
  reflexivity.
Qed.
End PartlyAbsent.

Example partly_absent_pool :
  Pipeline.partly_absent_sun_seg
  = [ Pipeline.mkSunSeg
        (Attach.mkCandidate (Attach.mkObs 1 "near" 10 (Some 4%R))
                            (Meta.mkSegment 1 "near" 0 20 0 0)) 0 0;
      Pipeline.mkSunSeg
        (Attach.mkCandidate (Attach.mkObs 1 "near" 11 None)
                            (Meta.mkSegment 1 "near" 0 20 0 0)) 0 0 ].
Proof. reflexivity. Qed.

Lemma partly_absent_frames :
  Pipeline.day_loop Pipeline.absent_nearest_centers
    Pipeline.partly_absent_sun_seg [10%Z; 11%Z]
  = inr [ [ Pipeline.mkRegionDay "11010" "A" 10 1 0 (Some 4%R) 1 0 (Some 4%R) ];
          [ Pipeline.mkRegionDay "11010" "A" 11 1 0 None 1 0 None ] ].
Proof.
  rewrite partly_absent_pool. cbn [Pipeline.day_loop].
  change (Pipeline.day_group 10 _)
    with [ Pipeline.mkSunSeg
             (Attach.mkCandidate (Attach.mkObs 1 "near" 10 (Some 4%R))
                                 (Meta.mkSegment 1 "near" 0 20 0 0)) 0%R 0%R ].
  change (Pipeline.day_group 11 _)
    with [ Pipeline.mkSunSeg
             (Attach.mkCandidate (Attach.mkObs 1 "near" 11 None)
                                 (Meta.mkSegment 1 "near" 0 20 0 0)) 0%R 0%R ].
  rewrite !single_station_day_frame. reflexivity.
Qed.

(** C7.  Station 1 has 4 hours of sunshine on day 10 and an empty sunshine
    cell on day 11, and no other station reports on day 11: no row of that
    day has a measurement, so the day has no eligible candidate.  The loop
    visits the day all the same and the frame has a record for the region
    on day 11, naming station 1 with an absent measurement under both
    policies. *)
Theorem compute_region_day_record_without_measurement :
  Forall (fun s => Pipeline.sun_value s = None)
         (Pipeline.day_group 11 Pipeline.partly_absent_sun_seg)
  /\ Pipeline.compute_region_day Pipeline.absent_nearest_centers
                                 Pipeline.partly_absent_sun_seg
     = inr Pipeline.partly_absent_region_day
  /\ Pipeline.records_of_day 11 Pipeline.partly_absent_region_day
     = [ Pipeline.mkRegionDay "11010" "A" 11 1 0 None 1 0 None ].
Proof.
  split; [|split].
  - rewrite partly_absent_pool. repeat constructor.
  - unfold Pipeline.compute_region_day.
    change (Pipeline.days Pipeline.partly_absent_sun_seg) with [10%Z; 11%Z].
    rewrite partly_absent_frames. reflexivity.
  - reflexivity.
Qed.

(** C8.  On the same input the month of the two days gets one row: each
    policy's sum is 4, the value of day 10 alone, and [n_days] is 2,
    although under either policy only one day contributes a value. *)
Theorem monthly_counts_day_without_measurement :
  Pipeline.compute_region_day Pipeline.absent_nearest_centers
                              Pipeline.partly_absent_sun_seg
  = inr Pipeline.partly_absent_region_day
  /\ (exists row,
        Pipeline.monthly (fun _ => "2007-06"%string)
                         Pipeline.partly_absent_region_day = [row]
        /\ Pipeline.sun_hr_centroid_sum row = 4%R
        /\ Pipeline.sun_hr_rep_sum row = 4%R
        /\ Pipeline.mo_n_days row = 2%Z)
  /\ forall m,
       Intervals.present
         (map (Pipeline.sun_of m) Pipeline.partly_absent_region_day)
       = [4%R].
Proof.
  split; [|split].
  - unfold Pipeline.compute_region_day.
    change (Pipeline.days Pipeline.partly_absent_sun_seg) with [10%Z; 11%Z].
    rewrite partly_absent_frames. reflexivity.
  - exists (Pipeline.mkMonthly "11010" "A" "2007-06"
              (Intervals.Rsum [4%R]) (Intervals.Rsum [4%R]) 2).
    split; [reflexivity|].
    cbn [Pipeline.sun_hr_centroid_sum Pipeline.sun_hr_rep_sum
         Pipeline.mo_n_days].
    unfold Intervals.Rsum. cbn [fold_right].
    repeat split; try lra.
  - intros [|]; reflexivity.
Qed.

(* ================================================================== *)
(** * Monthly sums *)
(* ================================================================== *)

Section MonthlyFacts.
Import Pipeline.
Variable ym : Z -> string.

Lemma key_eqb_eq (a b : string * string * string) :
  key_eqb a b = true <-> a = b.
Proof.
  destruct a as [[a1 a2] a3], b as [[b1 b2] b3]. unfold key_eqb. simpl.
  rewrite !andb_true_iff, !String.eqb_eq. split.
  - intros [[-> ->] ->]. reflexivity.
  - intros [= -> -> ->]. auto.
Qed.

Lemma month_keys_In (region_day : list RegionDay) (k : string * string * string) :
  In k (month_keys ym region_day) <-> exists r, In r region_day /\ month_key ym r = k.
Proof.
  unfold month_keys.
  rewrite (unique_keys_In key_eqb key_eqb_eq), sort_values_In, in_map_iff.
  split; intros (r & H1 & H2); exists r; auto.
Qed.

Lemma month_group_In (region_day : list RegionDay)
      (k : string * string * string) (r : RegionDay) :
  In r (month_group ym k region_day) <-> In r region_day /\ month_key ym r = k.
Proof.
  unfold month_group. now rewrite filter_In, key_eqb_eq.
Qed.

Lemma monthly_In (region_day : list RegionDay) (row : Monthly) :
  In row (monthly ym region_day) ->
  In (mo_key row) (month_keys ym region_day)
  /\ row = aggregate (mo_key row) (month_group ym (mo_key row) region_day).
Proof.
  unfold monthly. rewrite in_map_iff. intros (k & <- & Hk).
  destruct k as [[c a] m]. split; [exact Hk | reflexivity].
Qed.

Lemma monthly_keys (region_day : list RegionDay) :
  map mo_key (monthly ym region_day) = month_keys ym region_day.
Proof.
  unfold monthly. rewrite map_map. rewrite <- (map_id (month_keys ym region_day)) at 2.
  apply map_ext. now intros [[c a] m].
Qed.
End MonthlyFacts.

(** X24.  The monthly frame has exactly one row for every (region, month)
    that has a record.  In a row, the sum of each policy is the sum of the
    measurements of that policy over the records of that region and month,
    the absent ones left out (nothing is put in their place), and [n_days]
    is the number of those records, with or without a measurement; it is
    the number of values summed under a policy when no measurement of that
    policy is absent in the group. *)
Theorem monthly_sums_records :
  forall (ym : Z -> string) (region_day : list Pipeline.RegionDay),
    NoDup (map Pipeline.mo_key (Pipeline.monthly ym region_day))
    /\ (forall r, In r region_day ->
          exists row, In row (Pipeline.monthly ym region_day)
                      /\ Pipeline.mo_key row = Pipeline.month_key ym r)
    /\ (forall row, In row (Pipeline.monthly ym region_day) ->
          let g := Pipeline.month_group ym (Pipeline.mo_key row) region_day in
          g <> []
          /\ (forall r, In r g <->
                        In r region_day
                        /\ Pipeline.month_key ym r = Pipeline.mo_key row)
          /\ (forall m,
                Pipeline.monthly_sum m row
                = Intervals.Rsum (Intervals.present (map (Pipeline.sun_of m) g)))
          /\ Pipeline.mo_n_days row = Z.of_nat (List.length g)
          /\ (forall m,
                Forall (fun r => Pipeline.sun_of m r <> None) g ->
                Pipeline.mo_n_days row
                = Z.of_nat (List.length
                              (Intervals.present (map (Pipeline.sun_of m) g))))).
Proof.
  intros ym region_day. split; [|split].
  - rewrite monthly_keys. apply (unique_keys_NoDup _ key_eqb_eq).
  - intros r Hr.
    assert (Hk : In (Pipeline.month_key ym r) (Pipeline.month_keys ym region_day))
      by (apply month_keys_In; eauto).
    rewrite <- monthly_keys in Hk. apply in_map_iff in Hk.
    destruct Hk as (row & E & Hrow). eauto.
  - intros row Hrow g.
    destruct (monthly_In ym region_day row Hrow) as [Hk Hagg].
    apply month_keys_In in Hk. destruct Hk as (r0 & Hr0 & Hk0).
    split.
    { intro E. assert (Hin : In r0 g) by (apply month_group_In; auto).
      rewrite E in Hin. destruct Hin. }
    split; [intro r; apply month_group_In|].
    fold g in Hagg.
    split; [|split].
    + intros [|]; rewrite Hagg; reflexivity.
    + rewrite Hagg. reflexivity.
    + intros m Hall. rewrite Hagg. cbn [Pipeline.mo_n_days Pipeline.aggregate].
      f_equal.
      destruct (@map_Some_column_gen Pipeline.RegionDay R (Pipeline.sun_of m) g Hall)
        as (vs & Hvs).
      rewrite Hvs, present_map_Some.
      apply (f_equal (@List.length _)) in Hvs. now rewrite !length_map in Hvs.
Qed.

(** A record with an absent measurement adds nothing to the sum and is
    counted as a day. *)
Example monthly_absent_measurement :
  Pipeline.monthly (fun _ => "2007-06"%string) Pipeline.absent_month_region_day
  = [ Pipeline.mkMonthly "11010" "A" "2007-06"
        (Intervals.Rsum [2%R]) (Intervals.Rsum [2%R; 4%R]) 2 ].
Proof. reflexivity. Qed.

(* ================================================================== *)
(** * Loading and the column checks *)
(* ================================================================== *)

Section LoadFacts.
Import Pipeline.
Local Open Scope string_scope.

Lemma mem_In (c : string) (cols : list string) :
  mem c cols = true <-> In c cols.
Proof.
  unfold mem. rewrite existsb_exists. split.
  - intros (x & Hx & E). apply String.eqb_eq in E. now subst.
  - intro H. exists c. split; [exact H | apply String.eqb_refl].
Qed.

Lemma mem_false (c : string) (cols : list string) :
  mem c cols = false <-> ~ In c cols.
Proof.
  rewrite <- mem_In. destruct (mem c cols); split; congruence.
Qed.

Lemma getitem_cases (cols : list string) (c : string) :
  (In c cols /\ getitem cols c = inr tt)
  \/ (~ In c cols /\ getitem cols c = inl (KeyError c)).
Proof.
  unfold getitem. destruct (mem c cols) eqn:E.
  - left. split; [now apply mem_In | reflexivity].
  - right. split; [now apply mem_false | reflexivity].
Qed.

Lemma missing_In (cols : list string) (c : string) :
  In c (missing cols) <-> In c need /\ ~ In c cols.
Proof.
  unfold missing. rewrite filter_In, negb_true_iff, mem_false. tauto.
Qed.

Lemma need_NoDup : NoDup need.
Proof.
  unfold need. repeat constructor; simpl; intuition discriminate.
Qed.

Lemma string_leb_trans (a b c : string) :
  String.leb a b = true -> String.leb b c = true -> String.leb a c = true.
Proof.
  rewrite !string_leb_le. intros [H1 | ->] [H2 | ->]; auto.
  left. eapply String_as_OT.lt_trans; eassumption.
Qed.

(** Lines 177-180: the error lists every missing column, once, sorted. *)
Lemma check_centers_error (cols : list string) :
  (exists c, In c need /\ ~ In c cols) ->
  check_centers cols
  = inl (ValueError "Centers file missing columns"
                            (sorted (missing cols))).
Proof.
  intros (c & Hc). apply missing_In in Hc. unfold check_centers.
  destruct (missing cols); [destruct Hc | reflexivity].
Qed.

Lemma check_centers_ok (cols : list string) :
  check_centers cols = inr tt -> forall c, In c need -> In c cols.
Proof.
  unfold check_centers. intros H c Hc.
  destruct (missing cols) as [|m ms] eqn:E; [|discriminate].
  destruct (mem c cols) eqn:Em; [now apply mem_In|].
  assert (Hin : In c (missing cols))
    by (apply missing_In; split; [exact Hc | now apply mem_false]).
  rewrite E in Hin. destruct Hin.
Qed.

Lemma sorted_missing (cols : list string) :
  (forall c, In c (sorted (missing cols)) <-> In c need /\ ~ In c cols)
  /\ NoDup (sorted (missing cols))
  /\ StronglySorted (fun a b => String.leb a b = true) (sorted (missing cols)).
Proof.
  unfold sorted. split; [|split].
  - intro c. now rewrite sort_values_In, missing_In.
  - eapply Permutation_NoDup; [symmetry; apply sort_values_perm|].
    unfold missing. apply NoDup_filter, need_NoDup.
  - apply (sort_values_sorted String.leb String.leb_total string_leb_trans).
Qed.

Lemma main_load_error (to_utmK : R -> R -> R * R) (ym : Z -> string)
      (w_start w_end : Z) (centers : Table Region) (sun : Table RawObs)
      (meta : Table Meta.RawMeta) (e : Exception) :
  load w_start w_end centers sun meta = inl e ->
  main to_utmK ym w_start w_end centers sun meta = inl e.
Proof. intro H. unfold main. now rewrite H. Qed.

(** When [load] succeeds, every table has its columns. *)
Lemma load_ok_columns (w_start w_end : Z) (centers : Table Region)
      (sun : Table RawObs) (meta : Table Meta.RawMeta)
      (res : list Region * list Attach.Candidate) :
  load w_start w_end centers sun meta = inr res ->
  (forall c, In c need -> In c (columns centers))
  /\ (forall c, In c required_sun -> In c (columns sun))
  /\ (forall c, In c required_meta -> In c (columns meta)).
Proof.
  unfold load.
  destruct (check_centers (columns centers)) as [e|[]] eqn:Hcheck;
    [discriminate|].
  cbn [bind].
  repeat match goal with
  | |- context [getitem ?cols ?c] =>
      let H := fresh "Hcol" in
      destruct (getitem_cases cols c) as [[H ->]|[H ->]];
      cbn [bind]; [|discriminate]
  | |- context [match in_window ?a ?b ?l with _ => _ end] =>
      destruct (in_window a b l); [discriminate|]
  | |- context [negb (mem ?c ?cols)] =>
      let H := fresh "Hcol" in
      destruct (mem c cols) eqn:H; cbn [negb]; [apply mem_In in H|discriminate]
  end.
  intros _. split; [now apply check_centers_ok|].
  unfold required_sun, required_meta.
  split; intros c Hc; simpl in Hc;
    repeat (destruct Hc as [<-|Hc]; [assumption|]); destruct Hc.
Qed.
End LoadFacts.

(** C9.  If a column the run needs is absent from the centers, the
    sunshine or the station metadata table, loading ends in an error and
    [main] returns that error: the daily assignment is never started.  For
    the centers table the error is the [ValueError] of line 180, and its
    list holds every missing required column, each once, in sorted
    order. *)
Theorem load_aborts_on_missing_column :
  forall (to_utmK : R -> R -> R * R) (ym : Z -> string) (w_start w_end : Z)
         (centers : Pipeline.Table Pipeline.Region)
         (sun : Pipeline.Table Pipeline.RawObs)
         (meta : Pipeline.Table Meta.RawMeta),
    (exists c, In c Pipeline.need /\ ~ In c (Pipeline.columns centers))
    \/ (exists c, In c Pipeline.required_sun /\ ~ In c (Pipeline.columns sun))
    \/ (exists c, In c Pipeline.required_meta /\ ~ In c (Pipeline.columns meta)) ->
    exists e,
      Pipeline.load w_start w_end centers sun meta = inl e
      /\ Pipeline.main to_utmK ym w_start w_end centers sun meta = inl e
      /\ ((exists c, In c Pipeline.need /\ ~ In c (Pipeline.columns centers)) ->
          exists cols,
            e = ValueError "Centers file missing columns" cols
            /\ (forall c, In c cols <->
                          In c Pipeline.need
                          /\ ~ In c (Pipeline.columns centers))
            /\ NoDup cols
            /\ StronglySorted (fun a b => String.leb a b = true) cols).
Proof.
  intros to_utmK ym w_start w_end centers sun meta Hmiss.
  destruct (Pipeline.load w_start w_end centers sun meta) as [e|res] eqn:Hload.
  - exists e. split; [reflexivity|].
    split; [now apply main_load_error|].
    intros Hc. exists (Pipeline.sorted (Pipeline.missing (Pipeline.columns centers))).
    split; [|apply sorted_missing].
    unfold Pipeline.load in Hload.
    rewrite (@check_centers_error (Pipeline.columns centers) Hc) in Hload. cbn [Pipeline.bind] in Hload.
    congruence.
  - exfalso. apply load_ok_columns in Hload.
    destruct Hload as (H1 & H2 & H3).
    destruct Hmiss as [(c & Hc & Hn)|[(c & Hc & Hn)|(c & Hc & Hn)]]; auto.
Qed.

Lemma load_aborts_on_missing_column_witness :
  exists e,
    Pipeline.load 0 100 Pipeline.short_centers
                  (Pipeline.mkTable [] []) (Pipeline.mkTable [] []) = inl e
    /\ Pipeline.main (fun lon lat => (lon, lat)) (fun _ => "2007-06"%string)
                     0 100 Pipeline.short_centers
                     (Pipeline.mkTable [] []) (Pipeline.mkTable [] []) = inl e
    /\ ((exists c, In c Pipeline.need
                   /\ ~ In c (Pipeline.columns Pipeline.short_centers)) ->
        exists cols,
          e = ValueError "Centers file missing columns" cols
          /\ (forall c, In c cols <->
                        In c Pipeline.need
                        /\ ~ In c (Pipeline.columns Pipeline.short_centers))
          /\ NoDup cols
          /\ StronglySorted (fun a b => String.leb a b = true) cols).
Proof.
  apply (@load_aborts_on_missing_column
           (fun lon lat => (lon, lat)) (fun _ => "2007-06"%string) 0 100
           Pipeline.short_centers (Pipeline.mkTable [] []) (Pipeline.mkTable [] [])).
  left. exists "rep_x_utmK"%string. split.
  - simpl. tauto.
  - simpl. intuition discriminate.
Defined.

(** The error for a centers file without [centroid_y_utmK] and
    [rep_x_utmK] names both. *)
Example check_centers_two_missing :
  Pipeline.check_centers (Pipeline.columns Pipeline.short_centers)
  = inl (ValueError "Centers file missing columns"
                            ["centroid_y_utmK"; "rep_x_utmK"]%string).
Proof. reflexivity. Qed.

(* ================================================================== *)
(** * Further properties of the segment resolver *)
(* ================================================================== *)

Section MetaExtra.
Import Meta Props.
Local Open Scope Z_scope.

Lemma clip_row_usable (ws we : Z) (r : RawMeta) :
  usable ws we r = true <-> exists s, clip_row ws we r = Some s.
Proof.
  unfold usable, clip_row.
  destruct (raw_station r), (raw_lat r), (raw_lon r);
    try destruct (_ && _); split; try discriminate; eauto;
    intros (s & H); discriminate.
Qed.

Lemma clip_row_fields (ws we : Z) (r : RawMeta) (s : Segment) :
  clip_row ws we r = Some s ->
  raw_station r = Some (station s) /\ raw_name r = name s
  /\ raw_lat r = Some (lat s) /\ raw_lon r = Some (lon s)
  /\ seg_start s = Z.max (fillna (raw_start r) ws) ws
  /\ seg_end s = Z.min (fillna (raw_end r) we) we.
Proof.
  unfold clip_row.
  destruct (raw_station r); [|discriminate].
  destruct (_ && _); [|discriminate].
  destruct (raw_lat r); [|discriminate].
  destruct (raw_lon r); [|discriminate].
  intros [= <-]. simpl. repeat split; reflexivity.
Qed.

Lemma clip_rows_In (ws we : Z) (meta : list RawMeta) (s : Segment) :
  In s (clip_rows ws we meta) <->
  exists r, In r meta /\ clip_row ws we r = Some s.
Proof.
  induction meta as [|r meta IH]; simpl.
  - split; [intros [] | intros (r & [] & _)].
  - destruct (clip_row ws we r) as [s0|] eqn:E; simpl; rewrite IH; split.
    + intros [<-|(r' & H1 & H2)]; eauto.
    + intros (r' & [<-|H1] & H2); [left; congruence | eauto].
    + intros (r' & H1 & H2); eauto.
    + intros (r' & [<-|H1] & H2); [congruence | eauto].
Qed.

Lemma clip_rows_length (ws we : Z) (meta : list RawMeta) :
  List.length (clip_rows ws we meta)
  = List.length (filter (usable ws we) meta).
Proof.
  induction meta as [|r meta IH]; simpl; [reflexivity|].
  destruct (clip_row ws we r) as [s|] eqn:E.
  - assert (H : usable ws we r = true) by (apply clip_row_usable; eauto).
    rewrite H. simpl. now rewrite IH.
  - destruct (usable ws we r) eqn:H; [|exact IH].
    apply clip_row_usable in H. destruct H as (s & H). congruence.
Qed.

(** Truncation writes [seg_end] only, and only downwards. *)
Lemma truncate_set_end (r : Segment) (later : list Segment) :
  exists e, truncate r later = set_seg_end r e /\ e <= seg_end r.
Proof.
  unfold truncate. destruct (next_start r later) as [ns|].
  - destruct (Z.geb_spec (seg_end r) ns).
    + exists (ns - 1). split; [reflexivity | lia].
    + exists (seg_end r). split; [now destruct r | lia].
  - exists (seg_end r). split; [now destruct r | lia].
Qed.

Lemma resolve_overlaps_rows (l : list Segment) (s : Segment) :
  In s (resolve_overlaps l) <->
  exists i r, nth_error l i = Some r /\ s = truncate r (skipn (S i) l).
Proof.
  split.
  - intro H. apply In_nth_error in H. destruct H as [i Hi].
    rewrite resolve_overlaps_nth in Hi.
    destruct (nth_error l i) as [r|] eqn:E; [|discriminate].
    injection Hi as <-. eauto.
  - intros (i & r & Hi & ->). apply (nth_error_In _ i).
    now rewrite resolve_overlaps_nth, Hi.
Qed.

Lemma resolve_overlaps_keys (l : list Segment) :
  map station_start (resolve_overlaps l) = map station_start l.
Proof.
  induction l as [|r l IH]; simpl; [reflexivity|]. rewrite IH. f_equal.
  destruct (truncate_fields r l) as (H1 & H2 & _).
  unfold station_start. now rewrite H1, H2.
Qed.

(** With distinct (station, start) keys in a sorted frame, no truncation
    crosses the start of the row it shortens. *)
Lemma resolve_overlaps_nonempty (l : list Segment) :
  StronglySorted (fun a b => key_leb a b = true) l ->
  NoDup (map station_start l) ->
  Forall (fun s => seg_start s <= seg_end s) l ->
  Forall (fun s => seg_start s <= seg_end s) (resolve_overlaps l).
Proof.
  induction 1 as [|r l Hs IH Hr]; intros Hnd Hall; simpl; [constructor|].
  inversion Hnd as [|? ? Hr_new Hnd']; subst.
  inversion Hall as [|? ? Hr_ok Hall']; subst.
  constructor; [|now apply IH].
  unfold truncate, next_start.
  destruct (find (fun m => station m =? station r) l) as [m|] eqn:F;
    [|exact Hr_ok].
  apply find_some in F. destruct F as [Hm E]. apply Z.eqb_eq in E.
  destruct (Z.geb_spec (seg_end r) (seg_start m)); [|exact Hr_ok].
  simpl. rewrite Forall_forall in Hr. specialize (Hr m Hm).
  apply key_leb_spec in Hr.
  assert (seg_start m <> seg_start r).
  { intro Eq. apply Hr_new. apply in_map_iff. exists m. split; [|exact Hm].
    unfold station_start. now rewrite E, Eq. }
  lia.
Qed.
End MetaExtra.

(** X1.  [prepare_meta] drops a metadata row only when its station id or a
    coordinate does not parse or its interval (missing dates defaulted to
    the window) misses the window: the frame returned has one row per
    usable input row, each with the station id, label and coordinates of
    its input row, [seg_start] the later of the row's start and the window
    start, and [seg_end] no later than the earlier of the row's end and the
    window end; resolving overlaps drops and adds nothing. *)
Theorem prepare_meta_keeps_usable_rows :
  forall (meta : list Meta.RawMeta) (window_start window_end : Z),
    let out := Meta.prepare_meta meta window_start window_end in
    List.length out
    = List.length (filter (Props.usable window_start window_end) meta)
    /\ (forall s, In s out ->
          exists r, In r meta
            /\ Props.usable window_start window_end r = true
            /\ Meta.raw_station r = Some (Meta.station s)
            /\ Meta.raw_name r = Meta.name s
            /\ Meta.raw_lat r = Some (Meta.lat s)
            /\ Meta.raw_lon r = Some (Meta.lon s)
            /\ Meta.seg_start s
               = Z.max (Meta.fillna (Meta.raw_start r) window_start) window_start
            /\ (Meta.seg_end s
                <= Z.min (Meta.fillna (Meta.raw_end r) window_end) window_end)%Z)
    /\ (forall r, In r meta ->
          Props.usable window_start window_end r = true ->
          exists s, In s out
            /\ Meta.raw_station r = Some (Meta.station s)
            /\ Meta.raw_name r = Meta.name s
            /\ Meta.raw_lat r = Some (Meta.lat s)
            /\ Meta.raw_lon r = Some (Meta.lon s)
            /\ Meta.seg_start s
               = Z.max (Meta.fillna (Meta.raw_start r) window_start)
                       window_start).
Proof.
  intros meta ws we out. unfold out, Meta.prepare_meta, Meta.sorted_segments.
  split; [|split].
  - now rewrite resolve_overlaps_length, sort_values_length, clip_rows_length.
  - intros s Hs. apply resolve_overlaps_rows in Hs.
    destruct Hs as (i & s0 & Hi & ->).
    apply nth_error_In, sort_values_In, clip_rows_In in Hi.
    destruct Hi as (r & Hr & Hclip).
    exists r. split; [exact Hr|].
    split; [apply clip_row_usable; eauto|].
    destruct (clip_row_fields _ _ _ Hclip) as (F1 & F2 & F3 & F4 & F5 & F6).
    destruct (truncate_set_end s0 (skipn (S i)
                (Frame.sort_values Meta.key_leb (Meta.clip_rows ws we meta))))
      as (e & -> & He).
    simpl. repeat split; auto. lia.
  - intros r Hr Hu. apply clip_row_usable in Hu. destruct Hu as (s0 & Hclip).
    assert (Hin : In s0 (Frame.sort_values Meta.key_leb
                           (Meta.clip_rows ws we meta)))
      by (apply sort_values_In, clip_rows_In; eauto).
    apply In_nth_error in Hin. destruct Hin as (i & Hi).
    destruct (clip_row_fields _ _ _ Hclip) as (F1 & F2 & F3 & F4 & F5 & _).
    destruct (truncate_set_end s0 (skipn (S i)
                (Frame.sort_values Meta.key_leb (Meta.clip_rows ws we meta))))
      as (e & He & _).
    exists (Meta.set_seg_end s0 e). split.
    + apply resolve_overlaps_rows. exists i, s0. split; [exact Hi | now rewrite He].
    + simpl. repeat split; assumption.
Qed.

(** X2.  When the window is not inverted, every metadata row has its start
    no later than its end (missing dates defaulted to the window), and no
    two rows returned share station id and [seg_start], every segment
    returned has [seg_start <= seg_end]: truncation never empties a
    segment. *)
Theorem prepare_meta_segments_nonempty :
  forall (meta : list Meta.RawMeta) (window_start window_end : Z),
    (window_start <= window_end)%Z ->
    (forall r, In r meta ->
       (Meta.fillna (Meta.raw_start r) window_start
        <= Meta.fillna (Meta.raw_end r) window_end)%Z) ->
    NoDup (map Props.station_start
               (Meta.prepare_meta meta window_start window_end)) ->
    Forall (fun s => (Meta.seg_start s <= Meta.seg_end s)%Z)
           (Meta.prepare_meta meta window_start window_end).
Proof.
  intros meta ws we Hw Hrows Hnd. unfold Meta.prepare_meta in *.
  rewrite resolve_overlaps_keys in Hnd.
  apply resolve_overlaps_nonempty; [apply sorted_segments_sorted | exact Hnd |].
  unfold Meta.sorted_segments. apply sort_values_Forall, Forall_forall.
  intros s Hs. apply clip_rows_In in Hs. destruct Hs as (r & Hr & Hclip).
  specialize (Hrows r Hr).
  destruct (clip_row_fields _ _ _ Hclip) as (_ & _ & _ & _ & -> & ->).
  unfold Meta.clip_row in Hclip.
  destruct (Meta.raw_station r); [|discriminate].
  destruct (Z.geb_spec (Meta.fillna (Meta.raw_end r) we) ws);
    destruct (Z.leb_spec (Meta.fillna (Meta.raw_start r) ws) we);
    simpl in Hclip; try discriminate.
  lia.
Qed.

Lemma prepare_meta_segments_nonempty_witness :
  Forall (fun s => (Meta.seg_start s <= Meta.seg_end s)%Z)
    (Meta.prepare_meta
       [Meta.mkRawMeta (Some 7%Z) "A" None (Some 120%Z) (Some 0%R) (Some 0%R);
        Meta.mkRawMeta (Some 7%Z) "B" (Some 110%Z) None (Some 1%R) (Some 1%R)]
       100 200).
Proof.
  apply prepare_meta_segments_nonempty.
  - lia.
  - intros r [<-|[<-|[]]]; simpl; lia.
  - repeat constructor; simpl; intuition discriminate.
Defined.

(** X3.  A segment that has the same station id and the same [seg_start]
    as the row sorted right after it covers no day after [prepare_meta],
    whatever its own end was: its [seg_end] is the earlier of its own end
    and the day before its [seg_start]. *)
Theorem prepare_meta_equal_start_voided :
  forall (meta : list Meta.RawMeta) (window_start window_end : Z)
         (i : nat) (a b : Meta.Segment),
    let sorted := Meta.sorted_segments window_start window_end meta in
    nth_error sorted i = Some a -> nth_error sorted (S i) = Some b ->
    Meta.station a = Meta.station b ->
    Meta.seg_start a = Meta.seg_start b ->
    let voided :=
      Meta.set_seg_end a (Z.min (Meta.seg_end a) (Meta.seg_start a - 1)) in
    nth_error (Meta.prepare_meta meta window_start window_end) i = Some voided
    /\ forall day, ~ Meta.covers voided day.
Proof.
  intros meta ws we i a b sorted Hi Hj Est Estart voided.
  unfold Meta.prepare_meta. fold sorted. split.
  - rewrite resolve_overlaps_nth, Hi. cbn [option_map].
    rewrite (skipn_nth_cons _ _ Hj).
    unfold Meta.truncate, Meta.next_start. cbn [find].
    rewrite Est, Z.eqb_refl, <- Estart. unfold voided.
    destruct (Z.geb_spec (Meta.seg_end a) (Meta.seg_start a)).
    + now rewrite Z.min_r by lia.
    + rewrite Z.min_l by lia. now destruct a.
  - intro day. unfold Meta.covers, voided. simpl. lia.
Qed.

Lemma prepare_meta_equal_start_voided_witness :
  (nth_error
     (Meta.prepare_meta
        [Meta.mkRawMeta (Some 7%Z) "A" (Some 50%Z) (Some 120%Z) (Some 0%R) (Some 0%R);
         Meta.mkRawMeta (Some 7%Z) "B" (Some 80%Z) (Some 150%Z) (Some 0%R) (Some 0%R)]
        100 200) 0
   = Some (Meta.mkSegment 7 "A" 100 99 0%R 0%R)
   /\ forall day, ~ Meta.covers (Meta.mkSegment 7 "A" 100 99 0%R 0%R) day)
  /\ (nth_error
        (Meta.prepare_meta
           [Meta.mkRawMeta (Some 7%Z) "A" (Some 150%Z) (Some 120%Z) (Some 0%R) (Some 0%R);
            Meta.mkRawMeta (Some 7%Z) "B" (Some 150%Z) (Some 180%Z) (Some 0%R) (Some 0%R)]
           100 200) 0
      = Some (Meta.mkSegment 7 "A" 150 120 0%R 0%R)
      /\ forall day, ~ Meta.covers (Meta.mkSegment 7 "A" 150 120 0%R 0%R) day).
Proof.
  split.
  - apply (@prepare_meta_equal_start_voided
             [Meta.mkRawMeta (Some 7%Z) "A" (Some 50%Z) (Some 120%Z) (Some 0%R) (Some 0%R);
              Meta.mkRawMeta (Some 7%Z) "B" (Some 80%Z) (Some 150%Z) (Some 0%R) (Some 0%R)]
             100 200 0 (Meta.mkSegment 7 "A" 100 120 0%R 0%R)
             (Meta.mkSegment 7 "B" 100 150 0%R 0%R)); reflexivity.
  - apply (@prepare_meta_equal_start_voided
             [Meta.mkRawMeta (Some 7%Z) "A" (Some 150%Z) (Some 120%Z) (Some 0%R) (Some 0%R);
              Meta.mkRawMeta (Some 7%Z) "B" (Some 150%Z) (Some 180%Z) (Some 0%R) (Some 0%R)]
             100 200 0 (Meta.mkSegment 7 "A" 150 120 0%R 0%R)
             (Meta.mkSegment 7 "B" 150 180 0%R 0%R)); reflexivity.
Defined.

(* ================================================================== *)
(** * Further properties of the segment attacher *)
(* ================================================================== *)

Lemma drop_duplicates_from_sorted (A : Type) (same : A -> A -> bool)
      (R : A -> A -> Prop) (l seen : list A) :
  StronglySorted R l ->
  StronglySorted R (Frame.drop_duplicates_from same seen l).
Proof.
  intro H. revert seen. induction H as [|x l Hs IH Hx]; intro seen; simpl;
    [constructor|].
  destruct (existsb (same x) seen); [apply IH|].
  constructor; [apply IH|].
  apply Forall_forall. intros y Hy. apply drop_duplicates_from_In in Hy.
  rewrite Forall_forall in Hx. now apply Hx.
Qed.

Section AttachExtra.
Import Meta Attach Props.
Local Open Scope Z_scope.

Lemma attach_sorted (sun : list Obs) (meta : list Segment) :
  StronglySorted (fun a b => sort_leb a b = true)
                 (attach_segment_to_sun sun meta).
Proof.
  unfold attach_segment_to_sun, Frame.drop_duplicates.
  apply drop_duplicates_from_sorted.
  apply (sort_values_sorted sort_leb sort_leb_total sort_leb_trans).
Qed.

Lemma StronglySorted_and (A : Type) (R S : A -> A -> Prop) (l : list A) :
  StronglySorted R l -> StronglySorted S l ->
  StronglySorted (fun a b => R a b /\ S a b) l.
Proof.
  induction 1 as [|x l Hs IH Hx]; intro H; [constructor|].
  inversion H as [|? ? Hs' Hx']; subst. constructor; [now apply IH|].
  rewrite Forall_forall in *. auto.
Qed.

Lemma attach_strictly_sorted (sun : list Obs) (meta : list Segment) :
  StronglySorted (fun a b => key_lt (station_day a) (station_day b))
                 (attach_segment_to_sun sun meta).
Proof.
  eapply StronglySorted_weaken;
    [|apply StronglySorted_and;
      [apply attach_sorted | apply attach_distinct_keys]].
  intros a b [Hle Hne]. simpl in *. apply sort_leb_spec in Hle.
  unfold key_lt, station_day in *. simpl.
  destruct Hle as [H|[E [H|[E' _]]]]; auto.
  exfalso. apply Hne. now rewrite E, E'.
Qed.

(** Two segments of a resolved frame that both cover a day of one station
    are one row. *)
Lemma prepare_meta_cover_unique (meta : list RawMeta) (ws we : Z)
      (a b : Segment) (day : Z) :
  In a (prepare_meta meta ws we) -> In b (prepare_meta meta ws we) ->
  station a = station b -> covers a day -> covers b day -> a = b.
Proof.
  intros Ha Hb Est Ca Cb.
  apply In_nth_error in Ha, Hb. destruct Ha as [i Hi], Hb as [j Hj].
  pose proof (resolve_overlaps_before (sorted_segments_sorted ws we meta)) as Hd.
  fold (prepare_meta meta ws we) in Hd. unfold covers in *.
  destruct (Nat.lt_trichotomy i j) as [Hlt|[->|Hlt]].
  - pose proof (StronglySorted_nth Hd Hlt Hi Hj Est). lia.
  - congruence.
  - pose proof (StronglySorted_nth Hd Hlt Hj Hi (eq_sym Est)). lia.
Qed.
End AttachExtra.

(** X4.  The frame [attach_segment_to_sun] returns is ordered by station
    id, then date, with every (station id, date) strictly after the one
    before it. *)
Theorem attach_segment_to_sun_ordered :
  forall (sun : list Attach.Obs) (meta : list Meta.Segment),
    StronglySorted
      (fun a b => Props.key_lt (Attach.station_day a) (Attach.station_day b))
      (Attach.attach_segment_to_sun sun meta)
    /\ forall i j a b,
         (i < j)%nat ->
         nth_error (Attach.attach_segment_to_sun sun meta) i = Some a ->
         nth_error (Attach.attach_segment_to_sun sun meta) j = Some b ->
         (Attach.obs_station (Attach.cand_obs a)
          <= Attach.obs_station (Attach.cand_obs b))%Z
         /\ (Attach.obs_station (Attach.cand_obs a)
             = Attach.obs_station (Attach.cand_obs b) ->
             (Attach.obs_date (Attach.cand_obs a)
              < Attach.obs_date (Attach.cand_obs b))%Z).
Proof.
  intros sun meta. split; [apply attach_strictly_sorted|].
  intros i j a b Hij Hi Hj.
  pose proof (StronglySorted_nth (attach_strictly_sorted sun meta) Hij Hi Hj) as H.
  unfold Props.key_lt, Attach.station_day in H. simpl in H. lia.
Qed.

(** X5.  On metadata resolved by [prepare_meta], an attached observation
    has exactly one matching segment: the segment its row carries is the
    only segment of the resolved frame with its station id that covers its
    date. *)
Theorem attach_resolved_single_match :
  forall (sun : list Attach.Obs) (meta : list Meta.RawMeta)
         (window_start window_end : Z) (c : Attach.Candidate) (s : Meta.Segment),
    let segments := Meta.prepare_meta meta window_start window_end in
    In c (Attach.attach_segment_to_sun sun segments) ->
    In s segments ->
    Attach.matches (Attach.cand_obs c) s ->
    s = Attach.cand_seg c.
Proof.
  intros sun meta ws we c s segments Hc Hs Hm.
  apply attach_In in Hc. destruct Hc as (_ & Hseg & Hmc).
  destruct Hm as [E1 C1], Hmc as [E2 C2].
  apply (@prepare_meta_cover_unique meta ws we s (Attach.cand_seg c)
           (Attach.obs_date (Attach.cand_obs c))); auto.
  congruence.
Qed.

Lemma attach_resolved_single_match_witness :
  Meta.mkSegment 7 "B" 110 200 1%R 1%R
  = Attach.cand_seg
      (Attach.mkCandidate (Attach.mkObs 7 "B" 115 (Some 2%R))
                          (Meta.mkSegment 7 "B" 110 200 1%R 1%R)).
Proof.
  apply (@attach_resolved_single_match
           [Attach.mkObs 7 "B" 115 (Some 2%R)]
           [Meta.mkRawMeta (Some 7%Z) "A" None (Some 120%Z) (Some 0%R) (Some 0%R);
            Meta.mkRawMeta (Some 7%Z) "B" (Some 110%Z) None (Some 1%R) (Some 1%R)]
           100 200).
  - left. reflexivity.
  - right. left. reflexivity.
  - split; simpl; [reflexivity | lia].
Defined.

(** X6.  [attach_segment_to_sun] never returns more rows than it was given
    observations, and returns none when no segment is given. *)
Theorem attach_segment_to_sun_no_more_rows :
  forall (sun : list Attach.Obs) (meta : list Meta.Segment),
    (List.length (Attach.attach_segment_to_sun sun meta) <= List.length sun)%nat
    /\ Attach.attach_segment_to_sun sun [] = [].
Proof.
  intros sun meta. split.
  - rewrite <- (length_map Attach.station_day),
            <- (length_map (fun o => (Attach.obs_station o, Attach.obs_date o)) sun).
    apply NoDup_incl_length.
    + apply StronglySorted_NoDup_map, attach_distinct_keys.
    + intros k Hk. apply in_map_iff in Hk. destruct Hk as (c & <- & Hc).
      apply attach_In in Hc. destruct Hc as (Ho & _).
      apply in_map_iff. exists (Attach.cand_obs c). split; [reflexivity | exact Ho].
  - destruct (Attach.attach_segment_to_sun sun []) as [|c l] eqn:E; [reflexivity|].
    assert (Hc : In c (Attach.attach_segment_to_sun sun [])) by (rewrite E; now left).
    apply attach_In in Hc. destruct Hc as (_ & [] & _).
Qed.

(* ================================================================== *)
(** * Further properties of the daily loop *)
(* ================================================================== *)

Section DailyExtra.
Import Pipeline Props.

Lemma nth_error_combine (A B : Type) (l : list A) (l' : list B) (i : nat)
      (a : A) (b : B) :
  nth_error (combine l l') i = Some (a, b) <->
  nth_error l i = Some a /\ nth_error l' i = Some b.
Proof.
  revert l' i. induction l as [|x l IH]; intros [|y l'] [|i]; simpl;
    try (split; [discriminate | intros [H1 H2]; discriminate]).
  - split; [intros [= -> ->]; auto | intros [[= ->] [= ->]]; reflexivity].
  - apply IH.
Qed.

Lemma nth_map_error (A B : Type) (f : A -> B) (l : list A) (i : nat)
      (a : A) (d : B) :
  nth_error l i = Some a -> nth i (map f l) d = f a.
Proof.
  intro H. apply nth_error_nth. now rewrite nth_error_map, H.
Qed.

(** What [nearest_station_for_day] returns for region [i], in terms of the
    candidates' points. *)
Lemma nearest_points (rx ry stx sty : list R) (idx : list nat)
      (dist_m : list R) :
  List.length stx = List.length sty ->
  Nearest.nearest_station_for_day rx ry stx sty = inr (idx, dist_m) ->
  forall i x y,
    nth_error rx i = Some x -> nth_error ry i = Some y ->
    exists k,
      nth_error idx i = Some k
      /\ (k < List.length stx)%nat
      /\ nth_error dist_m i
         = Some (Nearest.hypot (x - nth k stx 0%R) (y - nth k sty 0%R))
      /\ (forall j, (j < List.length stx)%nat ->
            (Nearest.hypot (x - nth k stx 0) (y - nth k sty 0)
             <= Nearest.hypot (x - nth j stx 0) (y - nth j sty 0))%R)
      /\ (forall j, (j < k)%nat ->
            (Nearest.hypot (x - nth k stx 0) (y - nth k sty 0)
             < Nearest.hypot (x - nth j stx 0) (y - nth j sty 0))%R).
Proof.
  intros Hs Hres i x y Hx Hy.
  assert (Hr : List.length rx = List.length ry).
  { unfold Nearest.nearest_station_for_day in Hres.
    destruct (Nat.eqb_spec (List.length rx) (List.length ry)); [assumption|].
    simpl in Hres. discriminate. }
  assert (Hne : stx <> []).
  { intros ->. unfold Nearest.nearest_station_for_day in Hres.
    destruct (negb _); discriminate. }
  destruct (@nearest_station_for_day_rows rx ry stx sty Hr Hs Hne)
    as (idx' & Hres' & Hlen & Hdl & Hrows & Hnth).
  rewrite Hres in Hres'. injection Hres' as -> ->.
  set (dist := Nearest.dist_matrix rx ry stx sty) in *.
  pose proof (dist_matrix_nth rx ry stx sty i Hx Hy) as Hrow. fold dist in Hrow.
  destruct (Hnth _ _ Hrow) as (k & Hk & Hmin).
  set (row := map (fun s => Nearest.hypot (x - fst s) (y - snd s))
                  (combine stx sty)) in *.
  assert (Hrow_ne : row <> []).
  { rewrite Forall_forall in Hrows. apply Hrows.
    eapply nth_error_In; eassumption. }
  destruct (argmin_spec Hrow_ne) as (k' & Hk' & Hlt & Hle & Hfirst).
  assert (k' = k) by congruence. subst k'.
  assert (Hrl : List.length row = List.length stx).
  { unfold row. rewrite length_map, length_combine. lia. }
  assert (Hval : forall j, (j < List.length stx)%nat ->
            nth j row 0%R
            = Nearest.hypot (x - nth j stx 0%R) (y - nth j sty 0%R)).
  { intros j Hj. unfold row. now apply dist_row_nth. }
  exists k. split; [exact Hk|]. split; [lia|].
  split.
  { rewrite (@take_along_nth dist idx' i k row Hrow Hk). f_equal. apply Hval. lia. }
  split.
  - intros j Hj. rewrite <- !Hval by lia. apply Hle. lia.
  - intros j Hj. rewrite <- !Hval by lia. now apply Hfirst.
Qed.

(** One policy's columns of a record built from the result of the nearest
    computation. *)
Lemma assigned_from_nearest (m : Method) (centers : list Region)
      (g : list SunSeg) (idx : list nat) (dist_m : list R)
      (i : nat) (reg : Region) (r : RegionDay) :
  Nearest.nearest_station_for_day
    (map (ref_x m) centers) (map (ref_y m) centers)
    (map st_x_utmK g) (map st_y_utmK g) = inr (idx, dist_m) ->
  nth_error centers i = Some reg ->
  (forall k d, nth_error idx i = Some k -> nth_error dist_m i = Some d ->
     station_of m r = nth k (map sun_station g) 0%Z
     /\ sun_of m r = nth k (map sun_value g) None
     /\ dist_of m r = d) ->
  exists k c, assigned m reg g r k c.
Proof.
  intros Hres Hreg Hfields.
  assert (Hlen : List.length (map st_x_utmK g) = List.length (map st_y_utmK g))
    by now rewrite !length_map.
  assert (Hx : nth_error (map (ref_x m) centers) i = Some (ref_x m reg))
    by (rewrite nth_error_map, Hreg; reflexivity).
  assert (Hy : nth_error (map (ref_y m) centers) i = Some (ref_y m reg))
    by (rewrite nth_error_map, Hreg; reflexivity).
  destruct (@nearest_points (map (ref_x m) centers) (map (ref_y m) centers)
              (map st_x_utmK g) (map st_y_utmK g) idx dist_m Hlen Hres
              i (ref_x m reg) (ref_y m reg) Hx Hy)
    as (k & Hk & Hlt & Hd & Hmin & Hfirst).
  rewrite length_map in Hlt, Hmin.
  destruct (nth_error g k) as [c|] eqn:Hc;
    [|apply nth_error_None in Hc; lia].
  destruct (Hfields k _ Hk Hd) as (F1 & F2 & F3).
  assert (Hpt : forall j c', nth_error g j = Some c' ->
            Nearest.hypot (ref_x m reg - nth j (map st_x_utmK g) 0%R)
                          (ref_y m reg - nth j (map st_y_utmK g) 0%R)
            = distance m reg c').
  { intros j c' Hj. unfold distance.
    now rewrite (nth_map_error st_x_utmK _ _ 0%R Hj),
                (nth_map_error st_y_utmK _ _ 0%R Hj). }
  exists k, c. unfold assigned.
  split; [exact Hc|].
  split; [now rewrite F1, (nth_map_error sun_station _ _ 0%Z Hc)|].
  split; [now rewrite F2, (nth_map_error sun_value _ _ None Hc)|].
  split; [now rewrite F3, (Hpt k c Hc)|].
  split.
  - intros j c' Hj. rewrite <- (Hpt k c Hc), <- (Hpt j c' Hj).
    apply Hmin. apply nth_error_Some. congruence.
  - intros j c' Hjk Hj. rewrite <- (Hpt k c Hc), <- (Hpt j c' Hj).
    now apply Hfirst.
Qed.

(** The rows of the frame of one day. *)
Lemma day_frame_record (centers : list Region) (day : Z) (g : list SunSeg)
      (f : list RegionDay) (i : nat) (r : RegionDay) :
  day_frame centers day g = inr f ->
  nth_error f i = Some r ->
  exists reg,
    nth_error centers i = Some reg
    /\ rd_date r = day
    /\ record_region r = region_id reg
    /\ forall m, exists k c, assigned m reg g r k c.
Proof.
  unfold day_frame. intros Hf Hr.
  destruct (Nearest.nearest_station_for_day (map centroid_x_utmK centers) _ _ _)
    as [e|[ic dc]] eqn:Hc; [discriminate|].
  destruct (Nearest.nearest_station_for_day (map rep_x_utmK centers) _ _ _)
    as [e|[ir dr]] eqn:Hrp; [discriminate|].
  cbn [bind fst snd] in Hf. injection Hf as <-.
  rewrite nth_error_map in Hr.
  destruct (nth_error (combine centers _) i) as [[reg [[kc d_c] [kr d_r]]]|] eqn:Hrow;
    [|discriminate].
  injection Hr as <-.
  apply nth_error_combine in Hrow. destruct Hrow as [Hreg Hrow].
  apply nth_error_combine in Hrow. destruct Hrow as [Hrc Hrr].
  apply nth_error_combine in Hrc, Hrr.
  destruct Hrc as [Hkc Hdc], Hrr as [Hkr Hdr].
  exists reg. split; [exact Hreg|]. split; [reflexivity|].
  split; [reflexivity|].
  intros [|].
  - apply (@assigned_from_nearest centroid centers g ic dc i reg); auto.
    intros k d Hk Hd. cbn [fst snd station_of sun_of dist_of
                           station_id_centroid sun_hr_centroid dist_m_centroid].
    rewrite Hkc in Hk. rewrite Hdc in Hd.
    injection Hk as ->. injection Hd as ->. auto.
  - apply (@assigned_from_nearest rep centers g ir dr i reg); auto.
    intros k d Hk Hd. cbn [fst snd station_of sun_of dist_of
                           station_id_rep sun_hr_rep dist_m_rep].
    rewrite Hkr in Hk. rewrite Hdr in Hd.
    injection Hk as ->. injection Hd as ->. auto.
Qed.

Lemma day_loop_In (centers : list Region) (sun_seg : list SunSeg)
      (ds : list Z) (fs : list (list RegionDay)) (f : list RegionDay) :
  day_loop centers sun_seg ds = inr fs -> In f fs ->
  exists day, In day ds
    /\ day_frame centers day (day_group day sun_seg) = inr f.
Proof.
  revert fs. induction ds as [|day ds IH]; intros fs H Hin; simpl in H.
  - injection H as <-. destruct Hin.
  - destruct (day_frame centers day (day_group day sun_seg)) as [e|f0] eqn:Hf;
      [discriminate|].
    cbn [bind] in H.
    destruct (day_loop centers sun_seg ds) as [e|fs0] eqn:Hl; [discriminate|].
    cbn [bind] in H. injection H as <-.
    destruct Hin as [<-|Hin].
    + exists day. split; [now left | exact Hf].
    + destruct (IH fs0 eq_refl Hin) as (d & Hd & Hfd).
      exists d. split; [now right | exact Hfd].
Qed.

Lemma compute_region_day_frames (centers : list Region)
      (sun_seg : list SunSeg) (region_day : list RegionDay) :
  compute_region_day centers sun_seg = inr region_day ->
  exists fs, day_loop centers sun_seg (days sun_seg) = inr fs
             /\ region_day = List.concat fs.
Proof.
  unfold compute_region_day.
  destruct (day_loop centers sun_seg (days sun_seg)) as [e|fs]; [discriminate|].
  cbn [bind]. unfold pd_concat. destruct fs; [discriminate|].
  intros [= <-]. eauto.
Qed.

(** Every record of [region_day] is the record of a region of the centers
    file, built from the group of its day. *)
Lemma region_day_record (centers : list Region) (sun_seg : list SunSeg)
      (region_day : list RegionDay) (r : RegionDay) :
  compute_region_day centers sun_seg = inr region_day ->
  In r region_day ->
  exists reg,
    In reg centers
    /\ record_region r = region_id reg
    /\ has_row (rd_date r) sun_seg = true
    /\ forall m, exists k c,
         assigned m reg (day_group (rd_date r) sun_seg) r k c.
Proof.
  intros H Hr.
  destruct (@compute_region_day_frames centers sun_seg region_day H)
    as (fs & Hfs & ->).
  apply in_concat in Hr. destruct Hr as (f & Hf & Hr).
  destruct (@day_loop_In centers sun_seg (days sun_seg) fs f Hfs Hf)
    as (day & Hday & Hframe).
  apply In_nth_error in Hr. destruct Hr as (i & Hi).
  destruct (@day_frame_record centers day (day_group day sun_seg) f i r
              Hframe Hi) as (reg & Hreg & Hd & Hid & Has).
  exists reg. subst day.
  split; [eapply nth_error_In; eassumption|].
  split; [exact Hid|]. split; [now apply days_In | exact Has].
Qed.

Lemma day_group_In (day : Z) (sun_seg : list SunSeg) (c : SunSeg) :
  In c (day_group day sun_seg) <-> In c sun_seg /\ sun_date c = day.
Proof. unfold day_group. now rewrite filter_In, Z.eqb_eq. Qed.
End DailyExtra.

(** X7.  Every record the daily loop produces belongs to a region of the
    centers file and, under each policy, holds one candidate of its day:
    the record's station id and measurement are that candidate's (the
    measurement as it is, absent or not), its distance is the straight-line
    distance from the region's reference point to that candidate, and no
    candidate of that day is nearer to the reference point. *)
Theorem region_day_record_is_nearest_candidate :
  forall (centers : list Pipeline.Region) (sun_seg : list Pipeline.SunSeg)
         (region_day : list Pipeline.RegionDay) (r : Pipeline.RegionDay),
    Pipeline.compute_region_day centers sun_seg = inr region_day ->
    In r region_day ->
    exists reg,
      In reg centers
      /\ Pipeline.record_region r = Pipeline.region_id reg
      /\ forall m, exists c,
           In c sun_seg
           /\ Pipeline.sun_date c = Pipeline.rd_date r
           /\ Pipeline.station_of m r = Pipeline.sun_station c
           /\ Pipeline.sun_of m r = Pipeline.sun_value c
           /\ Pipeline.dist_of m r = Props.distance m reg c
           /\ forall c', In c' sun_seg ->
                Pipeline.sun_date c' = Pipeline.rd_date r ->
                (Props.distance m reg c <= Props.distance m reg c')%R.
Proof.
  intros centers sun_seg region_day r H Hr.
  destruct (@region_day_record centers sun_seg region_day r H Hr) as (reg & Hreg & Hid & _ & Has).
  exists reg. split; [exact Hreg|]. split; [exact Hid|].
  intro m. destruct (Has m) as (k & c & Hk & F1 & F2 & F3 & Hmin & _).
  assert (Hc : In c (Pipeline.day_group (Pipeline.rd_date r) sun_seg))
    by (eapply nth_error_In; eassumption).
  apply day_group_In in Hc. destruct Hc as [Hc Hd].
  exists c. repeat (split; [assumption|]).
  intros c' Hc' Hd'.
  assert (Hin : In c' (Pipeline.day_group (Pipeline.rd_date r) sun_seg))
    by (apply day_group_In; auto).
  apply In_nth_error in Hin. destruct Hin as (j & Hj). eapply Hmin; eassumption.
Qed.

Section TwoDay.
Import Nearest Pipeline Props.
Local Open Scope R_scope.

Lemma hypot_lt_sq (a b c d : R) :
  a * a + b * b < c * c + d * d -> hypot a b < hypot c d.
Proof.
  intro H. unfold hypot. apply sqrt_lt_1_alt. split; [nra | exact H].
Qed.

Lemma hypot_le_sq (a b c d : R) :
  a * a + b * b <= c * c + d * d -> hypot a b <= hypot c d.
Proof. intro H. unfold hypot. now apply sqrt_le_1_alt. Qed.

Lemma Rltb_hypot_true (a b c d : R) :
  a * a + b * b < c * c + d * d -> Rltb (hypot a b) (hypot c d) = true.
Proof. intro H. apply Rltb_spec. now apply hypot_lt_sq. Qed.

Lemma Rltb_hypot_false (a b c d : R) :
  c * c + d * d <= a * a + b * b -> Rltb (hypot a b) (hypot c d) = false.
Proof. intro H. apply Rltb_false. now apply hypot_le_sq. Qed.

Lemma two_day_pool :
  two_day_sun_seg = [two_day_4_10; two_day_9_10; two_day_9_11; two_day_12_11].
Proof. reflexivity. Qed.

Lemma two_day_frame_10 :
  day_frame two_day_centers 10 [two_day_4_10; two_day_9_10]
  = inr [two_day_A_10; two_day_B_10].
Proof.
  unfold day_frame, two_day_centers, two_day_A, two_day_B,
    two_day_4_10, two_day_9_10, nearest_station_for_day, dist_matrix.
  cbn [map st_x_utmK st_y_utmK centroid_x_utmK centroid_y_utmK
       rep_x_utmK rep_y_utmK List.length Nat.eqb andb negb combine fst snd
       argmin_rows argmin argmin_from].
  rewrite (@Rltb_hypot_false (0 - 4) (0 - 3) (0 - 3) (0 - 4)) by lra.
  rewrite (@Rltb_hypot_true (10 - 4) (0 - 3) (10 - 3) (0 - 4)) by lra.
  rewrite (@Rltb_hypot_true (1 - 4) (0 - 3) (1 - 3) (0 - 4)) by lra.
  reflexivity.
Qed.

Lemma two_day_frame_11 :
  day_frame two_day_centers 11 [two_day_9_11; two_day_12_11]
  = inr [two_day_A_11; two_day_B_11].
Proof.
  unfold day_frame, two_day_centers, two_day_A, two_day_B,
    two_day_9_11, two_day_12_11, nearest_station_for_day, dist_matrix.
  cbn [map st_x_utmK st_y_utmK centroid_x_utmK centroid_y_utmK
       rep_x_utmK rep_y_utmK List.length Nat.eqb andb negb combine fst snd
       argmin_rows argmin argmin_from].
  rewrite (@Rltb_hypot_false (0 - 10) (0 - 1) (0 - 4) (0 - 3)) by lra.
  rewrite (@Rltb_hypot_false (1 - 10) (0 - 1) (1 - 4) (0 - 3)) by lra.
  rewrite (@Rltb_hypot_true (10 - 10) (0 - 1) (10 - 4) (0 - 3)) by lra.
  reflexivity.
Qed.

(** The stations are listed by id within a day, whatever the order of the
    sunshine file; region A gets station 4 under the centroid policy on
    day 10 (a tie with station 9) and station 9 under the other policy;
    region B gets station 12 on day 11, whose measurement is absent. *)
Lemma two_day_compute :
  compute_region_day two_day_centers two_day_sun_seg = inr two_day_region_day.
Proof.
  unfold compute_region_day. rewrite two_day_pool.
  change (days [two_day_4_10; two_day_9_10; two_day_9_11; two_day_12_11])
    with [10%Z; 11%Z].
  cbn [day_loop].
  change (day_group 10 [two_day_4_10; two_day_9_10; two_day_9_11; two_day_12_11])
    with [two_day_4_10; two_day_9_10].
  change (day_group 11 [two_day_4_10; two_day_9_10; two_day_9_11; two_day_12_11])
    with [two_day_9_11; two_day_12_11].
  rewrite two_day_frame_10, two_day_frame_11. reflexivity.
Qed.
End TwoDay.

Lemma region_day_record_is_nearest_candidate_witness :
  exists reg,
    In reg Props.two_day_centers
    /\ Pipeline.record_region Props.two_day_B_11 = Pipeline.region_id reg
    /\ forall m, exists c,
         In c Props.two_day_sun_seg
         /\ Pipeline.sun_date c = Pipeline.rd_date Props.two_day_B_11
         /\ Pipeline.station_of m Props.two_day_B_11 = Pipeline.sun_station c
         /\ Pipeline.sun_of m Props.two_day_B_11 = Pipeline.sun_value c
         /\ Pipeline.dist_of m Props.two_day_B_11 = Props.distance m reg c
         /\ forall c', In c' Props.two_day_sun_seg ->
              Pipeline.sun_date c' = Pipeline.rd_date Props.two_day_B_11 ->
              (Props.distance m reg c <= Props.distance m reg c')%R.
Proof.
  apply (@region_day_record_is_nearest_candidate
           Props.two_day_centers Props.two_day_sun_seg
           Props.two_day_region_day Props.two_day_B_11).
  - exact two_day_compute.
  - right. right. right. left. reflexivity.
Defined.

Section TieBreak.
Import Pipeline Props.

Lemma day_group_station_sorted (to_utmK : R -> R -> R * R)
      (sun : list Attach.Obs) (meta : list Meta.Segment) (day : Z) :
  StronglySorted (fun a b => (sun_station a < sun_station b)%Z)
    (day_group day (add_utmK to_utmK (Attach.attach_segment_to_sun sun meta))).
Proof.
  unfold day_group, add_utmK.
  eapply StronglySorted_weaken;
    [|apply StronglySorted_filter,
        (StronglySorted_map _
           (fun a b => key_lt (Attach.station_day (cand a))
                              (Attach.station_day (cand b))));
      apply (attach_strictly_sorted sun meta)].
  intros a b (Hlt & Ha & Hb). apply Z.eqb_eq in Ha, Hb.
  unfold key_lt, Attach.station_day, sun_station, sun_date in *. simpl in Hlt.
  lia.
Qed.

End TieBreak.

(** X8.  When the candidates come from [attach_segment_to_sun], a tie in
    distance goes to the lowest station id: any candidate of the record's
    day that is exactly as far from the region's reference point as the
    assigned station has a station id at least as large. *)
Theorem region_day_tie_lowest_station :
  forall (to_utmK : R -> R -> R * R) (sun : list Attach.Obs)
         (meta : list Meta.Segment) (centers : list Pipeline.Region)
         (region_day : list Pipeline.RegionDay) (r : Pipeline.RegionDay),
    let sun_seg :=
      Pipeline.add_utmK to_utmK (Attach.attach_segment_to_sun sun meta) in
    Pipeline.compute_region_day centers sun_seg = inr region_day ->
    In r region_day ->
    exists reg,
      In reg centers
      /\ Pipeline.record_region r = Pipeline.region_id reg
      /\ forall m c',
           In c' sun_seg ->
           Pipeline.sun_date c' = Pipeline.rd_date r ->
           Props.distance m reg c' = Pipeline.dist_of m r ->
           (Pipeline.station_of m r <= Pipeline.sun_station c')%Z.
Proof.
  intros to_utmK sun meta centers region_day r sun_seg H Hr.
  destruct (@region_day_record centers sun_seg region_day r H Hr) as (reg & Hreg & Hid & _ & Has).
  exists reg. split; [exact Hreg|]. split; [exact Hid|].
  intros m c' Hc' Hd' Hdist.
  destruct (Has m) as (k & c & Hk & F1 & _ & F3 & _ & Hfirst).
  assert (Hin : In c' (Pipeline.day_group (Pipeline.rd_date r) sun_seg))
    by (apply day_group_In; auto).
  apply In_nth_error in Hin. destruct Hin as (j & Hj).
  rewrite F1.
  destruct (Nat.lt_trichotomy j k) as [Hlt|[->|Hlt]].
  - pose proof (Hfirst j c' Hlt Hj). rewrite <- F3 in *. lra.
  - assert (c = c') by congruence. subst. lia.
  - pose proof (StronglySorted_nth
                  (day_group_station_sorted to_utmK sun meta (Pipeline.rd_date r))
                  Hlt Hk Hj). simpl in *. lia.
Qed.

Lemma region_day_tie_lowest_station_witness :
  Props.distance Pipeline.centroid Props.two_day_A Props.two_day_9_10
  = Pipeline.dist_of Pipeline.centroid Props.two_day_A_10
  /\ Pipeline.station_of Pipeline.centroid Props.two_day_A_10 = 4%Z
  /\ Pipeline.sun_station Props.two_day_9_10 = 9%Z
  /\ exists reg,
       In reg Props.two_day_centers
       /\ Pipeline.record_region Props.two_day_A_10 = Pipeline.region_id reg
       /\ forall m c',
            In c' (Pipeline.add_utmK (fun lon lat => (lon, lat))
                     (Attach.attach_segment_to_sun
                        Props.two_day_sun Props.two_day_meta)) ->
            Pipeline.sun_date c' = Pipeline.rd_date Props.two_day_A_10 ->
            Props.distance m reg c' = Pipeline.dist_of m Props.two_day_A_10 ->
            (Pipeline.station_of m Props.two_day_A_10
             <= Pipeline.sun_station c')%Z.
Proof.
  split; [|split; [reflexivity | split; [reflexivity|]]].
  - change (Nearest.hypot (0 - 4) (0 - 3) = Nearest.hypot (0 - 3) (0 - 4)).
    unfold Nearest.hypot. f_equal. lra.
  - apply (@region_day_tie_lowest_station
             (fun lon lat => (lon, lat)) Props.two_day_sun Props.two_day_meta
             Props.two_day_centers Props.two_day_region_day
             Props.two_day_A_10).
    + exact two_day_compute.
    + left. reflexivity.
Defined.

Section Chronological.
Import Pipeline.

Lemma Z_leb_total (a b : Z) : Z.leb a b = true \/ Z.leb b a = true.
Proof. rewrite !Z.leb_le. lia. Qed.

Lemma Z_leb_trans (a b c : Z) :
  Z.leb a b = true -> Z.leb b c = true -> Z.leb a c = true.
Proof. rewrite !Z.leb_le. lia. Qed.

Lemma days_increasing (sun_seg : list SunSeg) :
  StronglySorted Z.lt (days sun_seg).
Proof.
  unfold days, Frame.unique_keys, Frame.drop_duplicates.
  eapply StronglySorted_weaken;
    [|apply StronglySorted_and;
      [apply drop_duplicates_from_sorted,
         (sort_values_sorted Z.leb Z_leb_total Z_leb_trans)
      |apply drop_duplicates_from_distinct]].
  intros a b [Hle Hne]. unfold Frame.le in Hle. simpl in Hne.
  apply Z.leb_le in Hle. apply Z.eqb_neq in Hne. lia.
Qed.

Lemma concat_frames_sorted (ds : list Z) (fs : list (list RegionDay)) :
  StronglySorted Z.lt ds ->
  Forall2 (fun d f => Forall (fun r => rd_date r = d) f) ds fs ->
  StronglySorted (fun a b => (rd_date a <= rd_date b)%Z) (List.concat fs).
Proof.
  intros Hs H. induction H as [|d f ds fs Hf Hrest IH]; [constructor|].
  inversion Hs as [|? ? Hs' Hd]; subst. specialize (IH Hs').
  cbn [List.concat].
  assert (Hlater : Forall (fun r => (d < rd_date r)%Z) (List.concat fs)).
  { clear IH Hs Hs'. induction Hrest as [|d' f' ds' fs' Hf' Hrest' IH'];
      [constructor|].
    inversion Hd as [|? ? Hd' Hds']; subst.
    cbn [List.concat]. apply Forall_app. split; [|now apply IH'].
    eapply Forall_impl; [|exact Hf']. intros r ->. exact Hd'. }
  clear Hrest Hs Hs' Hd. induction Hf as [|r f Hr Hf IHf]; [exact IH|].
  cbn [app]. constructor; [exact IHf|].
  apply Forall_app. split.
  - eapply Forall_impl; [|exact Hf]. intros r' ->. lia.
  - eapply Forall_impl; [|exact Hlater]. intros r' H'. simpl in H'. lia.
Qed.
End Chronological.

(** X9.  The records of [region_day] are in chronological order: no record
    is dated before a record that precedes it in the frame. *)
Theorem region_day_chronological :
  forall (centers : list Pipeline.Region) (sun_seg : list Pipeline.SunSeg)
         (region_day : list Pipeline.RegionDay),
    Pipeline.compute_region_day centers sun_seg = inr region_day ->
    StronglySorted
      (fun a b => (Pipeline.rd_date a <= Pipeline.rd_date b)%Z) region_day.
Proof.
  intros centers sun_seg region_day H.
  destruct (@compute_region_day_frames centers sun_seg region_day H)
    as (fs & Hfs & ->).
  destruct (@day_loop_frames centers sun_seg (Pipeline.days sun_seg))
    as (fs' & Hfs' & Hall).
  { apply Forall_forall. intros day. apply days_In. }
  rewrite Hfs in Hfs'. injection Hfs' as <-.
  apply (@concat_frames_sorted (Pipeline.days sun_seg)).
  - apply days_increasing.
  - eapply Forall2_impl; [|exact Hall]. intros d f [_ Hd]. exact Hd.
Qed.

Lemma region_day_chronological_witness :
  StronglySorted
    (fun a b => (Pipeline.rd_date a <= Pipeline.rd_date b)%Z)
    [Props.two_day_A_10; Props.two_day_B_10;
     Props.two_day_A_11; Props.two_day_B_11].
Proof.
  apply (@region_day_chronological
           Props.two_day_centers Props.two_day_sun_seg
           Props.two_day_region_day).
  exact two_day_compute.
Defined.

(* ================================================================== *)
(** * Further properties of the interval compressor *)
(* ================================================================== *)

Section IntervalsExtra.
Import Intervals.

Lemma expand_length (ivs : list Interval) :
  Forall (fun iv => (1 <= n_days iv)%Z) ivs ->
  Z.of_nat (List.length (flat_map expand ivs))
  = fold_right Z.add 0%Z (map n_days ivs).
Proof.
  induction 1 as [|iv ivs H _ IH]; [reflexivity|].
  cbn [flat_map map fold_right]. rewrite length_app, Nat2Z.inj_add, IH.
  unfold expand. rewrite repeat_length. lia.
Qed.

Lemma summary_bounds (area : string) (g : list Row) (iv : Interval) :
  StronglySorted (fun a b => (date a <= date b)%Z) g ->
  In iv (group_intervals area g) ->
  (1 <= n_days iv)%Z /\ (start_date iv <= end_date iv)%Z.
Proof.
  intros Hg H.
  destruct (group_intervals_In _ _ _ H)
    as (r & g' & s & e & _ & (Hse & _) & _ & ->).
  rewrite length_map in Hse. cbn [n_days start_date end_date].
  split; [lia|]. apply StronglySorted_nth_le; [exact Hg | lia].
Qed.

Lemma run_bounds_head (flags : list bool) :
  forall s i, exists e rest, run_bounds s i flags = (s, e) :: rest.
Proof.
  induction flags as [|[|] flags IH]; intros s i; simpl; eauto.
Qed.

(** Consecutive runs of the scan touch: the next run starts right after
    the one before it ends. *)
Lemma run_bounds_touch (flags : list bool) :
  forall s i n r1 r2, (s < i)%nat ->
    nth_error (run_bounds s i flags) n = Some r1 ->
    nth_error (run_bounds s i flags) (S n) = Some r2 ->
    fst r2 = S (snd r1).
Proof.
  induction flags as [|[|] flags IH]; intros s i n r1 r2 Hsi H1 H2.
  - simpl in H2. destruct n; discriminate.
  - cbn [run_bounds] in H1, H2. destruct n as [|n].
    + cbn [nth_error] in H1, H2. injection H1 as <-.
      destruct (run_bounds_head flags i (S i)) as (e & rest & E).
      rewrite E in H2. cbn [nth_error] in H2. injection H2 as <-.
      cbn [fst snd]. lia.
    + cbn [nth_error] in H1, H2. apply (IH i (S i) n); auto.
  - cbn [run_bounds] in H1, H2. apply (IH s (S i) n); auto. 
Qed.

(** Without NaN in the station column every run emits its interval. *)
Lemma emits_all (code area : string) (g : list Row) (bounds : list (nat * nat)) :
  Forall (fun r => st r <> None) g ->
  Forall (fun se => is_run (map st g) (fst se) (snd se)) bounds ->
  Forall2 (fun se iv => emit code area g se = [iv])
          bounds (flat_map (emit code area g) bounds).
Proof.
  intros Hg. induction 1 as [|[s e] bounds Hrun _ IH]; [constructor|].
  cbn [flat_map]. unfold emit at 2.
  destruct Hrun as (Hse & _). simpl in Hse. rewrite length_map in Hse.
  destruct (nth_error g s) as [r|] eqn:Hr;
    [|apply nth_error_None in Hr; lia].
  assert (Hst : nth s (map st g) None = st r).
  { apply nth_error_nth. now rewrite nth_error_map, Hr. }
  rewrite Hst. rewrite Forall_forall in Hg.
  destruct (st r) as [v|] eqn:Ev;
    [|exfalso; apply (Hg r); [eapply nth_error_In; eassumption | exact Ev]].
  cbn [app]. constructor; [|exact IH].
  unfold emit. now rewrite Hst.
Qed.

Lemma Forall2_nth (A B : Type) (P : A -> B -> Prop) (l : list A) (l' : list B) :
  Forall2 P l l' ->
  forall n b, nth_error l' n = Some b ->
    exists a, nth_error l n = Some a /\ P a b.
Proof.
  induction 1 as [|x y l l' Hxy _ IH]; intros [|n] b Hn; simpl in *;
    try discriminate.
  - injection Hn as <-. eauto.
  - eauto.
Qed.

(** Neighbouring intervals of a group without NaN name different
    stations. *)
Lemma group_intervals_alternate (area : string) (g : list Row) (n : nat)
      (a b : Interval) :
  Forall (fun r => st r <> None) g ->
  nth_error (group_intervals area g) n = Some a ->
  nth_error (group_intervals area g) (S n) = Some b ->
  station_id a <> station_id b.
Proof.
  intros Hg Ha Hb. destruct g as [|r g']; [destruct n; discriminate|].
  rewrite group_intervals_runs in Ha, Hb.
  destruct (first_run_hyps r g') as (H1 & H2 & H3 & H4).
  pose proof (@run_bounds_ok (map st (r :: g')) (map st g') (st r) 0 1
                H1 H2 ltac:(lia) H3 H4 (or_introl eq_refl)) as Hok.
  pose proof (emits_all (SIGUNGU_CD r) area Hg Hok) as Hall.
  destruct (Forall2_nth Hall _ Ha) as ([s1 e1] & Hn1 & Ea).
  destruct (Forall2_nth Hall _ Hb) as ([s2 e2] & Hn2 & Eb).
  assert (Htouch : fst (s2, e2) = S (snd (s1, e1))).
  { eapply run_bounds_touch; [|exact Hn1|exact Hn2]. lia. }
  simpl in Htouch.
  rewrite Forall_forall in Hok.
  pose proof (Hok _ (nth_error_In _ _ Hn1)) as (Hse1 & Heq1 & _ & Hend1).
  pose proof (Hok _ (nth_error_In _ _ Hn2)) as (Hse2 & _ & _ & _).
  cbn [fst snd] in Hse1, Heq1, Hend1, Hse2.
  unfold emit in Ea, Eb.
  destruct (nth s1 (map st (r :: g')) None) as [v1|] eqn:E1; [|discriminate].
  destruct (nth s2 (map st (r :: g')) None) as [v2|] eqn:E2; [|discriminate].
  injection Ea as <-. injection Eb as <-. cbn [station_id].
  destruct Hend1 as [Hlast|Hneq]; [lia|].
  rewrite <- Htouch, E2, (Heq1 e1 ltac:(lia)) in Hneq. rewrite ?E1 in Hneq.
  cbn [st_neq] in Hneq. apply negb_true_iff, Z.eqb_neq in Hneq. congruence.
Qed.
End IntervalsExtra.

(** X11.  [make_intervals] on any frame, also one whose station column
    holds NaN: the intervals of a region, replayed, give the station ids of
    the region's rows in date order with the NaN entries left out, and a
    region whose station ids are all NaN gets no interval. *)
Theorem make_intervals_skips_nan :
  forall (rows : list Intervals.Row) (area : string),
    let g := Intervals.group area rows in
    flat_map Intervals.expand
             (Intervals.of_area area (Intervals.make_intervals rows))
    = Intervals.present (map Intervals.st g)
    /\ (Forall (fun r => Intervals.st r = None) g ->
        Intervals.of_area area (Intervals.make_intervals rows) = []).
Proof.
  intros rows area g. split; [apply make_intervals_expand|].
  intro Hall. rewrite of_area_make_intervals. fold g.
  destruct (Intervals.group_intervals area g) as [|iv ivs] eqn:E; [reflexivity|].
  assert (Hiv : In iv (Intervals.group_intervals area g)) by (rewrite E; now left).
  destruct (group_intervals_In _ _ _ Hiv)
    as (r & g' & s & e & _ & (Hse & _) & Hst & _).
  rewrite length_map in Hse.
  destruct (nth_error g s) as [x|] eqn:Hx; [|apply nth_error_None in Hx; lia].
  rewrite (nth_error_nth (map Intervals.st g) s None (x := Intervals.st x)) in Hst
    by (now rewrite nth_error_map, Hx).
  rewrite Forall_forall in Hall.
  rewrite (Hall x (nth_error_In _ _ Hx)) in Hst. discriminate.
Qed.

(** X12.  For every region and policy the day counts of the region's
    intervals add up to the number of the region's records; every interval
    counts at least one day and does not end before it starts. *)
Theorem make_intervals_day_counts :
  forall (region_day : list Pipeline.RegionDay) (m : Pipeline.Method)
         (area : string),
    let ivs := Intervals.of_area area (Pipeline.intervals_of m region_day) in
    fold_right Z.add 0%Z (map Intervals.n_days ivs)
    = Z.of_nat (List.length
                  (filter (fun r => String.eqb (Pipeline.rd_resid_area r) area)
                          region_day))
    /\ Forall (fun iv => (1 <= Intervals.n_days iv)%Z
                         /\ (Intervals.start_date iv <= Intervals.end_date iv)%Z)
              ivs.
Proof.
  intros region_day m area ivs.
  set (rows := map (Pipeline.gcols m) region_day).
  set (g := Intervals.group area rows).
  assert (Hivs : ivs = Intervals.group_intervals area g)
    by apply of_area_make_intervals.
  assert (Hall : Forall (fun iv => (1 <= Intervals.n_days iv)%Z
                           /\ (Intervals.start_date iv <= Intervals.end_date iv)%Z)
                        ivs).
  { apply Forall_forall. intros iv Hiv. rewrite Hivs in Hiv.
    apply (@summary_bounds area g iv (group_chronological area rows) Hiv). }
  split; [|exact Hall].
  rewrite <- expand_length
    by (eapply Forall_impl; [|exact Hall]; intros iv H; apply H).
  f_equal. unfold ivs, Pipeline.intervals_of. fold rows.
  rewrite make_intervals_expand. fold g.
  destruct (@map_Some_column Z Intervals.st g) as (vs & Hvs).
  { eapply Forall_impl; [|apply gcols_group_rows]. intros r H. apply H. }
  rewrite Hvs, present_map_Some.
  apply (f_equal (@List.length _)) in Hvs. rewrite !length_map in Hvs.
  rewrite <- Hvs. unfold g.
  rewrite (Permutation_length (group_perm area rows)). unfold rows.
  clear. induction region_day as [|r l IH]; [reflexivity|].
  simpl. destruct (String.eqb (Pipeline.rd_resid_area r) area); simpl; now rewrite IH.
Qed.

(** X13.  For every region and policy, two intervals emitted one after the
    other name different stations: a run is never split in two. *)
Theorem make_intervals_neighbours_differ :
  forall (region_day : list Pipeline.RegionDay) (m : Pipeline.Method)
         (area : string) (n : nat) (a b : Intervals.Interval),
    let ivs := Intervals.of_area area (Pipeline.intervals_of m region_day) in
    nth_error ivs n = Some a -> nth_error ivs (S n) = Some b ->
    Intervals.station_id a <> Intervals.station_id b.
Proof.
  intros region_day m area n a b ivs Ha Hb.
  unfold ivs, Pipeline.intervals_of in Ha, Hb.
  rewrite of_area_make_intervals in Ha, Hb.
  eapply group_intervals_alternate; [|exact Ha|exact Hb].
  eapply Forall_impl; [|apply gcols_group_rows]. intros r H. apply H.
Qed.

Lemma make_intervals_neighbours_differ_witness :
  Intervals.station_id Props.switch_first
  <> Intervals.station_id Props.switch_second.
Proof.
  apply (@make_intervals_neighbours_differ
           Props.switch_region_day Pipeline.centroid "A" 0
           Props.switch_first Props.switch_second).
  - reflexivity.
  - reflexivity.
Defined.

(* ================================================================== *)
(** * Further properties of the monthly sums *)
(* ================================================================== *)

Section Partition.
Import Pipeline.
Variable ym : Z -> string.

(** A quantity of a frame that adds up over a split of its rows. *)
Variable M : Type.
Variable add : M -> M -> M.
Variable zero : M.
Variable mu : list RegionDay -> M.
Hypothesis mu_split :
  forall (p : RegionDay -> bool) l,
    mu l = add (mu (filter p l)) (mu (filter (fun r => negb (p r)) l)).
Hypothesis mu_nil : mu [] = zero.

Lemma filter_other_key (k k' : string * string * string)
      (l : list RegionDay) :
  k' <> k ->
  month_group ym k' (filter (fun r => negb (key_eqb (month_key ym r) k)) l)
  = month_group ym k' l.
Proof.
  intro Hne. unfold month_group. induction l as [|r l IH]; [reflexivity|].
  simpl. destruct (key_eqb (month_key ym r) k) eqn:E; simpl.
  - apply key_eqb_eq in E.
    destruct (key_eqb (month_key ym r) k') eqn:E'; [|exact IH].
    apply key_eqb_eq in E'. congruence.
  - now rewrite IH.
Qed.

Lemma groups_add_up (ks : list (string * string * string)) :
  NoDup ks ->
  forall l, Forall (fun r => In (month_key ym r) ks) l ->
    fold_right add zero (map (fun k => mu (month_group ym k l)) ks) = mu l.
Proof.
  induction 1 as [|k ks Hk Hnd IH]; intros l Hl.
  - destruct l as [|r l]; [now rewrite mu_nil|].
    inversion Hl as [|? ? [] _].
  - cbn [map fold_right].
    rewrite (mu_split (fun r => key_eqb (month_key ym r) k) l).
    f_equal. rewrite <- (IH (filter (fun r => negb (key_eqb (month_key ym r) k)) l)).
    + f_equal. apply map_ext_in. intros k' Hk'.
      rewrite filter_other_key; [reflexivity|]. intros ->. contradiction.
    + apply Forall_forall. intros r Hr. apply filter_In in Hr.
      destruct Hr as [Hr E]. rewrite Forall_forall in Hl.
      destruct (Hl r Hr) as [Heq|H]; [|exact H].
      apply negb_true_iff in E.
      assert (key_eqb (month_key ym r) k = true)
        by (apply key_eqb_eq; now rewrite Heq).
      congruence.
Qed.
End Partition.

Section Totals.
Import Pipeline.

Lemma length_split (p : RegionDay -> bool) (l : list RegionDay) :
  Z.of_nat (List.length l)
  = (Z.of_nat (List.length (filter p l))
     + Z.of_nat (List.length (filter (fun r => negb (p r)) l)))%Z.
Proof.
  induction l as [|r l IH]; [reflexivity|].
  cbn [filter]. destruct (p r); cbn [negb List.length];
    rewrite ?Nat2Z.inj_succ; lia.
Qed.

Lemma present_sum_split (f : RegionDay -> option R) (p : RegionDay -> bool)
      (l : list RegionDay) :
  Intervals.Rsum (Intervals.present (map f l))
  = (Intervals.Rsum (Intervals.present (map f (filter p l)))
     + Intervals.Rsum
         (Intervals.present (map f (filter (fun r => negb (p r)) l))))%R.
Proof.
  unfold Intervals.Rsum.
  induction l as [|r l IH]; [simpl; lra|].
  cbn [filter map]. destruct (p r); cbn [negb map];
    destruct (f r); cbn [Intervals.present fold_right]; lra.
Qed.

Lemma month_keys_cover (ym : Z -> string) (region_day : list RegionDay) :
  Forall (fun r => In (month_key ym r) (month_keys ym region_day)) region_day.
Proof.
  apply Forall_forall. intros r Hr. apply month_keys_In. eauto.
Qed.
End Totals.

(** X14.  The monthly frame loses and doubles nothing: its day counts add
    up to the number of records of [region_day], and under each policy its
    sums add up to the sum of all present measurements of [region_day]. *)
Theorem monthly_totals_preserved :
  forall (ym : Z -> string) (region_day : list Pipeline.RegionDay),
    fold_right Z.add 0%Z
      (map Pipeline.mo_n_days (Pipeline.monthly ym region_day))
    = Z.of_nat (List.length region_day)
    /\ forall m,
         fold_right Rplus 0%R
           (map (Pipeline.monthly_sum m) (Pipeline.monthly ym region_day))
         = Intervals.Rsum
             (Intervals.present (map (Pipeline.sun_of m) region_day)).
Proof.
  intros ym region_day.
  assert (Hnd : NoDup (Pipeline.month_keys ym region_day))
    by apply (unique_keys_NoDup _ key_eqb_eq).
  split.
  - unfold Pipeline.monthly. rewrite map_map. cbn [Pipeline.mo_n_days Pipeline.aggregate].
    apply (@groups_add_up ym Z Z.add 0%Z
             (fun l => Z.of_nat (List.length l)) length_split eq_refl
             _ Hnd region_day (month_keys_cover ym region_day)).
  - intro m. unfold Pipeline.monthly. rewrite map_map.
    rewrite <- (@groups_add_up ym R Rplus 0%R
                  (fun l => Intervals.Rsum
                              (Intervals.present (map (Pipeline.sun_of m) l)))
                  (present_sum_split (Pipeline.sun_of m)) eq_refl
                  _ Hnd region_day (month_keys_cover ym region_day)).
    f_equal. apply map_ext. intro k. now destruct m.
Qed.

(* ================================================================== *)
(** * Further properties of loading *)
(* ================================================================== *)

Section LoadExtra.
Import Pipeline.
Local Open Scope Z_scope.

Lemma check_centers_present (cols : list string) :
  (forall c, In c need -> In c cols) -> check_centers cols = inr tt.
Proof.
  intro H. unfold check_centers.
  destruct (missing cols) as [|c l] eqn:E; [reflexivity|].
  assert (Hc : In c (missing cols)) by (rewrite E; now left).
  apply missing_In in Hc. destruct Hc as [Hc Hn]. exfalso. auto.
Qed.

Lemma getitem_present (cols : list string) (c : string) :
  In c cols -> getitem cols c = inr tt.
Proof. intro H. unfold getitem. apply mem_In in H. now rewrite H. Qed.

Lemma dropna_In (sun : list RawObs) (o : Attach.Obs) :
  In o (dropna sun) <->
  exists r, In r sun
    /\ raw_obs_station r = Some (Attach.obs_station o)
    /\ raw_obs_date r = Some (Attach.obs_date o)
    /\ raw_obs_name r = Attach.obs_name o
    /\ raw_obs_sun r = Attach.obs_sun o.
Proof.
  induction sun as [|r sun IH]; simpl.
  - split; [intros [] | intros (r & [] & _)].
  - destruct (raw_obs_station r) as [s|] eqn:Es, (raw_obs_date r) as [t|] eqn:Et;
      simpl; rewrite IH; split.
    + intros [<-|(r' & H & F)]; [|exists r'; auto].
      exists r. simpl. rewrite Es, Et. auto.
    + intros (r' & [<-|H] & F1 & F2 & F3 & F4); [|right; exists r'; auto].
      left. destruct o; simpl in *. congruence.
    + intros (r' & H & F). exists r'. auto.
    + intros (r' & [<-|H] & F1 & F2 & F); [congruence | exists r'; auto].
    + intros (r' & H & F). exists r'. auto.
    + intros (r' & [<-|H] & F1 & F); [congruence | exists r'; auto].
    + intros (r' & H & F). exists r'. auto.
    + intros (r' & [<-|H] & F1 & F); [congruence | exists r'; auto].
Qed.

Lemma in_window_In (w_start w_end : Z) (sun : list Attach.Obs) (o : Attach.Obs) :
  In o (in_window w_start w_end sun) <->
  In o sun /\ w_start <= Attach.obs_date o <= w_end.
Proof.
  unfold in_window. rewrite filter_In, andb_true_iff, Z.geb_le, Z.leb_le. tauto.
Qed.

Lemma date_min_bounds (o : Attach.Obs) (rest : list Attach.Obs) (lo : Z) :
  Forall (fun x => lo <= Attach.obs_date x) (o :: rest) ->
  lo <= date_min o rest.
Proof.
  intro H. inversion H as [|? ? Ho Hrest]; subst. clear H. unfold date_min.
  induction Hrest as [|x rest Hx _ IH]; cbn [fold_right]; [exact Ho | lia].
Qed.

Lemma date_max_bounds (o : Attach.Obs) (rest : list Attach.Obs) (hi : Z) :
  Forall (fun x => Attach.obs_date x <= hi) (o :: rest) ->
  date_max o rest <= hi.
Proof.
  intro H. inversion H as [|? ? Ho Hrest]; subst. clear H. unfold date_max.
  induction Hrest as [|x rest Hx _ IH]; cbn [fold_right]; [exact Ho | lia].
Qed.

(** What [load] returns when it succeeds. *)
Lemma load_result (w_start w_end : Z) (centers : Table Region)
      (sun : Table RawObs) (meta : Table Meta.RawMeta)
      (res : list Region * list Attach.Candidate) :
  load w_start w_end centers sun meta = inr res ->
  exists o rest,
    in_window w_start w_end (dropna (rows sun)) = o :: rest
    /\ res = (rows centers,
              Attach.attach_segment_to_sun (o :: rest)
                (Meta.prepare_meta (rows meta)
                   (date_min o rest) (date_max o rest))).
Proof.
  unfold load.
  destruct (check_centers (columns centers)) as [e|[]]; [discriminate|].
  cbn [bind].
  repeat match goal with
  | |- context [getitem ?cols ?c] =>
      destruct (getitem cols c) as [?|[]]; cbn [bind]; [discriminate|]
  | |- context [match in_window ?a ?b ?l with _ => _ end] =>
      destruct (in_window a b l) as [|o rest]; [discriminate|]
  | |- context [negb (mem ?c ?cols)] =>
      destruct (mem c cols); cbn [negb]; [|discriminate]
  end.
  intros [= <-]. eauto.
Qed.
End LoadExtra.

(** X15.  When the centers table and the station and date columns of the
    sunshine table are there but no sunshine row has a station id and a
    date that parse with the date inside the window, the run ends with the
    [ValueError] of line 201; the metadata is not looked at. *)
Theorem load_aborts_on_empty_window :
  forall (to_utmK : R -> R -> R * R) (ym : Z -> string) (w_start w_end : Z)
         (centers : Pipeline.Table Pipeline.Region)
         (sun : Pipeline.Table Pipeline.RawObs)
         (meta : Pipeline.Table Meta.RawMeta),
    (forall c, In c Pipeline.need -> In c (Pipeline.columns centers)) ->
    In "지점"%string (Pipeline.columns sun) ->
    In "일시"%string (Pipeline.columns sun) ->
    (forall r s t, In r (Pipeline.rows sun) ->
       Pipeline.raw_obs_station r = Some s ->
       Pipeline.raw_obs_date r = Some t ->
       ~ (w_start <= t <= w_end)%Z) ->
    Pipeline.load w_start w_end centers sun meta
    = inl (ValueError "Sunlight data is empty after window filtering" [])
    /\ Pipeline.main to_utmK ym w_start w_end centers sun meta
       = inl (ValueError "Sunlight data is empty after window filtering" []).
Proof.
  intros to_utmK ym w_start w_end centers sun meta Hc H1 H2 Hnone.
  assert (Hload : Pipeline.load w_start w_end centers sun meta
                  = inl (ValueError "Sunlight data is empty after window filtering" [])).
  { unfold Pipeline.load.
    rewrite (check_centers_present _ Hc). cbn [Pipeline.bind].
    rewrite (getitem_present _ _ H1), (getitem_present _ _ H2).
    cbn [Pipeline.bind].
    destruct (Pipeline.in_window w_start w_end
                (Pipeline.dropna (Pipeline.rows sun))) as [|o rest] eqn:E;
      [reflexivity|].
    assert (Ho : In o (o :: rest)) by now left.
    rewrite <- E in Ho. apply in_window_In in Ho. destruct Ho as [Ho Hw].
    apply dropna_In in Ho. destruct Ho as (r & Hr & Fs & Ft & _).
    exfalso. exact (Hnone r _ _ Hr Fs Ft Hw). }
  split; [exact Hload | now apply main_load_error].
Qed.

Lemma load_aborts_on_empty_window_witness :
  Pipeline.load 20 30 Props.ok_centers Props.ok_sun Props.ok_meta
  = inl (ValueError "Sunlight data is empty after window filtering" [])
  /\ Pipeline.main (fun lon lat => (lon, lat)) (fun _ => "2007-06"%string)
                   20 30 Props.ok_centers Props.ok_sun Props.ok_meta
     = inl (ValueError "Sunlight data is empty after window filtering" []).
Proof.
  apply load_aborts_on_empty_window.
  - intros c Hc. exact Hc.
  - simpl. tauto.
  - simpl. tauto.
  - intros r s t [<-|[]] _ [= <-]. lia.
Defined.

(** X16.  When loading succeeds, the regions are the rows of the centers
    table, and every candidate handed to the daily loop is a row of the
    sunshine table whose station id and date parse (its measurement taken
    as it is), dated inside the window, with a segment that lies inside
    the window. *)
Theorem load_candidates_in_window :
  forall (w_start w_end : Z)
         (centers : Pipeline.Table Pipeline.Region)
         (sun : Pipeline.Table Pipeline.RawObs)
         (meta : Pipeline.Table Meta.RawMeta)
         (regions : list Pipeline.Region) (cands : list Attach.Candidate),
    Pipeline.load w_start w_end centers sun meta = inr (regions, cands) ->
    regions = Pipeline.rows centers
    /\ forall c, In c cands ->
         (w_start <= Attach.obs_date (Attach.cand_obs c) <= w_end)%Z
         /\ (w_start <= Meta.seg_start (Attach.cand_seg c))%Z
         /\ (Meta.seg_end (Attach.cand_seg c) <= w_end)%Z
         /\ exists r, In r (Pipeline.rows sun)
              /\ Pipeline.raw_obs_station r
                 = Some (Attach.obs_station (Attach.cand_obs c))
              /\ Pipeline.raw_obs_date r
                 = Some (Attach.obs_date (Attach.cand_obs c))
              /\ Pipeline.raw_obs_name r = Attach.obs_name (Attach.cand_obs c)
              /\ Pipeline.raw_obs_sun r = Attach.obs_sun (Attach.cand_obs c).
Proof.
  intros w_start w_end centers sun meta regions cands H.
  destruct (load_result _ _ _ _ _ H) as (o & rest & Hwin & [= -> ->]).
  split; [reflexivity|].
  assert (Hobs : forall x, In x (o :: rest) ->
            In x (Pipeline.dropna (Pipeline.rows sun))
            /\ (w_start <= Attach.obs_date x <= w_end)%Z).
  { intros x Hx. rewrite <- Hwin in Hx. now apply in_window_In in Hx. }
  assert (Hmin : (w_start <= Pipeline.date_min o rest)%Z).
  { apply date_min_bounds, Forall_forall. intros x Hx. apply Hobs in Hx. lia. }
  assert (Hmax : (Pipeline.date_max o rest <= w_end)%Z).
  { apply date_max_bounds, Forall_forall. intros x Hx. apply Hobs in Hx. lia. }
  intros c Hc. apply attach_In in Hc. destruct Hc as (Ho & Hs & _).
  destruct (Hobs _ Ho) as [Hraw Hw].
  assert (Hseg : Meta.within_window (Pipeline.date_min o rest)
                   (Pipeline.date_max o rest) (Attach.cand_seg c)).
  { pose proof (resolve_overlaps_within_window
                  (sort_values_Forall Meta.key_leb
                     (clip_rows_within_window (Pipeline.date_min o rest)
                        (Pipeline.date_max o rest) (Pipeline.rows meta)))) as F.
    rewrite Forall_forall in F. apply F. exact Hs. }
  destruct Hseg as [S1 S2].
  split; [exact Hw|]. split; [lia|]. split; [lia|].
  now apply dropna_In.
Qed.

Example ok_load :
  Pipeline.load 0 100 Props.ok_centers Props.ok_sun Props.ok_meta
  = inr (Pipeline.rows Props.ok_centers, [Props.ok_candidate]).
Proof. reflexivity. Qed.

Lemma load_candidates_in_window_witness :
  Pipeline.rows Props.ok_centers = Pipeline.rows Props.ok_centers
  /\ forall c, In c [Props.ok_candidate] ->
       (0 <= Attach.obs_date (Attach.cand_obs c) <= 100)%Z
       /\ (0 <= Meta.seg_start (Attach.cand_seg c))%Z
       /\ (Meta.seg_end (Attach.cand_seg c) <= 100)%Z
       /\ exists r, In r (Pipeline.rows Props.ok_sun)
            /\ Pipeline.raw_obs_station r
               = Some (Attach.obs_station (Attach.cand_obs c))
            /\ Pipeline.raw_obs_date r
               = Some (Attach.obs_date (Attach.cand_obs c))
            /\ Pipeline.raw_obs_name r = Attach.obs_name (Attach.cand_obs c)
            /\ Pipeline.raw_obs_sun r = Attach.obs_sun (Attach.cand_obs c).
Proof.
  apply (@load_candidates_in_window 0 100 Props.ok_centers Props.ok_sun
           Props.ok_meta).
  exact ok_load.
Defined.

(* ================================================================== *)
(** * Reading a file with [read_csv_smart] *)
(* ================================================================== *)

Section CsvFacts.
Import Csv.
Variable A : Type.
Variable read_csv : option string -> Attempt A.

Lemma try_encodings_first (pre post : list string) (enc : string) :
  Forall (fun e => read_csv (Some e) = UnicodeDecodeError) pre ->
  read_csv (Some enc) <> UnicodeDecodeError ->
  try_encodings read_csv (pre ++ enc :: post) = read_csv (Some enc).
Proof.
  intros Hpre Henc. induction Hpre as [|e pre He _ IH]; simpl.
  - destruct (read_csv (Some enc)); congruence.
  - now rewrite He.
Qed.

Lemma try_encodings_none (encs : list string) :
  Forall (fun e => read_csv (Some e) = UnicodeDecodeError) encs ->
  try_encodings read_csv encs = read_csv None.
Proof.
  induction 1 as [|e encs He _ IH]; simpl; [reflexivity|]. now rewrite He.
Qed.
End CsvFacts.

(** X17.  [read_csv_smart] gives the outcome of reading with the first of
    utf-8-sig, utf-8, cp949, euc-kr that does not raise
    [UnicodeDecodeError]: the frame it parsed, or the other exception it
    raised, which is not caught and ends the call without a further
    attempt.  Only when all four raise [UnicodeDecodeError] is the file read
    with the default encoding, and that outcome is the result. *)
Theorem read_csv_smart_first_decodable :
  forall (A : Type) (read_csv : option string -> Csv.Attempt A),
    (forall pre enc post,
        Csv.encodings = pre ++ enc :: post ->
        Forall (fun e => read_csv (Some e) = Csv.UnicodeDecodeError) pre ->
        read_csv (Some enc) <> Csv.UnicodeDecodeError ->
        Csv.read_csv_smart read_csv = read_csv (Some enc))
    /\ (Forall (fun e => read_csv (Some e) = Csv.UnicodeDecodeError)
               Csv.encodings ->
        Csv.read_csv_smart read_csv = read_csv None)
    /\ (Csv.read_csv_smart read_csv = read_csv None
        \/ exists enc, In enc Csv.encodings
             /\ Csv.read_csv_smart read_csv = read_csv (Some enc)
             /\ read_csv (Some enc) <> Csv.UnicodeDecodeError).
Proof.
  intros A read_csv. unfold Csv.read_csv_smart. split; [|split].
  - intros pre enc post -> Hpre Henc. now apply try_encodings_first.
  - apply try_encodings_none.
  - induction Csv.encodings as [|e encs IH]; [now left|].
    simpl. destruct (read_csv (Some e)) as [f| |x] eqn:E.
    + right. exists e. split; [now left|]. rewrite E. split; [reflexivity | discriminate].
    + destruct IH as [IH|(enc & Hin & IH & Hne)]; [now left|].
      right. exists enc. split; [now right | now split].
    + right. exists e. split; [now left|]. rewrite E. split; [reflexivity | discriminate].
Qed.

(* ================================================================== *)
(** * The merge key of [sigungu_center.py] *)
(* ================================================================== *)

Section SigunguFacts.
Import Sigungu.
Local Open Scope string_scope.

Lemma append_nil_r (s : string) : s ++ "" = s.
Proof. induction s as [|c s IH]; simpl; [reflexivity | now rewrite IH]. Qed.

Lemma append_assoc (a b c : string) : (a ++ b) ++ c = a ++ b ++ c.
Proof. induction a as [|x a IH]; simpl; [reflexivity | now rewrite IH]. Qed.

Lemma prefix_append (p s : string) :
  String.prefix p s = true <-> exists r, s = p ++ r.
Proof.
  revert s. induction p as [|a p IH]; intros s.
  - destruct s; simpl; split; eauto.
  - destruct s as [|b s]; simpl.
    + split; [discriminate | intros (r & H); discriminate].
    + destruct (ascii_dec a b) as [->|Hne].
      * rewrite IH. split; intros (r & H); exists r; congruence.
      * split; [discriminate | intros (r & H); injection H as H1 _; congruence].
Qed.

Lemma drop_append (p r : string) : drop (String.length p) (p ++ r) = r.
Proof. induction p as [|a p IH]; simpl; [now destruct r | exact IH]. Qed.

Lemma has_newline_append (a b : string) :
  has_newline (a ++ b) = has_newline a || has_newline b.
Proof.
  induction a as [|c a IH]; simpl; [reflexivity|].
  now rewrite IH, orb_assoc.
Qed.

Lemma strip_nl_id (s : string) : has_newline s = false -> strip_nl s = s.
Proof.
  induction s as [|c s IH]; simpl; [reflexivity|].
  intro H. apply orb_false_iff in H. destruct H as [Hc Hs].
  destruct s as [|c' s']; [now rewrite Hc|]. now rewrite (IH Hs).
Qed.

Lemma group2_plain (r : string) :
  has_newline r = false ->
  group2 r = if ends_with gu r then Some r else None.
Proof.
  intro H. unfold group2. now rewrite (strip_nl_id _ H), H.
Qed.

Lemma splits_cons (c : ascii) (name p r : string) :
  splits_at (String c name) p r ->
  (p = "" /\ String c name = si ++ r)
  \/ exists p', p = String c p' /\ splits_at name p' r.
Proof.
  intros [H E]. destruct p as [|c' p'].
  - left. auto.
  - right. simpl in H. injection H as -> ->. exists p'. split; [reflexivity|].
    split; [reflexivity | exact E].
Qed.

Lemma pat_city_gu_head (c : ascii) (name r : string) :
  has_newline (String c name) = false ->
  String c name = si ++ r -> ends_with gu r = true ->
  (if String.prefix si (String c name)
   then group2 (drop (String.length si) (String c name)) else None) = Some r.
Proof.
  intros Hnl H E.
  assert (Hp : String.prefix si (String c name) = true)
    by (apply prefix_append; eauto).
  rewrite Hp, H, drop_append.
  rewrite H, has_newline_append in Hnl. apply orb_false_iff in Hnl.
  rewrite group2_plain by apply Hnl. now rewrite E.
Qed.

(** The pattern matches at the first 시 after which the rest ends in 구. *)
Lemma pat_city_gu_Some (name g1 g2 : string) :
  has_newline name = false ->
  pat_city_gu name = Some (g1, g2) ->
  exists p,
    g1 = p ++ si /\ splits_at name p g2
    /\ forall p' r', splits_at name p' r' ->
         (String.length p <= String.length p')%nat.
Proof.
  revert g1 g2. induction name as [|c name IH]; intros g1 g2 Hnl H;
    [discriminate|].
  cbn [pat_city_gu] in H.
  destruct (if String.prefix si (String c name)
            then group2 (drop (String.length si) (String c name)) else None)
    as [g|] eqn:Hhead.
  - injection H as <- <-. exists "".
    destruct (String.prefix si (String c name)) eqn:Hp; [|discriminate].
    apply prefix_append in Hp. destruct Hp as (r & Hr).
    rewrite Hr, drop_append in Hhead.
    assert (Hrn : has_newline r = false).
    { rewrite Hr, has_newline_append in Hnl. now apply orb_false_iff in Hnl. }
    rewrite (group2_plain _ Hrn) in Hhead.
    destruct (ends_with gu r) eqn:E; [|discriminate]. injection Hhead as <-.
    split; [reflexivity|]. split; [split; assumption|].
    intros p' r' _. simpl. lia.
  - simpl in Hnl. apply orb_false_iff in Hnl. destruct Hnl as [Hc Hnl].
    rewrite Hc in H.
    destruct (pat_city_gu name) as [[g1' g2']|] eqn:Hrec; [|discriminate].
    injection H as <- <-.
    destruct (IH g1' g2' Hnl eq_refl) as (p & -> & [Hname E] & Hmin).
    exists (String c p). split; [reflexivity|].
    split; [split; [change (String c name = String c (p ++ si ++ g2')); now f_equal | exact E]|].
    intros p' r' Hs. destruct (splits_cons Hs) as [[-> Hr]|(p'' & -> & Hs')].
    + destruct Hs as [_ E'].
      rewrite (@pat_city_gu_head c name r') in Hhead; try discriminate; auto.
      simpl. now rewrite Hc, Hnl.
    + simpl. apply le_n_S. exact (Hmin p'' r' Hs').
Qed.

Lemma pat_city_gu_None (name : string) :
  has_newline name = false ->
  pat_city_gu name = None ->
  forall p r, ~ splits_at name p r.
Proof.
  induction name as [|c name IH]; intros Hnl H p r Hs.
  - destruct Hs as [Hs _]. destruct p; discriminate.
  - cbn [pat_city_gu] in H.
    destruct (if String.prefix si (String c name)
              then group2 (drop (String.length si) (String c name)) else None)
      as [g|] eqn:Hhead; [discriminate|].
    destruct (splits_cons Hs) as [[-> Hr]|(p' & -> & Hs')].
    + destruct Hs as [_ E].
      rewrite (@pat_city_gu_head c name r) in Hhead; try discriminate; auto.
    + simpl in Hnl. apply orb_false_iff in Hnl. destruct Hnl as [Hc Hnl].
      rewrite Hc in H.
      destruct (pat_city_gu name) as [[g1' g2']|] eqn:Hrec; [discriminate|].
      exact (IH Hnl eq_refl p' r Hs').
Qed.

Lemma is_unique_NoDup (l : list string) : is_unique l = true <-> NoDup l.
Proof.
  induction l as [|x l IH]; simpl.
  - split; [constructor | reflexivity].
  - rewrite andb_true_iff, negb_true_iff, IH. split.
    + intros [Hx Hl]. constructor; [|exact Hl].
      intro Hin. assert (existsb (String.eqb x) l = true).
      { apply existsb_exists. exists x. split; [exact Hin | apply String.eqb_refl]. }
      congruence.
    + intro H. inversion H as [|? ? Hx Hl]; subst. split; [|exact Hl].
      destruct (existsb (String.eqb x) l) eqn:E; [|reflexivity].
      apply existsb_exists in E. destruct E as (y & Hy & Exy).
      apply String.eqb_eq in Exy. subst. contradiction.
Qed.

Lemma replace_not_old (v : string) :
  replace rename_map v <> "충청남도/당진군"
  /\ replace rename_map v <> "경기도/여주군".
Proof.
  unfold replace, rename_map. cbn [get].
  destruct (String.eqb_spec v "충청남도/당진군") as [->|H1];
    [split; discriminate|].
  destruct (String.eqb_spec v "경기도/여주군") as [->|H2];
    [split; discriminate|].
  split; assumption.
Qed.

Lemma unmapped_false (r : Row) :
  unmapped r = false <-> exists v, get sido_map (sido_cd r) = Some v.
Proof.
  unfold unmapped. destruct (get sido_map (sido_cd r)); split; eauto;
    try discriminate. intros (v & H). discriminate.
Qed.

Lemma filter_nil_Forall (X : Type) (f : X -> bool) (l : list X) :
  filter f l = [] <-> Forall (fun x => f x = false) l.
Proof.
  induction l as [|x l IH]; simpl; [split; [constructor | reflexivity]|].
  destruct (f x) eqn:E; split.
  - discriminate.
  - intro H. inversion H. congruence.
  - intro H. constructor; [exact E | now apply IH].
  - intro H. inversion H. now apply IH.
Qed.
End SigunguFacts.

Section SigunguKeys.
Import Sigungu.
Local Open Scope string_scope.

Lemma ends_with_append (p r : string) :
  ends_with gu r = true -> ends_with gu (p ++ r) = true.
Proof.
  intro H. induction p as [|c p IH]; [exact H|].
  cbn [append ends_with]. rewrite IH. apply orb_true_r.
Qed.

Lemma build_keys_inr (df : list Row) (keyed : list Keyed) :
  build_keys df = inr keyed ->
  filter unmapped df = [] /\ keyed = map key_row df
  /\ is_unique (map resid_area keyed) = true.
Proof.
  unfold build_keys. destruct (filter unmapped df) as [|bad more];
    [|discriminate].
  destruct (is_unique (map resid_area (map key_row df))) eqn:E;
    [|discriminate].
  intro H. injection H as <-. auto.
Qed.

Lemma firstn_subset (X : Type) (n : nat) (l : list X) (x : X) :
  In x (firstn n l) -> In x l.
Proof.
  revert l. induction n as [|n IH]; intros [|y l]; cbn [firstn];
    try contradiction.
  intros [->|H]; [now left | right; now apply IH].
Qed.

Lemma filter_count_In (x : string) (l : list string) :
  In x l -> (1 <= List.length (filter (String.eqb x) l))%nat.
Proof.
  induction l as [|y l IH]; [contradiction|]. intros [->|H]; cbn [filter].
  - rewrite String.eqb_refl. cbn [List.length]. lia.
  - specialize (IH H). destruct (String.eqb x y); cbn [List.length]; lia.
Qed.

Lemma twice_in_filter (x : string) (l : list string) (i j : nat) :
  i <> j -> nth_error l i = Some x -> nth_error l j = Some x ->
  (1 < List.length (filter (String.eqb x) l))%nat.
Proof.
  revert i j. induction l as [|y l IH]; intros i j Hij Hi Hj.
  - destruct i; discriminate.
  - cbn [filter]. destruct i as [|i], j as [|j].
    + contradiction.
    + cbn [nth_error] in Hi, Hj. injection Hi as ->.
      rewrite String.eqb_refl. cbn [List.length].
      apply nth_error_In in Hj. apply filter_count_In in Hj. lia.
    + cbn [nth_error] in Hi, Hj. injection Hj as ->.
      rewrite String.eqb_refl. cbn [List.length].
      apply nth_error_In in Hi. apply filter_count_In in Hi. lia.
    + cbn [nth_error] in Hi, Hj.
      assert (H : (1 < List.length (filter (String.eqb x) l))%nat)
        by (apply (IH i j); [congruence | assumption | assumption]).
      destruct (String.eqb x y); cbn [List.length]; lia.
Qed.
End SigunguKeys.

(** X18. [make_resid_area_2010] on a name without a line break: if the name
    can be read as a prefix, 시, and a rest that ends in 구, the key is
    province/prefix시/rest for the shortest such prefix; if it cannot, the
    key is province/name. *)
Theorem make_resid_area_2010_first_city :
  forall sido_nm name : string,
    Sigungu.has_newline name = false ->
    (exists p r,
        Sigungu.splits_at name p r
        /\ (forall p' r', Sigungu.splits_at name p' r' ->
              (String.length p <= String.length p')%nat)
        /\ Sigungu.make_resid_area_2010 sido_nm name
           = (sido_nm ++ "/" ++ (p ++ Sigungu.si) ++ "/" ++ r)%string)
    \/ ((forall p r, ~ Sigungu.splits_at name p r)
        /\ Sigungu.make_resid_area_2010 sido_nm name
           = (sido_nm ++ "/" ++ name)%string).
Proof.
  intros sido_nm name Hnl. unfold Sigungu.make_resid_area_2010.
  destruct (Sigungu.pat_city_gu name) as [[g1 g2]|] eqn:E.
  - left. destruct (@pat_city_gu_Some name g1 g2 Hnl E) as (p & -> & Hs & Hmin).
    exists p, g2. auto.
  - right. split; [|reflexivity]. now apply pat_city_gu_None.
Qed.

Lemma make_resid_area_2010_first_city_witness :
  Sigungu.has_newline "포항시남구" = false
  /\ ((exists p r,
        Sigungu.splits_at "포항시남구" p r
        /\ (forall p' r', Sigungu.splits_at "포항시남구" p' r' ->
              (String.length p <= String.length p')%nat)
        /\ Sigungu.make_resid_area_2010 "경상북도" "포항시남구"
           = ("경상북도" ++ "/" ++ (p ++ Sigungu.si) ++ "/" ++ r)%string)
    \/ ((forall p r, ~ Sigungu.splits_at "포항시남구" p r)
        /\ Sigungu.make_resid_area_2010 "경상북도" "포항시남구"
           = ("경상북도" ++ "/" ++ "포항시남구")%string)).
Proof.
  split; [reflexivity|].
  apply (make_resid_area_2010_first_city "경상북도" "포항시남구").
  reflexivity.
Defined.

(** X19. [make_resid_area_2010] leaves a name that does not end in 구 (and
    has no line break) in one piece: the key is province/name. *)
Theorem make_resid_area_2010_unsplit :
  forall sido_nm name : string,
    Sigungu.has_newline name = false ->
    Sigungu.ends_with Sigungu.gu name = false ->
    Sigungu.make_resid_area_2010 sido_nm name = (sido_nm ++ "/" ++ name)%string.
Proof.
  intros sido_nm name Hnl Hend. unfold Sigungu.make_resid_area_2010.
  destruct (Sigungu.pat_city_gu name) as [[g1 g2]|] eqn:E; [|reflexivity].
  destruct (@pat_city_gu_Some name g1 g2 Hnl E) as (p & _ & [Hname Hgu] & _).
  rewrite Hname in Hend.
  rewrite (@ends_with_append p _ (@ends_with_append Sigungu.si g2 Hgu)) in Hend.
  discriminate.
Qed.

Lemma make_resid_area_2010_unsplit_witness :
  Sigungu.has_newline "당진군" = false
  /\ Sigungu.ends_with Sigungu.gu "당진군" = false
  /\ Sigungu.make_resid_area_2010 "충청남도" "당진군"
     = ("충청남도" ++ "/" ++ "당진군")%string.
Proof.
  split; [reflexivity|]. split; [reflexivity|].
  apply (make_resid_area_2010_unsplit "충청남도" "당진군"); reflexivity.
Defined.

(** X20. When the key step of [sigungu_center.py] goes through, the rows are
    the rows of the input in their order, every row has a province from
    [sido_map] for the first two characters of its code, no two rows have
    the same [resid_area], and no [resid_area] is one of the two old
    labels of [rename_map]. *)
Theorem build_keys_result :
  forall (df : list Sigungu.Row) (keyed : list Sigungu.Keyed),
    Sigungu.build_keys df = inr keyed ->
    map Sigungu.k_row keyed = df
    /\ NoDup (map Sigungu.resid_area keyed)
    /\ Forall (fun k =>
                 Sigungu.get Sigungu.sido_map
                   (String.substring 0 2 (Sigungu.SIGUNGU_CD (Sigungu.k_row k)))
                 = Some (Sigungu.SIDO_NM k)
                 /\ Sigungu.resid_area_2010 k
                    = Sigungu.make_resid_area_2010 (Sigungu.SIDO_NM k)
                        (Sigungu.SIGUNGU_NM (Sigungu.k_row k))
                 /\ Sigungu.resid_area k <> "충청남도/당진군"%string
                 /\ Sigungu.resid_area k <> "경기도/여주군"%string) keyed.
Proof.
  intros df keyed H.
  destruct (@build_keys_inr df keyed H) as (Hbad & -> & Hu).
  split.
  { rewrite map_map. cbn [Sigungu.key_row Sigungu.k_row]. apply map_id. }
  split; [now apply is_unique_NoDup|].
  apply Forall_forall. intros k Hk. apply in_map_iff in Hk.
  destruct Hk as (r & <- & Hr).
  pose proof (proj1 (@filter_nil_Forall _ Sigungu.unmapped df) Hbad) as Hall.
  rewrite Forall_forall in Hall. specialize (Hall r Hr).
  apply unmapped_false in Hall. destruct Hall as (v & Hv).
  unfold Sigungu.key_row. cbn [Sigungu.k_row Sigungu.SIDO_NM
    Sigungu.resid_area_2010 Sigungu.resid_area].
  fold (Sigungu.sido_cd r). rewrite Hv.
  split; [reflexivity|]. split; [reflexivity|]. apply replace_not_old.
Qed.

Lemma build_keys_result_witness :
  Sigungu.build_keys
    [Sigungu.mkRow "37011" "포항시남구"; Sigungu.mkRow "34390" "당진군"]
  = inr (map Sigungu.key_row
           [Sigungu.mkRow "37011" "포항시남구"; Sigungu.mkRow "34390" "당진군"])
  /\ NoDup (map Sigungu.resid_area
              (map Sigungu.key_row
                 [Sigungu.mkRow "37011" "포항시남구";
                  Sigungu.mkRow "34390" "당진군"])).
Proof.
  split; [reflexivity|].
  apply (@build_keys_result
           [Sigungu.mkRow "37011" "포항시남구"; Sigungu.mkRow "34390" "당진군"]
           (map Sigungu.key_row
              [Sigungu.mkRow "37011" "포항시남구";
               Sigungu.mkRow "34390" "당진군"])).
  reflexivity.
Defined.

(** X21. A row whose code starts with two characters that [sido_map] does
    not list stops the script with the error of line 132, whatever the
    keys of the other rows are; the error shows at most 20 codes, each the
    code of such a row. *)
Theorem build_keys_unmapped_sido :
  forall (df : list Sigungu.Row) (r : Sigungu.Row),
    In r df ->
    Sigungu.get Sigungu.sido_map
      (String.substring 0 2 (Sigungu.SIGUNGU_CD r)) = None ->
    exists codes,
      Sigungu.build_keys df
        = inl (ValueError "Unmapped SIDO_CD found" codes)
      /\ codes <> []
      /\ (List.length codes <= 20)%nat
      /\ Forall (fun c => exists r', In r' df
                   /\ Sigungu.SIGUNGU_CD r' = c
                   /\ Sigungu.get Sigungu.sido_map
                        (String.substring 0 2 c) = None) codes.
Proof.
  intros df r Hr Hnone.
  assert (Hin : In r (filter Sigungu.unmapped df)).
  { apply filter_In. split; [exact Hr|]. unfold Sigungu.unmapped, Sigungu.sido_cd.
    now rewrite Hnone. }
  unfold Sigungu.build_keys.
  destruct (filter Sigungu.unmapped df) as [|bad more] eqn:E; [contradiction|].
  eexists. split; [reflexivity|]. split; [discriminate|].
  split.
  { rewrite length_map. apply firstn_le_length. }
  apply Forall_forall. intros c Hc. apply in_map_iff in Hc.
  destruct Hc as (r' & <- & Hr').
  assert (Hf : In r' (filter Sigungu.unmapped df)).
  { rewrite E. exact (@firstn_subset _ 20 (bad :: more) r' Hr'). }
  apply filter_In in Hf. destruct Hf as [Hdf Hun].
  exists r'. split; [exact Hdf|]. split; [reflexivity|].
  unfold Sigungu.unmapped, Sigungu.sido_cd in Hun.
  now destruct (Sigungu.get Sigungu.sido_map
                  (String.substring 0 2 (Sigungu.SIGUNGU_CD r'))).
Qed.

Lemma build_keys_unmapped_sido_witness :
  exists codes,
    Sigungu.build_keys [Sigungu.mkRow "11010" "종로구"; Sigungu.mkRow "99010" "중구"]
      = inl (ValueError "Unmapped SIDO_CD found" codes)
    /\ codes <> [].
Proof.
  destruct (@build_keys_unmapped_sido
              [Sigungu.mkRow "11010" "종로구"; Sigungu.mkRow "99010" "중구"]
              (Sigungu.mkRow "99010" "중구"))
    as (codes & H & Hne & _).
  - right. left. reflexivity.
  - reflexivity.
  - exists codes. split; assumption.
Defined.

(** X22. When every row has a known province and two rows get the same
    [resid_area], the script stops with the error of line 159, and the key
    the two rows share is among the duplicates it shows. *)
Theorem build_keys_duplicate_key :
  forall (df : list Sigungu.Row) (i j : nat) (ri rj : Sigungu.Row),
    Forall (fun r => Sigungu.unmapped r = false) df ->
    nth_error df i = Some ri -> nth_error df j = Some rj -> i <> j ->
    Sigungu.resid_area (Sigungu.key_row ri)
      = Sigungu.resid_area (Sigungu.key_row rj) ->
    exists dup,
      Sigungu.build_keys df
        = inl (ValueError "resid_area key is not unique" dup)
      /\ In (Sigungu.resid_area (Sigungu.key_row ri)) dup.
Proof.
  intros df i j ri rj Hall Hi Hj Hij Heq.
  unfold Sigungu.build_keys.
  rewrite (proj2 (@filter_nil_Forall _ Sigungu.unmapped df) Hall).
  set (keys := map Sigungu.resid_area (map Sigungu.key_row df)).
  assert (Hki : nth_error keys i = Some (Sigungu.resid_area (Sigungu.key_row ri))).
  { unfold keys. rewrite map_map. now rewrite nth_error_map, Hi. }
  assert (Hkj : nth_error keys j = Some (Sigungu.resid_area (Sigungu.key_row ri))).
  { unfold keys. rewrite map_map. now rewrite nth_error_map, Hj, Heq. }
  assert (Hnd : ~ NoDup keys).
  { intro Hnd. apply Hij.
    apply (proj1 (NoDup_nth_error keys) Hnd).
    - apply nth_error_Some. congruence.
    - congruence. }
  destruct (Sigungu.is_unique keys) eqn:E.
  { apply is_unique_NoDup in E. contradiction. }
  eexists. split; [reflexivity|].
  apply sort_values_In.
  unfold Sigungu.duplicated. apply filter_In. split.
  { eapply nth_error_In. exact Hki. }
  apply Nat.ltb_lt.
  exact (@twice_in_filter _ keys i j Hij Hki Hkj).
Qed.

Lemma build_keys_duplicate_key_witness :
  exists dup,
    Sigungu.build_keys
      [Sigungu.mkRow "11020" "중구"; Sigungu.mkRow "11010" "종로구";
       Sigungu.mkRow "11021" "중구"]
    = inl (ValueError "resid_area key is not unique" dup)
    /\ In "서울특별시/중구"%string dup.
Proof.
  apply (@build_keys_duplicate_key
           [Sigungu.mkRow "11020" "중구"; Sigungu.mkRow "11010" "종로구";
            Sigungu.mkRow "11021" "중구"]
           0%nat 2%nat (Sigungu.mkRow "11020" "중구")
           (Sigungu.mkRow "11021" "중구")).
  - repeat constructor.
  - reflexivity.
  - reflexivity.
  - discriminate.
  - reflexivity.
Defined.
